(** * The virtio-net driver core of seastar (net/virtio.cc)

    A shallow embedding of the split-ring virtqueue engine ([vring]), of
    the transmit and receive adapters ([txq], [rxq]) and of the few device
    getters the specification talks about, followed by the theorems that
    settle the specification's claims against the code.

    Conventions.
    - A C++ integer of width [w] is a [Z]; every store into a narrower
      field is written with its truncation ([u8], [u16], [u32], [u64]).
    - Arrays living in shared memory ([_descs], [_ring], [_used_elements],
      [_completions]) are lists; an access outside the array is undefined
      behaviour in C++ and is the outcome [Undefined] here: the source
      performs no bounds check of its own.
    - [assert] is the outcome [Abort].
    - Loops whose termination depends on memory written by the host take
      fuel; running out of it is the outcome [OutOfFuel].
    - The host is quiescent during one driver call: what it writes to the
      used ring is a transition of its own between two calls. *)

From stdpp Require Import base numbers list gmap strings.

Open Scope Z_scope.

(** ** Fixed-width integers *)

Definition u8 (x : Z) : Z := x `mod` 2 ^ 8.
Definition u16 (x : Z) : Z := x `mod` 2 ^ 16.
Definition u32 (x : Z) : Z := x `mod` 2 ^ 32.
Definition u64 (x : Z) : Z := x `mod` 2 ^ 64.

(** ** Outcomes of a driver call *)

Inductive outcome (A : Type) : Type :=
| Ret (a : A)
| Abort
| Undefined
| OutOfFuel.
Arguments Ret {A} a.
Arguments Abort {A}.
Arguments Undefined {A}.
Arguments OutOfFuel {A}.

Global Instance outcome_ret : MRet outcome := @Ret.
Global Instance outcome_bind : MBind outcome := fun A B f m =>
  match m with
  | Ret a => f a
  | Abort => Abort
  | Undefined => Undefined
  | OutOfFuel => OutOfFuel
  end.

Global Instance outcome_fmap : FMap outcome := fun A B f m =>
  match m with
  | Ret a => Ret (f a)
  | Abort => Abort
  | Undefined => Undefined
  | OutOfFuel => OutOfFuel
  end.

(** [a[i]] for a C array: defined inside the array only. *)
Definition at_index {A : Type} (a : list A) (i : Z) : outcome A :=
  if decide (0 <= i)
  then match a !! Z.to_nat i with Some x => Ret x | None => Undefined end
  else Undefined.

(** [a[i] = x] for a C array. *)
Definition store {A : Type} (a : list A) (i : Z) (x : A) : outcome (list A) :=
  if decide (0 <= i < Z.of_nat (length a))
  then Ret (<[Z.to_nat i := x]> a)
  else Undefined.

(** [std::for_each] over a finite sequence, threading the state. *)
Fixpoint for_each {A S : Type} (f : A -> S -> outcome S) (l : list A) (s : S)
  : outcome S :=
  match l with
  | [] => Ret s
  | x :: l' => s' ← f x s; for_each f l' s'
  end.

(** ** Packets (net/packet.hh, net/ip.hh, net/net.hh)

    These declarations are not part of virtio.cc; the driver only uses
    what is modelled here. *)

Module ip_protocol_num.
Inductive t : Type := icmp | tcp | udp | unused.
Global Instance eq_dec : EqDecision t.
Proof. solve_decision. Defined.
End ip_protocol_num.

Record offload_info : Type := mk_offload_info {
  protocol : ip_protocol_num.t;
  ip_hdr_len : Z;
  tcp_hdr_len : Z;
  udp_hdr_len : Z
}.

Record hw_features : Type := mk_hw_features {
  tx_csum_offload : bool;
  rx_csum_offload : bool;
  tx_tso : bool;
  tx_ufo : bool;
  mtu : Z
}.

Record fragment : Type := mk_fragment {
  base : Z;                     (* char* *)
  size : Z                      (* size_t *)
}.

(** Modelled from the spec: class packet of net/packet.hh, which is not
    in virtio.cc.  A packet is its fragments in order, its offload
    metadata and a release hook; here the hook is the list of buffers it
    frees when the packet is dropped. *)
Record packet : Type := mk_packet {
  fragments : list fragment;
  offload : offload_info;
  deleter : list Z
}.

Definition nr_frags (p : packet) : Z := Z.of_nat (length (fragments p)).

(** [p.len()]: the total length of the fragments. *)
Definition packet_len (p : packet) : Z :=
  foldr (fun f acc => size f + acc) 0 (fragments p).

(** Modelled from the spec: the constructor [packet(fragment, packet&&)]
    of net/packet.hh.  The spec (4.2, Posting) has the virtio-net header
    "prepended as the first fragment of the outgoing packet". *)
Definition packet_prepend (frag : fragment) (x : packet) : packet :=
  mk_packet (frag :: fragments x) (offload x) (deleter x).

(** Dropping a packet runs its release hook: the buffers it frees. *)
Definition drop_packet (p : packet) : list Z := deleter p.

(** A [promise<size_t>] is identified by the continuation attached to
    its future: none (a default-constructed promise), the destruction of
    a transmitted packet, or the receive handler of one 4 KiB buffer. *)
Inductive promise : Type :=
| promise_default
| promise_tx (p : packet)
| promise_rx (buf : Z).

(** ** class vring *)

Module vring.

Record config : Type := mk_config {
  size : Z;                     (* unsigned *)
  event_index : bool;
  indirect : bool;
  mergable_buffers : bool
}.

Record buffer : Type := mk_buffer {
  addr : Z;                     (* phys = uint64_t *)
  len : Z;                      (* uint32_t *)
  completed : promise;
  writeable : bool
}.

Definition buffer_chain : Type := list buffer.

Module desc.
Record flags : Type := mk_flags {
  has_next : bool;
  writeable : bool;
  indirect : bool
}.
Record t : Type := mk {
  _paddr : Z;                 (* phys *)
  _len : Z;                   (* uint32_t *)
  _flags : flags;
  _next : Z                   (* uint16_t *)
}.
Definition set_next (n : Z) (d : t) : t :=
  {| _paddr := _paddr d; _len := _len d; _flags := _flags d; _next := n |}.
End desc.

(** Guest to host; [used_event] is the 16-bit word after [_ring]. *)
Module avail_layout.
Record t : Type := mk {
  _flags : Z;
  _idx : Z;
  _ring : list Z;
  used_event : Z
}.
Definition set_flags (x : Z) (a : t) : t :=
  {| _flags := x; _idx := _idx a; _ring := _ring a; used_event := used_event a |}.
Definition set_idx (x : Z) (a : t) : t :=
  {| _flags := _flags a; _idx := x; _ring := _ring a; used_event := used_event a |}.
Definition set_ring (x : list Z) (a : t) : t :=
  {| _flags := _flags a; _idx := _idx a; _ring := x; used_event := used_event a |}.
Definition set_used_event (x : Z) (a : t) : t :=
  {| _flags := _flags a; _idx := _idx a; _ring := _ring a; used_event := x |}.
End avail_layout.

Module used_elem.
Record t : Type := mk {
  _id : Z;                    (* uint32_t *)
  _len : Z                    (* uint32_t *)
}.
End used_elem.

(** Host to guest; [avail_event] is the 16-bit word after
    [_used_elements].  The driver only reads this region. *)
Module used_layout.
Definition no_notify : Z := 1.
Record t : Type := mk {
  _flags : Z;
  _idx : Z;
  _used_elements : list used_elem.t;
  avail_event : Z
}.
End used_layout.

(** The state of one vring.  [_kick] counts the [signal(1)] calls made
    on the kick eventfd; [set_values] records, oldest first, each
    [set_value(len)] made on a completion promise. *)
Record t : Type := mk {
  _config : config;
  _kick : Z;
  _completions : list promise;
  _descs : list desc.t;
  _avail_shared : avail_layout.t;
  _avail_head : Z;                      (* uint16_t *)
  _avail_added_since_kick : Z;          (* uint16_t *)
  _used_shared : used_layout.t;
  _used_tail : Z;                       (* uint16_t *)
  _available_descriptors : Z;           (* semaphore count *)
  _free_desc : Z;                       (* int *)
  set_values : list (promise * Z)
}.

Definition set_kick (x : Z) (r : t) : t :=
  mk (_config r) x (_completions r) (_descs r) (_avail_shared r) (_avail_head r)
     (_avail_added_since_kick r) (_used_shared r) (_used_tail r)
     (_available_descriptors r) (_free_desc r) (set_values r).
Definition set_completions (x : list promise) (r : t) : t :=
  mk (_config r) (_kick r) x (_descs r) (_avail_shared r) (_avail_head r)
     (_avail_added_since_kick r) (_used_shared r) (_used_tail r)
     (_available_descriptors r) (_free_desc r) (set_values r).
Definition set_descs (x : list desc.t) (r : t) : t :=
  mk (_config r) (_kick r) (_completions r) x (_avail_shared r) (_avail_head r)
     (_avail_added_since_kick r) (_used_shared r) (_used_tail r)
     (_available_descriptors r) (_free_desc r) (set_values r).
Definition set_avail_shared (x : avail_layout.t) (r : t) : t :=
  mk (_config r) (_kick r) (_completions r) (_descs r) x (_avail_head r)
     (_avail_added_since_kick r) (_used_shared r) (_used_tail r)
     (_available_descriptors r) (_free_desc r) (set_values r).
Definition set_avail_head (x : Z) (r : t) : t :=
  mk (_config r) (_kick r) (_completions r) (_descs r) (_avail_shared r) x
     (_avail_added_since_kick r) (_used_shared r) (_used_tail r)
     (_available_descriptors r) (_free_desc r) (set_values r).
Definition set_avail_added_since_kick (x : Z) (r : t) : t :=
  mk (_config r) (_kick r) (_completions r) (_descs r) (_avail_shared r)
     (_avail_head r) x (_used_shared r) (_used_tail r)
     (_available_descriptors r) (_free_desc r) (set_values r).
Definition set_used_shared (x : used_layout.t) (r : t) : t :=
  mk (_config r) (_kick r) (_completions r) (_descs r) (_avail_shared r)
     (_avail_head r) (_avail_added_since_kick r) x (_used_tail r)
     (_available_descriptors r) (_free_desc r) (set_values r).
Definition set_used_tail (x : Z) (r : t) : t :=
  mk (_config r) (_kick r) (_completions r) (_descs r) (_avail_shared r)
     (_avail_head r) (_avail_added_since_kick r) (_used_shared r) x
     (_available_descriptors r) (_free_desc r) (set_values r).
Definition set_available_descriptors (x : Z) (r : t) : t :=
  mk (_config r) (_kick r) (_completions r) (_descs r) (_avail_shared r)
     (_avail_head r) (_avail_added_since_kick r) (_used_shared r) (_used_tail r)
     x (_free_desc r) (set_values r).
Definition set_free_desc (x : Z) (r : t) : t :=
  mk (_config r) (_kick r) (_completions r) (_descs r) (_avail_shared r)
     (_avail_head r) (_avail_added_since_kick r) (_used_shared r) (_used_tail r)
     (_available_descriptors r) x (set_values r).
Definition set_set_values (x : list (promise * Z)) (r : t) : t :=
  mk (_config r) (_kick r) (_completions r) (_descs r) (_avail_shared r)
     (_avail_head r) (_avail_added_since_kick r) (_used_shared r) (_used_tail r)
     (_available_descriptors r) (_free_desc r) x.

(** [VRING_AVAIL_F_NO_INTERRUPT] and [VRING_USED_F_NO_NOTIFY] come from
    virtio-interface.hh; both are bit 0, as the [no_notify] enumerator of
    [used_layout] repeats. *)
Definition VRING_AVAIL_F_NO_INTERRUPT : Z := 1.
Definition VRING_USED_F_NO_NOTIFY : Z := 1.

(** [int size()], [size_t mask()], [size_t masked(size_t idx)]. *)
Definition mask (r : t) : Z := u64 (size (_config r) - 1).
Definition masked (r : t) (idx : Z) : Z := Z.land idx (mask r).

Definition disable_interrupts (r : t) : t :=
  if event_index (_config r) then r
  else set_avail_shared
         (avail_layout.set_flags VRING_AVAIL_F_NO_INTERRUPT (_avail_shared r)) r.

(** Returns [true] if there are pending buffers in the queue. *)
Definition enable_interrupts (r : t) : bool * t :=
  let tail := _used_tail r in
  let r' :=
    if event_index (_config r)
    then set_avail_shared (avail_layout.set_used_event tail (_avail_shared r)) r
    else set_avail_shared (avail_layout.set_flags 0 (_avail_shared r)) r in
  let used_head := used_layout._idx (_used_shared r') in
  (negb (used_head =? tail), r').

Definition notifications_disabled (r : t) : bool :=
  negb (Z.land (used_layout._flags (_used_shared r)) VRING_USED_F_NO_NOTIFY =? 0).

(** [_kick.signal(1); _avail._avail_added_since_kick = 0;] *)
Definition do_kick (r : t) : t :=
  set_avail_added_since_kick 0 (set_kick (_kick r + 1) r).

Definition kick (r : t) : t :=
  if event_index (_config r) then
    let avail_idx := avail_layout._idx (_avail_shared r) in
    let avail_event := used_layout.avail_event (_used_shared r) in
    let need_kick :=
      u16 (avail_idx - avail_event - 1) <? _avail_added_since_kick r in
    if need_kick || (u16 (Z.lnot 0) / 2 <=? _avail_added_since_kick r)
    then do_kick r else r
  else if notifications_disabled r then r
  else
    (* need_kick is still true here *)
    do_kick r.

Definition allocate_desc (r : t) : outcome (Z * t) :=
  if decide (_free_desc r = -1) then Abort
  else
    let desc := _free_desc r in
    d ← at_index (_descs r) desc;
    Ret (desc, set_free_desc (desc._next d) r).

Definition free_desc (id : Z) (r : t) : outcome t :=
  d ← at_index (_descs r) id;
  descs ← store (_descs r) id (desc.set_next (u16 (_free_desc r)) d);
  Ret (set_available_descriptors (_available_descriptors r + 1)
         (set_free_desc id (set_descs descs r))).

(** [for (unsigned i = 0; i < _config.size; ++i) free_desc(i);] *)
Definition setup (r : t) : outcome t :=
  for_each free_desc (seqZ 0 (size (_config r))) r.

(** The constructor: the three shared regions hold whatever the storage
    held; the semaphore starts at 0 and the free list at -1. *)
Definition new (conf : config) (completions : list promise)
    (descs : list desc.t) (avail : avail_layout.t) (used : used_layout.t)
  : outcome t :=
  setup (mk conf 0 completions descs avail 0 0 used 0 0 (-1) []).

(** The body of the reverse loop of [post] over one chain, from the
    buffer the reverse iterator points at. *)
Fixpoint post_buffers (rbc : list buffer) (has_prev : bool) (prev_desc_idx : Z)
    (r : t) : outcome (Z * t) :=
  match rbc with
  | [] => Ret (prev_desc_idx, r)
  | i :: rest =>
      '(desc_idx, r1) ← allocate_desc r;
      let d := desc.mk (addr i) (len i)
                 (desc.mk_flags has_prev (writeable i) false)
                 (u16 prev_desc_idx) in
      descs ← store (_descs r1) desc_idx d;
      completions ← store (_completions r1) desc_idx (completed i);
      post_buffers rest true desc_idx
        (set_completions completions (set_descs descs r1))
  end.

(** The lambda [post] applies to each chain. *)
Definition post_chain (bc : buffer_chain) (r : t) : outcome t :=
  '(desc_head, r1) ← post_buffers (reverse bc) false 0 r;
  ring ← store (avail_layout._ring (_avail_shared r1))
               (masked r1 (_avail_head r1)) (u16 desc_head);
  Ret (set_avail_added_since_kick (u16 (_avail_added_since_kick r1 + 1))
         (set_avail_head (u16 (_avail_head r1 + 1))
            (set_avail_shared (avail_layout.set_ring ring (_avail_shared r1)) r1))).

(** The inner [while (has_next)] loop of [do_complete]. *)
Fixpoint free_chain (fuel : nat) (id : Z) (r : t) : outcome t :=
  match fuel with
  | O => OutOfFuel
  | S fuel' =>
      d ← at_index (_descs r) id;
      let next := desc._next d in
      let has_next := desc.has_next (desc._flags d) in
      r1 ← free_desc id r;
      if has_next then free_chain fuel' next r1 else Ret r1
  end.

(** One iteration of [while (used_head != _used._tail)]. *)
Definition complete_one (fuel : nat) (r : t) : outcome t :=
  ue ← at_index (used_layout._used_elements (_used_shared r))
                (masked r (_used_tail r));
  let r1 := set_used_tail (u16 (_used_tail r + 1)) r in
  p ← at_index (_completions r1) (used_elem._id ue);
  let r2 := set_set_values (set_values r1 ++ [(p, used_elem._len ue)]) r1 in
  free_chain fuel (used_elem._id ue) r2.

Fixpoint drain (n fuel : nat) (used_head : Z) (r : t) : outcome t :=
  if used_head =? _used_tail r then Ret r
  else match n with
       | O => OutOfFuel
       | S n' => r1 ← complete_one fuel r; drain n' fuel used_head r1
       end.

(** [do { ... } while (enable_interrupts());]  [n] bounds the passes, and
    [fuel] bounds both the elements drained in a pass and the length of
    the walk of one chain. *)
Fixpoint do_complete_loop (n fuel : nat) (r : t) : outcome t :=
  match n with
  | O => OutOfFuel
  | S n' =>
      let r1 := disable_interrupts r in
      let used_head := used_layout._idx (_used_shared r1) in
      r2 ← drain fuel fuel used_head r1;
      let '(pending, r3) := enable_interrupts r2 in
      if pending then do_complete_loop n' fuel r3 else Ret r3
  end.

Definition do_complete (fuel : nat) (r : t) : outcome t :=
  do_complete_loop fuel fuel r.

Definition post (fuel : nat) (chains : list buffer_chain) (r : t) : outcome t :=
  r1 ← for_each post_chain chains r;
  let r2 := set_avail_shared
              (avail_layout.set_idx (_avail_head r1) (_avail_shared r1)) r1 in
  do_complete fuel (kick r2).

End vring.

(** The descriptor semaphore (core/semaphore.hh), as far as the driver
    uses it: [wait(nr)] resumes the caller once [nr] permits are taken,
    [try_wait(nr)] takes them only if they are there. *)
Inductive waited (A : Type) : Type :=
| Suspended
| Resumed (a : A).
Arguments Suspended {A}.
Arguments Resumed {A} a.

Module semaphore.
Definition current (r : vring.t) : Z := vring._available_descriptors r.
Definition try_wait (nr : Z) (r : vring.t) : option vring.t :=
  if decide (nr <= current r)
  then Some (vring.set_available_descriptors (current r - nr) r)
  else None.
Definition wait {A : Type} (nr : Z) (r : vring.t) (k : vring.t -> A)
  : waited A :=
  match try_wait nr r with
  | Some r' => Resumed (k r')
  | None => Suspended
  end.
End semaphore.

(** ** class virtio_net_device *)

Module virtio_net_device.

Module net_hdr.
Definition gso_none : Z := 0.
Definition gso_tcpv4 : Z := 1.
Definition gso_udp : Z := 3.
Definition gso_tcpv6 : Z := 4.
Definition gso_ecn : Z := 128.
End net_hdr.

(** [net_hdr_mrg]: [net_hdr] followed by [num_buffers]. *)
Record net_hdr_mrg : Type := mk_net_hdr_mrg {
  needs_csum : Z;               (* uint8_t : 1 *)
  flags_reserved : Z;           (* uint8_t : 7 *)
  gso_type : Z;                 (* uint8_t *)
  hdr_len : Z;                  (* uint16_t *)
  gso_size : Z;                 (* uint16_t *)
  csum_start : Z;               (* uint16_t *)
  csum_offset : Z;              (* uint16_t *)
  num_buffers : Z               (* uint16_t *)
}.

(** [net_hdr_mrg vhdr = {};] *)
Definition vhdr_zero : net_hdr_mrg := mk_net_hdr_mrg 0 0 0 0 0 0 0 0.

(** Modelled from the spec: [sizeof(eth_hdr)], declared in net/net.hh.
    Scenario 2 of the spec (csum_start = 34 with a 20-byte IP header)
    fixes it at the 14 bytes of an Ethernet header. *)
Definition eth_hdr_len : Z := 14.

(** The header [txq::post] builds for a packet of length [plen] with
    offload metadata [oi]. *)
Definition txq_post_vhdr (hw : hw_features) (oi : offload_info) (plen : Z)
  : net_hdr_mrg :=
  let vhdr := vhdr_zero in
  if tx_csum_offload hw then
    let ip_hdr_len := ip_hdr_len oi in
    let mtu := mtu hw in
    if decide (protocol oi = ip_protocol_num.tcp) then
      let tcp_hdr_len := tcp_hdr_len oi in
      if tx_tso hw && (mtu + eth_hdr_len <? plen) then
        mk_net_hdr_mrg 1 0 net_hdr.gso_tcpv4
          (u16 (eth_hdr_len + ip_hdr_len + tcp_hdr_len))
          (u16 (mtu - ip_hdr_len - tcp_hdr_len))
          (u16 (eth_hdr_len + ip_hdr_len)) 16 0
      else
        mk_net_hdr_mrg 1 0 0 0 0 (u16 (eth_hdr_len + ip_hdr_len)) 16 0
    else if decide (protocol oi = ip_protocol_num.udp) then
      let udp_hdr_len := udp_hdr_len oi in
      if tx_ufo hw && (mtu + eth_hdr_len <? plen) then
        mk_net_hdr_mrg 1 0 net_hdr.gso_udp
          (u16 (eth_hdr_len + ip_hdr_len + udp_hdr_len))
          (u16 (mtu - ip_hdr_len - udp_hdr_len))
          (u16 (eth_hdr_len + ip_hdr_len)) 6 0
      else
        mk_net_hdr_mrg 1 0 0 0 0 (u16 (eth_hdr_len + ip_hdr_len)) 6 0
    else vhdr
  else vhdr.

(** The part of the device [txq] and [rxq] read. *)
Record dev : Type := mk_dev {
  _header_len : Z;              (* size_t *)
  _hw_features : hw_features
}.

(** [virt_to_phys] is the identity on addresses. *)
Definition virt_to_phys (p : Z) : Z := p.

(** The chain [txq::post] builds from the fragments of the packet with
    its header in front; the head buffer's promise keeps the packet
    alive until the host has returned the chain. *)
Definition txq_chain (q : packet) : vring.buffer_chain :=
  match fragments q with
  | [] => []
  | f :: fs =>
      vring.mk_buffer (virt_to_phys (base f)) (u32 (size f)) (promise_tx q) false
      :: map (fun f => vring.mk_buffer (virt_to_phys (base f)) (u32 (size f))
                         promise_default false) fs
  end.

(** [txq::post]; [vhdr_addr] is where the header lives.  The result is
    the header written there and what becomes of the post. *)
Definition txq_post (fuel : nat) (d : dev) (vhdr_addr : Z) (p : packet)
    (r : vring.t) : net_hdr_mrg * waited (outcome vring.t) :=
  let vhdr := txq_post_vhdr (_hw_features d) (offload p) (packet_len p) in
  let q := packet_prepend (mk_fragment vhdr_addr (_header_len d)) p in
  let nr_frags := nr_frags q in
  (vhdr,
   semaphore.wait nr_frags r (fun r' => vring.post fuel [txq_chain q] r')).

(** The receive queue and the delivery chain [_rx_ready] of the device:
    the packets handed to [queue_rx_packet], oldest first. *)
Record rxq : Type := mk_rxq {
  _remaining_buffers : Z;       (* unsigned *)
  _fragments : list fragment;
  _deleters : list Z;
  _rx_ready : list packet
}.

Definition no_offload : offload_info :=
  mk_offload_info ip_protocol_num.unused 0 0 0.

(** The continuation [prepare_buffers] attaches to the promise of the
    buffer [buf]: [num_buffers] is what the header at the start of the
    buffer holds when the completion runs, [len] the completed length. *)
Definition rx_completed (d : dev) (num_buffers : Z) (buf : Z) (len : Z)
    (q : rxq) : outcome rxq :=
  let frag_buf := buf in
  let frag_len := len in
  '(frag_buf, frag_len, q1) ←
    (if _remaining_buffers q =? 0 then
       if decide (1 <= num_buffers) then
         Ret (frag_buf + _header_len d, u64 (frag_len - _header_len d),
              mk_rxq num_buffers [] [] (_rx_ready q))
       else Abort
     else Ret (frag_buf, frag_len, q));
  let q2 := mk_rxq (u32 (_remaining_buffers q1 - 1))
              (_fragments q1 ++ [mk_fragment frag_buf frag_len])
              (_deleters q1 ++ [buf]) (_rx_ready q1) in
  if _remaining_buffers q2 =? 0 then
    let p := mk_packet (_fragments q2) no_offload (_deleters q2) in
    Ret (mk_rxq (_remaining_buffers q2) (_fragments q2) []
           (_rx_ready q2 ++ [p]))
  else Ret q2.

(** One completed receive buffer, as the host hands it back. *)
Record rx_buffer : Type := mk_rx_buffer {
  rx_buf : Z;
  rx_num_buffers : Z;           (* uint16_t at the header's offset *)
  rx_len : Z                    (* size_t *)
}.

(** The completions of a run of buffers, in completion order. *)
Fixpoint rx_run (d : dev) (bs : list rx_buffer) (q : rxq) : outcome rxq :=
  match bs with
  | [] => Ret q
  | b :: bs' =>
      q' ← rx_completed d (rx_num_buffers b) (rx_buf b) (rx_len b) q;
      rx_run d bs' q'
  end.

(** [rxq::prepare_buffers]: one fresh 4 KiB buffer per permit taken;
    [alloc k] is the address of the k-th buffer allocated. *)
Definition make_buffer_chain (buf : Z) : vring.buffer_chain :=
  [vring.mk_buffer (virt_to_phys buf) 4096 (promise_rx buf) true].

Definition prepare_buffers (fuel : nat) (alloc : nat -> Z) (r : vring.t)
  : waited (outcome vring.t) :=
  semaphore.wait 1 r (fun r1 =>
    let opportunistic := semaphore.current r1 in
    let '(count, r2) :=
      match semaphore.try_wait opportunistic r1 with
      | Some r2 => (u32 (1 + opportunistic), r2)
      | None => (1, r1)
      end in
    vring.post fuel
      (map (fun k => make_buffer_chain (alloc k)) (seq 0 (Z.to_nat count))) r2).

(** The options map ([boost::program_options::variables_map]). *)
Inductive variable_value : Type :=
| as_string (s : string)
| as_unsigned (n : Z).

Inductive or_throws (A : Type) : Type :=
| Returns (a : A)
| bad_any_cast.
Arguments Returns {A} a.
Arguments bad_any_cast {A}.

(** [_opts[name].as<unsigned>()] *)
Definition opt_as_unsigned (opts : gmap string variable_value) (name : string)
  : or_throws Z :=
  match opts !! name with
  | Some (as_unsigned n) => Returns n
  | _ => bad_any_cast
  end.

Definition ring_size (opts : gmap string variable_value) : or_throws Z :=
  if decide (is_Some (opts !! "event-index"))
  then opt_as_unsigned opts "virtio-ring-size"
  else Returns 256.

Global Instance or_throws_ret : MRet or_throws := fun A a => Returns a.
Global Instance or_throws_bind : MBind or_throws := fun A B f m =>
  match m with
  | Returns a => f a
  | bad_any_cast => bad_any_cast
  end.

(** The feature bits the driver names.  Their values are declared in
    net/virtio.hh, outside this file, so the model takes them as a
    parameter. *)
Record feature_bits : Type := mk_feature_bits {
  VIRTIO_RING_F_INDIRECT_DESC : Z;
  VIRTIO_RING_F_EVENT_IDX : Z;
  VIRTIO_NET_F_MRG_RXBUF : Z;
  VIRTIO_NET_F_CSUM : Z;
  VIRTIO_NET_F_GUEST_CSUM : Z;
  VIRTIO_NET_F_HOST_TSO4 : Z;
  VIRTIO_NET_F_GUEST_TSO4 : Z;
  VIRTIO_NET_F_HOST_UFO : Z;
  VIRTIO_NET_F_GUEST_UFO : Z
}.

(** [sizeof(net_hdr)]: two bytes and four 16-bit fields;
    [sizeof(net_hdr_mrg)]: one more 16-bit field. *)
Definition sizeof_net_hdr : Z := 1 + 1 + 2 + 2 + 2 + 2.
Definition sizeof_net_hdr_mrg : Z := sizeof_net_hdr + 2.

(** [_opts.count(name) && _opts[name].as<std::string>() == "off"] *)
Definition opt_is_off (opts : gmap string variable_value) (name : string)
  : or_throws bool :=
  match opts !! name with
  | None => Returns false
  | Some (as_string s) => Returns (bool_decide (s = "off"))
  | Some (as_unsigned _) => bad_any_cast
  end.

(** [setup_features]: [hw0] is [_hw_features] before the call and
    [vhost_features] what VHOST_GET_FEATURES reports.  The result is the
    value returned (which the constructor stores in [_features]), the
    value passed to VHOST_SET_FEATURES, and [_header_len] and
    [_hw_features] after the call. *)
Definition setup_features (bits : feature_bits)
    (opts : gmap string variable_value) (hw0 : hw_features) (vhost_features : Z)
  : or_throws (Z * Z * dev) :=
  let f0 := Z.lor (VIRTIO_RING_F_INDIRECT_DESC bits) (VIRTIO_NET_F_MRG_RXBUF bits) in
  event_index_off ← opt_is_off opts "event-index";
  let f1 := if negb event_index_off
            then Z.lor f0 (VIRTIO_RING_F_EVENT_IDX bits) else f0 in
  csum_off ← opt_is_off opts "csum-offload";
  let f2 := if negb csum_off
            then Z.lor f1 (Z.lor (VIRTIO_NET_F_CSUM bits) (VIRTIO_NET_F_GUEST_CSUM bits))
            else f1 in
  tso_off ← opt_is_off opts "tso";
  let f3 := if negb tso_off
            then Z.lor (Z.lor f2 (VIRTIO_NET_F_HOST_TSO4 bits))
                       (VIRTIO_NET_F_GUEST_TSO4 bits)
            else f2 in
  ufo_off ← opt_is_off opts "ufo";
  let f4 := if negb ufo_off
            then Z.lor (Z.lor f3 (VIRTIO_NET_F_HOST_UFO bits))
                       (VIRTIO_NET_F_GUEST_UFO bits)
            else f3 in
  let hw := mk_hw_features (negb csum_off) (negb csum_off) (negb tso_off)
              (negb ufo_off) (mtu hw0) in
  let vhost_supported_features := Z.land vhost_features f4 in
  let header_len :=
    if negb (Z.land vhost_supported_features (VIRTIO_NET_F_MRG_RXBUF bits) =? 0)
    then sizeof_net_hdr_mrg else sizeof_net_hdr in
  mret (u64 f4, vhost_supported_features, mk_dev header_len hw).

(** The constants of linux/if.h and linux/if_tun.h that
    [setup_tap_device] names, a parameter of the model. *)
Record tun_consts : Type := mk_tun_consts {
  IFNAMSIZ : Z;
  TUN_F_CSUM : Z;
  TUN_F_TSO4 : Z;
  TUN_F_UFO : Z
}.

(** [setup_tap_device]: the arguments of the TUNSETOFFLOAD and
    TUNSETVNETHDRSZ ioctls. *)
Definition setup_tap_device (tun : tun_consts) (tap_device : string) (d : dev)
  : outcome (Z * Z) :=
  if decide (u64 (Z.of_nat (String.length tap_device) + 1) <= IFNAMSIZ tun) then
    let hw := _hw_features d in
    let offload :=
      if tx_csum_offload hw && rx_csum_offload hw then
        let o1 := u32 (TUN_F_CSUM tun) in
        let o2 := if tx_tso hw then u32 (Z.lor o1 (TUN_F_TSO4 tun)) else o1 in
        if tx_ufo hw then u32 (Z.lor o2 (TUN_F_UFO tun)) else o2
      else 0 in
    Ret (offload, _header_len d)
  else Abort.

(** Modelled from the spec: [align_up] of core/align.hh.  The spec (6,
    Memory layout) has [used] "aligned up to 4 KiB": the least multiple
    of [align] that is not below [v]. *)
Definition align_up (v align : Z) : Z := (v + align - 1) / align * align.

(** The three pointers of [vring::config]. *)
Module layout.
Record t : Type := mk {
  descs : Z;                    (* char* *)
  avail : Z;                    (* char* *)
  used : Z                      (* char* *)
}.
End layout.

(** [common_config] on a config whose [descs] and [mergable_buffers] the
    caller has set; [ring_size] is what [ring_size()] returned. *)
Definition common_config (bits : feature_bits) (_features : Z) (ring_size : Z)
    (r_descs : Z) (mergable_buffers : bool) : vring.config * layout.t :=
  let size := u32 ring_size in
  let avail := u64 (r_descs + u32 (16 * size)) in
  let used := align_up (u64 (u64 (avail + u32 (2 * size)) + 6)) 4096 in
  let event_index :=
    negb (Z.land _features (VIRTIO_RING_F_EVENT_IDX bits) =? 0) in
  (vring.mk_config size event_index false mergable_buffers,
   layout.mk r_descs avail used).

Definition txq_config (bits : feature_bits) (opts : gmap string variable_value)
    (_features : Z) (_txq_storage : Z) : or_throws (vring.config * layout.t) :=
  n ← ring_size opts;
  mret (common_config bits _features n _txq_storage false).

Definition rxq_config (bits : feature_bits) (opts : gmap string variable_value)
    (_features : Z) (_rxq_storage : Z) : or_throws (vring.config * layout.t) :=
  n ← ring_size opts;
  mret (common_config bits _features n _rxq_storage true).

Definition vring_storage_size (opts : gmap string variable_value) : or_throws Z :=
  n ← ring_size opts;
  mret (u64 (3 * 4096 + u64 (n * (16 + 2 + 8)))).

(** The bytes of the three areas of a ring of [n] descriptors:
    [desc] is 8 + 4 + 2 + 2 bytes; [avail_layout] is two 16-bit fields,
    the ring of 16-bit entries and [used_event]; [used_layout] is two
    16-bit fields, the ring of [used_elem] (4 + 4 bytes) and
    [avail_event]. *)
Definition descs_bytes (n : Z) : Z := (8 + 4 + 2 + 2) * n.
Definition avail_bytes (n : Z) : Z := 2 + 2 + 2 * n + 2.
Definition used_bytes (n : Z) : Z := 2 + 2 + (4 + 4) * n + 2.

End virtio_net_device.

(** * Specification-level definitions *)

(** A 16-bit header field assigned the value of the expression [x]: it
    holds [x] modulo 2^16, which is [x] itself whenever [x] fits. *)
Definition holds16 (field x : Z) : Prop :=
  field = u16 x /\ (0 <= x < 2 ^ 16 -> field = x).

(** A ring that [kick] can be run on: only the fields [kick] reads
    matter, the arrays are left empty. *)
Definition ring_at (event_index : bool) (avail_idx avail_event used_flags added : Z)
  : vring.t :=
  vring.mk (vring.mk_config 256 event_index false false) 0 [] []
    (vring.avail_layout.mk 0 avail_idx [] 0) avail_idx added
    (vring.used_layout.mk used_flags 0 [] avail_event) 0 0 (-1) [].

(** The header [txq::post] prepends to the packet [p]: it depends
    neither on the ring nor on where the header is stored. *)
Definition txq_post_header (d : virtio_net_device.dev) (p : packet)
  : virtio_net_device.net_hdr_mrg :=
  fst (virtio_net_device.txq_post 0 d 0 p (ring_at true 0 0 0 0)).

(** Scenarios 2 and 3 of the spec. *)
Definition hw_all_on : hw_features := mk_hw_features true true true true 1500.
Definition tcp_5000 : packet :=
  mk_packet [mk_fragment 4096 5000]
    (mk_offload_info ip_protocol_num.tcp 20 20 8) [].
Definition udp_3000 : packet :=
  mk_packet [mk_fragment 4096 3000]
    (mk_offload_info ip_protocol_num.udp 20 20 8) [].

(** The packet the receive handler builds from the buffers of one
    mergeable-rxbuf frame, given in completion order: the first fragment
    skips the header, the others are whole buffers, and the release hook
    holds every buffer. *)
Definition rx_fragment_first (d : virtio_net_device.dev)
    (b : virtio_net_device.rx_buffer) : fragment :=
  mk_fragment (virtio_net_device.rx_buf b + virtio_net_device._header_len d)
    (u64 (virtio_net_device.rx_len b - virtio_net_device._header_len d)).

Definition rx_fragment_next (b : virtio_net_device.rx_buffer) : fragment :=
  mk_fragment (virtio_net_device.rx_buf b) (virtio_net_device.rx_len b).

Definition rx_packet (d : virtio_net_device.dev)
    (bs : list virtio_net_device.rx_buffer) : packet :=
  match bs with
  | [] => mk_packet [] virtio_net_device.no_offload []
  | b :: rest =>
      mk_packet (rx_fragment_first d b :: map rx_fragment_next rest)
        virtio_net_device.no_offload (map virtio_net_device.rx_buf bs)
  end.

(** The buffers of one frame as an honest host completes them: the
    header of the first announces how many there are. *)
Definition rx_frame (bs : list virtio_net_device.rx_buffer) : Prop :=
  match bs with
  | [] => False
  | b :: _ =>
      virtio_net_device.rx_num_buffers b = Z.of_nat (length bs) /\
      Z.of_nat (length bs) < 2 ^ 16
  end.

(** Scenario 4 of the spec, with the 12-byte mergeable header. *)
Definition dev_mrg : virtio_net_device.dev :=
  virtio_net_device.mk_dev 12 hw_all_on.
Definition rxq_idle : virtio_net_device.rxq :=
  virtio_net_device.mk_rxq 0 [] [] [].
Definition three_buffers : list virtio_net_device.rx_buffer :=
  [virtio_net_device.mk_rx_buffer 4096 3 4096;
   virtio_net_device.mk_rx_buffer 8192 0 4096;
   virtio_net_device.mk_rx_buffer 12288 0 200].

(** ** The descriptor pool

    The free list is threaded through [_next] from [_free_desc]; its end
    is the initial -1 of [_free_desc] or the 65535 that -1 becomes once
    [free_desc] has stored it in a 16-bit [_next]. *)
Fixpoint free_list (ds : list vring.desc.t) (f : Z) (l : list Z) : Prop :=
  match l with
  | [] => f = -1 \/ f = 65535
  | i :: l' =>
      f = i /\
      exists d, at_index ds i = Ret d /\ free_list ds (vring.desc._next d) l'
  end.

(** The free list as the code would walk it, at most [fuel] links. *)
Fixpoint free_walk (fuel : nat) (ds : list vring.desc.t) (f : Z) : list Z :=
  match fuel with
  | O => []
  | S fuel' =>
      match at_index ds f with
      | Ret d => f :: free_walk fuel' ds (vring.desc._next d)
      | _ => []
      end
  end.

Definition free_descs (r : vring.t) : list Z :=
  free_walk (length (vring._descs r)) (vring._descs r) (vring._free_desc r).

Definition free_count (r : vring.t) : Z := Z.of_nat (length (free_descs r)).

(** A chain: the descriptors [c], from the head [h], linked through
    [_next] with [has_next] set on all but the last. *)
Fixpoint chain (ds : list vring.desc.t) (h : Z) (c : list Z) : Prop :=
  match c with
  | [] => False
  | i :: c' =>
      h = i /\
      exists d, at_index ds i = Ret d /\
        match c' with
        | [] => vring.desc.has_next (vring.desc._flags d) = false
        | _ :: _ =>
            vring.desc.has_next (vring.desc._flags d) = true /\
            chain ds (vring.desc._next d) c'
        end
  end.

Definition is_nil {A : Type} (l : list A) : bool :=
  match l with [] => true | _ :: _ => false end.

(** The descriptor [post] writes for the buffer [b] of a chain:
    [last] tells whether [b] is the chain's last buffer, [next] is the
    index of the descriptor of the following buffer (0 after the last). *)
Definition desc_of (b : vring.buffer) (last : bool) (next : Z) : vring.desc.t :=
  vring.desc.mk (vring.addr b) (vring.len b)
    (vring.desc.mk_flags (negb last) (vring.writeable b) false) next.

(** What [post] leaves in the descriptor table for the chain [bc] whose
    buffers got the descriptors [idx], first buffer first (used in the
    proofs; [chain_posted_lookup] reads it field by field). *)
Fixpoint chain_posted (ds : list vring.desc.t) (bc : list vring.buffer)
    (idx : list Z) : Prop :=
  match bc, idx with
  | [], [] => True
  | b :: bc', i :: idx' =>
      at_index ds i = Ret (desc_of b (is_nil bc') (hd 0 idx')) /\
      chain_posted ds bc' idx'
  | _, _ => False
  end.

(** The heads published in the available ring from the slot of [head]
    on, oldest first. *)
Fixpoint avail_between (ring : list Z) (msk : Z) (head : Z) (heads : list Z)
  : Prop :=
  match heads with
  | [] => True
  | h :: hs =>
      at_index ring (Z.land head msk) = Ret h /\
      avail_between ring msk (u16 (head + 1)) hs
  end.

(** The used elements the host has published and the driver has not
    consumed yet: from [tail] up to [head], oldest first. *)
Fixpoint used_between (us : vring.used_layout.t) (msk : Z) (tail head : Z)
    (ues : list vring.used_elem.t) : Prop :=
  match ues with
  | [] => tail = head
  | ue :: ues' =>
      tail <> head /\
      at_index (vring.used_layout._used_elements us) (Z.land tail msk) = Ret ue /\
      used_between us msk (u16 (tail + 1)) head ues'
  end.

(** The ring is well configured: its size is a power of two of at most
    2^15 and the arrays have that many entries. *)
Record ring_ok (r : vring.t) : Prop := mk_ring_ok {
  ok_size : exists k, 0 <= k <= 15 /\ vring.size (vring._config r) = 2 ^ k;
  ok_descs : Z.of_nat (length (vring._descs r)) = vring.size (vring._config r);
  ok_completions :
    Z.of_nat (length (vring._completions r)) = vring.size (vring._config r);
  ok_ring :
    Z.of_nat (length (vring.avail_layout._ring (vring._avail_shared r)))
      = vring.size (vring._config r);
  ok_head : 0 <= vring._avail_head r < 2 ^ 16;
  ok_tail : 0 <= vring._used_tail r < 2 ^ 16
}.

(** Descriptor accounting.  [free] is the free list, [held] the chains
    the host still holds and [returned] the chains it has handed back in
    the used ring and the driver has not reclaimed yet: together they
    hold every descriptor exactly once. *)
Record pool_inv (r : vring.t) (free : list Z) (held returned : list (list Z))
  : Prop := mk_pool_inv {
  inv_ok : ring_ok r;
  inv_free : free_list (vring._descs r) (vring._free_desc r) free;
  inv_chains :
    Forall (fun c => chain (vring._descs r) (hd 0 c) c) (held ++ returned);
  inv_nodup : NoDup (free ++ concat (held ++ returned));
  inv_all :
    Z.of_nat (length (free ++ concat (held ++ returned)))
      = vring.size (vring._config r);
  inv_used :
    exists ues,
      used_between (vring._used_shared r) (vring.mask r) (vring._used_tail r)
        (vring.used_layout._idx (vring._used_shared r)) ues /\
      map vring.used_elem._id ues = map (hd 0) returned
}.

Definition in_flight (held returned : list (list Z)) : Z :=
  Z.of_nat (length (concat (held ++ returned))).

(** The quiescent points of a ring: after construction, after a [post]
    of non-empty chains for which the permits were taken (the new chains
    are those whose heads the call has put in the available ring), after
    the host has returned a chain it held, after a [do_complete].  The
    calls are given at least [size] units of fuel, which is enough for
    them to return. *)
Inductive quiescent : vring.t -> list (list Z) -> list (list Z) -> Prop :=
| q_new conf completions descs avail used r :
    (exists k, 0 <= k <= 15 /\ vring.size conf = 2 ^ k) ->
    Z.of_nat (length descs) = vring.size conf ->
    Z.of_nat (length completions) = vring.size conf ->
    Z.of_nat (length (vring.avail_layout._ring avail)) = vring.size conf ->
    vring.used_layout._idx used = 0 ->
    vring.new conf completions descs avail used = Ret r ->
    quiescent r [] []
| q_post r held returned fuel chains r1 r' new_chains :
    quiescent r held returned ->
    vring.size (vring._config r) <= Z.of_nat fuel ->
    Forall (fun bc => bc <> []) chains ->
    semaphore.try_wait (Z.of_nat (length (concat chains))) r = Some r1 ->
    vring.post fuel chains r1 = Ret r' ->
    length new_chains = length chains ->
    avail_between (vring.avail_layout._ring (vring._avail_shared r'))
      (vring.mask r) (vring._avail_head r) (map (hd 0) new_chains) ->
    Forall (fun c => chain (vring._descs r') (hd 0 c) c) new_chains ->
    quiescent r' (held ++ new_chains) []
| q_host r held1 c held2 returned used' ues :
    quiescent r (held1 ++ c :: held2) returned ->
    used_between used' (vring.mask r) (vring._used_tail r)
      (vring.used_layout._idx used') ues ->
    map vring.used_elem._id ues = map (hd 0) (returned ++ [c]) ->
    quiescent (vring.set_used_shared used' r) (held1 ++ held2) (returned ++ [c])
| q_complete r held returned fuel r' :
    quiescent r held returned ->
    vring.size (vring._config r) <= Z.of_nat fuel ->
    vring.do_complete fuel r = Ret r' ->
    quiescent r' held [].

(** The slots of the available ring that [m] chains posted from [head]
    occupy. *)
Fixpoint avail_slots (msk : Z) (head : Z) (m : nat) : list Z :=
  match m with
  | O => []
  | S m' => Z.land head msk :: avail_slots msk (u16 (head + 1)) m'
  end.

(** ** A ring of four descriptors

    The ring as [new] leaves it, a two-buffer transmit chain (header and
    one payload fragment) posted on it, and what the host may write to
    its used ring: the chain handed back, an id outside the ring, and a
    descriptor table whose chain from descriptor 0 loops. *)
Definition desc_free (next : Z) : vring.desc.t :=
  vring.desc.mk 0 0 (vring.desc.mk_flags false false false) next.
Definition conf4 : vring.config := vring.mk_config 4 true false false.
Definition avail4 : vring.avail_layout.t :=
  vring.avail_layout.mk 0 0 [0; 0; 0; 0] 0.
Definition used4 : vring.used_layout.t :=
  vring.used_layout.mk 0 0 (replicate 4 (vring.used_elem.mk 0 0)) 0.
Definition used4_one (id len : Z) : vring.used_layout.t :=
  vring.used_layout.mk 0 1
    (vring.used_elem.mk id len :: replicate 3 (vring.used_elem.mk 0 0)) 0.

Definition ring4 : vring.t :=
  vring.mk conf4 0 (replicate 4 promise_default)
    [desc_free 65535; desc_free 0; desc_free 1; desc_free 2]
    avail4 0 0 used4 0 4 3 [].

Definition pkt64 : packet :=
  mk_packet [mk_fragment 1000 12; mk_fragment 2000 64]
    virtio_net_device.no_offload [].
Definition bc2 : vring.buffer_chain := virtio_net_device.txq_chain pkt64.

Definition ring4_posted : vring.t :=
  Eval vm_compute in
    match vring.post 4 [bc2] (vring.set_available_descriptors 2 ring4) with
    | Ret r => r
    | _ => ring4
    end.

(** The ring of four filled with four receive buffers. *)
Definition rx4 : list vring.buffer_chain :=
  map (fun k => virtio_net_device.make_buffer_chain (4096 * Z.of_nat k)) (seq 0 4).
Definition ring4_full : vring.t :=
  Eval vm_compute in
    match vring.post 4 rx4 (vring.set_available_descriptors 0 ring4) with
    | Ret r => r
    | _ => ring4
    end.

Definition ring4_returned : vring.t :=
  vring.set_used_shared (used4_one 2 76) ring4_posted.
Definition ring4_bad_id : vring.t :=
  vring.set_used_shared (used4_one 4 76) ring4_posted.
Definition ring4_cycle : vring.t :=
  vring.mk conf4 0 (replicate 4 promise_default)
    [vring.desc.mk 0 0 (vring.desc.mk_flags true false false) 1;
     vring.desc.mk 0 0 (vring.desc.mk_flags true false false) 0;
     desc_free 3; desc_free 65535]
    avail4 1 0 (used4_one 0 0) 0 2 2 [].

(** ** Views and frames used in the proofs *)

(** Two descriptor tables that agree outside the indices [X]. *)
Definition same_outside (X : list Z) (ds ds' : list vring.desc.t) : Prop :=
  length ds' = length ds /\
  forall i, i ∉ X -> at_index ds' i = at_index ds i.

(** What [pool_inv] reads of a ring. *)
Definition pool_view (r : vring.t) :=
  (vring._config r, vring._descs r, vring._free_desc r,
   length (vring._completions r),
   length (vring.avail_layout._ring (vring._avail_shared r)),
   vring._avail_head r, vring._used_tail r, vring._used_shared r).

(** What reclaiming leaves alone. *)
Definition kept_view (r : vring.t) :=
  (vring._config r, vring._kick r,
   vring.avail_layout._ring (vring._avail_shared r),
   vring._avail_head r, vring._avail_added_since_kick r, vring._used_shared r).

(** What posting leaves alone. *)
Definition posted_view (r : vring.t) :=
  (vring._config r, vring._kick r, vring._available_descriptors r,
   vring._used_shared r, vring._used_tail r, vring.set_values r).

(** Reads a 16-bit field through [holds16] at concrete operands. *)
Ltac field16 H :=
  rewrite H by (vm_compute; split; [discriminate | reflexivity]);
  vm_compute; reflexivity.

(** What freeing descriptors leaves alone: everything but the
    descriptor table, the free list and the semaphore. *)
Definition unfreed_view (r : vring.t) :=
  (vring._config r, vring._kick r, vring._completions r, vring._avail_shared r,
   vring._avail_head r, vring._avail_added_since_kick r, vring._used_shared r,
   vring._used_tail r, vring.set_values r).

(** What the drain of the used ring leaves alone. *)
Definition undrained_view (r : vring.t) :=
  (vring._config r, vring._kick r, vring._completions r, vring._avail_shared r,
   vring._avail_head r, vring._avail_added_since_kick r, vring._used_shared r).

(** The promises the used elements [ues] name, slot by slot. *)
Definition promises_of (cs : list promise) (ues : list vring.used_elem.t)
    (ps : list promise) : Prop :=
  Forall2 (fun ue p => at_index cs (vring.used_elem._id ue) = Ret p) ues ps.


(** The links of the descriptor table as 16-bit fields hold them: no
    [_next] is negative, and [_free_desc] is no longer the initial -1. *)
Definition links_ok (r : vring.t) : Prop :=
  0 <= vring._free_desc r /\
  Forall (fun d => 0 <= vring.desc._next d) (vring._descs r).

(** The four on/off options hold strings, as the options description
    declares them. *)
Definition string_opts (opts : gmap string virtio_net_device.variable_value)
  : Prop :=
  forall name n,
    name ∈ ["event-index"; "csum-offload"; "tso"; "ufo"] ->
    opts !! name <> Some (virtio_net_device.as_unsigned n).

(** The option [name] is set to "off". *)
Definition opt_off (opts : gmap string virtio_net_device.variable_value)
    (name : string) : Prop :=
  opts !! name = Some (virtio_net_device.as_string "off").

(** VIRTIO_RING_F_EVENT_IDX is a non-zero 64-bit value that shares no
    bit with the other features the driver names. *)
Definition event_idx_apart (bits : virtio_net_device.feature_bits) : Prop :=
  0 < virtio_net_device.VIRTIO_RING_F_EVENT_IDX bits < 2 ^ 64 /\
  Forall (fun b => Z.land b (virtio_net_device.VIRTIO_RING_F_EVENT_IDX bits) = 0)
    [virtio_net_device.VIRTIO_RING_F_INDIRECT_DESC bits;
     virtio_net_device.VIRTIO_NET_F_MRG_RXBUF bits;
     virtio_net_device.VIRTIO_NET_F_CSUM bits;
     virtio_net_device.VIRTIO_NET_F_GUEST_CSUM bits;
     virtio_net_device.VIRTIO_NET_F_HOST_TSO4 bits;
     virtio_net_device.VIRTIO_NET_F_GUEST_TSO4 bits;
     virtio_net_device.VIRTIO_NET_F_HOST_UFO bits;
     virtio_net_device.VIRTIO_NET_F_GUEST_UFO bits].

(** The bit positions the virtio specification gives the features. *)
Definition virtio_bits : virtio_net_device.feature_bits :=
  virtio_net_device.mk_feature_bits (2 ^ 28) (2 ^ 29) (2 ^ 15) (2 ^ 0) (2 ^ 1)
    (2 ^ 11) (2 ^ 7) (2 ^ 14) (2 ^ 10).

(** The values Linux gives the TAP constants. *)
Definition linux_tun : virtio_net_device.tun_consts :=
  virtio_net_device.mk_tun_consts 16 1 2 16.

(** Options as the command line leaves them by default, and with
    checksum offload switched off. *)
Definition opts_default : gmap string virtio_net_device.variable_value :=
  <["event-index" := virtio_net_device.as_string "on"]>
    (<["csum-offload" := virtio_net_device.as_string "on"]>
       (<["tso" := virtio_net_device.as_string "on"]>
          (<["ufo" := virtio_net_device.as_string "on"]>
             (<["virtio-ring-size" := virtio_net_device.as_unsigned 256]> ∅)))).
Definition opts_csum_off : gmap string virtio_net_device.variable_value :=
  <["csum-offload" := virtio_net_device.as_string "off"]> opts_default.
Definition opts_event_index_off : gmap string virtio_net_device.variable_value :=
  <["event-index" := virtio_net_device.as_string "off"]> opts_default.

(** The descriptors a batch of chains gets from the free list [free]:
    each chain takes as many as it has buffers from the top of what the
    chains before it left, its first buffer getting the last one taken. *)
Fixpoint assigned (free : list Z) (chains : list vring.buffer_chain)
  : list (list Z) :=
  match chains with
  | [] => []
  | bc :: chains' =>
      reverse (take (length bc) free)
      :: assigned (drop (length bc) free) chains'
  end.

(** [vring::interrupts_disabled] *)
Definition interrupts_disabled (r : vring.t) : bool :=
  negb (Z.land (vring.avail_layout._flags (vring._avail_shared r))
               vring.VRING_AVAIL_F_NO_INTERRUPT =? 0).

(** * Theorems *)

Import virtio_net_device.

Lemma u16_small x : 0 <= x < 2 ^ 16 -> u16 x = x.
Proof. intros H. unfold u16. apply Z.mod_small. exact H. Qed.

Lemma u32_small x : 0 <= x < 2 ^ 32 -> u32 x = x.
Proof. intros H. unfold u32. apply Z.mod_small. exact H. Qed.

Lemma u64_small x : 0 <= x < 2 ^ 64 -> u64 x = x.
Proof. intros H. unfold u64. apply Z.mod_small. exact H. Qed.

Lemma bind_Ret {A B : Type} (x : A) (f : A -> outcome B) : Ret x ≫= f = f x.
Proof. reflexivity. Qed.

Lemma holds16_u16 x : holds16 (u16 x) x.
Proof. split; [reflexivity | apply u16_small]. Qed.

Lemma txq_post_header_eq d p :
  txq_post_header d p
    = txq_post_vhdr (_hw_features d) (offload p) (packet_len p).
Proof. reflexivity. Qed.

Lemma txq_post_fst fuel d vhdr_addr p r :
  fst (txq_post fuel d vhdr_addr p r) = txq_post_header d p.
Proof. reflexivity. Qed.

Section TxHeader.
Variable d : dev.
Variable p : packet.
Let hw := _hw_features d.
Let oi := offload p.
Let h := txq_post_header d p.

Lemma vhdr_csum_off : tx_csum_offload hw = false -> h = vhdr_zero.
Proof.
  subst h hw. rewrite txq_post_header_eq; unfold txq_post_vhdr. intros ->. reflexivity.
Qed.

Lemma vhdr_tcp :
  tx_csum_offload hw = true -> protocol oi = ip_protocol_num.tcp ->
  needs_csum h = 1 /\ holds16 (csum_start h) (eth_hdr_len + ip_hdr_len oi) /\
  csum_offset h = 16.
Proof.
  subst h hw oi. rewrite txq_post_header_eq; unfold txq_post_vhdr. intros -> ->.
  rewrite decide_True by reflexivity.
  destruct (_ && _); simpl; auto using holds16_u16.
Qed.

Lemma vhdr_tso :
  tx_csum_offload hw = true -> protocol oi = ip_protocol_num.tcp ->
  tx_tso hw = true -> mtu hw + eth_hdr_len < packet_len p ->
  gso_type h = net_hdr.gso_tcpv4 /\
  holds16 (hdr_len h) (eth_hdr_len + ip_hdr_len oi + tcp_hdr_len oi) /\
  holds16 (gso_size h) (mtu hw - ip_hdr_len oi - tcp_hdr_len oi).
Proof.
  subst h hw oi. rewrite txq_post_header_eq; unfold txq_post_vhdr. intros -> -> -> Hlen.
  rewrite decide_True by reflexivity.
  apply Z.ltb_lt in Hlen. rewrite Hlen. simpl. auto using holds16_u16.
Qed.

Lemma vhdr_udp :
  tx_csum_offload hw = true -> protocol oi = ip_protocol_num.udp ->
  needs_csum h = 1 /\ holds16 (csum_start h) (eth_hdr_len + ip_hdr_len oi) /\
  csum_offset h = 6.
Proof.
  subst h hw oi. rewrite txq_post_header_eq; unfold txq_post_vhdr. intros -> ->.
  rewrite decide_False by discriminate. rewrite decide_True by reflexivity.
  destruct (_ && _); simpl; auto using holds16_u16.
Qed.

Lemma vhdr_ufo :
  tx_csum_offload hw = true -> protocol oi = ip_protocol_num.udp ->
  tx_ufo hw = true -> mtu hw + eth_hdr_len < packet_len p ->
  gso_type h = net_hdr.gso_udp /\
  holds16 (hdr_len h) (eth_hdr_len + ip_hdr_len oi + udp_hdr_len oi) /\
  holds16 (gso_size h) (mtu hw - ip_hdr_len oi - udp_hdr_len oi).
Proof.
  subst h hw oi. rewrite txq_post_header_eq; unfold txq_post_vhdr. intros -> -> -> Hlen.
  rewrite decide_False by discriminate. rewrite decide_True by reflexivity.
  apply Z.ltb_lt in Hlen. rewrite Hlen. simpl. auto using holds16_u16.
Qed.
End TxHeader.

(** C1.  The virtio-net header of every packet sent through [txq::post],
    whatever the state of the ring.  With tx_csum_offload on, a TCP packet gets needs_csum = 1,
    csum_start = eth_hdr_len + ip_hdr_len and csum_offset = 16, and when
    tx_tso is on and the packet is longer than mtu + eth_hdr_len also
    gso_type = tcpv4, hdr_len = eth_hdr_len + ip_hdr_len + tcp_hdr_len and
    gso_size = mtu - ip_hdr_len - tcp_hdr_len, which for mtu = 1500,
    ip = 20, tcp = 20 is csum_start = 34, hdr_len = 54, gso_size = 1460;
    a UDP packet gets the same with csum_offset = 6, gso_type = udp and
    the UDP header length under tx_ufo.  With tx_csum_offload off every
    field of the header is zero.  The 16-bit fields hold the named value
    as a 16-bit number ([holds16]): the value itself whenever it lies in
    [0, 2^16). *)
Theorem C1_txq_post_header (d : dev) (p : packet) :
  let hw := _hw_features d in
  let oi := offload p in
  let h := txq_post_header d p in
  (forall fuel vhdr_addr r, fst (txq_post fuel d vhdr_addr p r) = h) /\
  (tx_csum_offload hw = false -> h = vhdr_zero) /\
  (tx_csum_offload hw = true -> protocol oi = ip_protocol_num.tcp ->
     needs_csum h = 1 /\
     holds16 (csum_start h) (eth_hdr_len + ip_hdr_len oi) /\
     csum_offset h = 16 /\
     (tx_tso hw = true -> mtu hw + eth_hdr_len < packet_len p ->
        gso_type h = net_hdr.gso_tcpv4 /\
        holds16 (hdr_len h) (eth_hdr_len + ip_hdr_len oi + tcp_hdr_len oi) /\
        holds16 (gso_size h) (mtu hw - ip_hdr_len oi - tcp_hdr_len oi) /\
        (mtu hw = 1500 -> ip_hdr_len oi = 20 -> tcp_hdr_len oi = 20 ->
           csum_start h = 34 /\ hdr_len h = 54 /\ gso_size h = 1460))) /\
  (tx_csum_offload hw = true -> protocol oi = ip_protocol_num.udp ->
     needs_csum h = 1 /\
     holds16 (csum_start h) (eth_hdr_len + ip_hdr_len oi) /\
     csum_offset h = 6 /\
     (tx_ufo hw = true -> mtu hw + eth_hdr_len < packet_len p ->
        gso_type h = net_hdr.gso_udp /\
        holds16 (hdr_len h) (eth_hdr_len + ip_hdr_len oi + udp_hdr_len oi) /\
        holds16 (gso_size h) (mtu hw - ip_hdr_len oi - udp_hdr_len oi))).
Proof.
  intros hw oi h. split; [intros; apply txq_post_fst |].
  split; [apply vhdr_csum_off |]. split.
  - intros Hc Hp. destruct (vhdr_tcp d p Hc Hp) as (H1 & H2 & H3).
    split; [exact H1 |]. split; [exact H2 |]. split; [exact H3 |].
    intros Ht Hl. destruct (vhdr_tso d p Hc Hp Ht Hl) as (H4 & H5 & H6).
    split; [exact H4 |]. split; [exact H5 |]. split; [exact H6 |].
    intros Hm Hi Htc.
    destruct H2 as [H2 _], H5 as [H5 _], H6 as [H6 _].
    fold hw oi h in H2, H5, H6. rewrite H2, H5, H6, Hm, Hi, Htc.
    vm_compute. auto.
  - intros Hc Hp. destruct (vhdr_udp d p Hc Hp) as (H1 & H2 & H3).
    split; [exact H1 |]. split; [exact H2 |]. split; [exact H3 |].
    intros Ht Hl. exact (vhdr_ufo d p Hc Hp Ht Hl).
Qed.

(** The rows of C1 at concrete packets: the 5000-byte TCP frame and the
    3000-byte UDP frame of the spec's scenarios at mtu 1500, and the same
    TCP frame with checksum offload off. *)
Lemma C1_txq_post_header_witness :
  (let h := txq_post_header (mk_dev 10 hw_all_on) tcp_5000 in
   needs_csum h = 1 /\ csum_offset h = 16 /\ gso_type h = 1 /\
   csum_start h = 34 /\ hdr_len h = 54 /\ gso_size h = 1460) /\
  (let h := txq_post_header (mk_dev 10 hw_all_on) udp_3000 in
   needs_csum h = 1 /\ csum_start h = 34 /\ csum_offset h = 6 /\
   gso_type h = 3 /\ hdr_len h = 42 /\ gso_size h = 1472) /\
  txq_post_header (mk_dev 10 (mk_hw_features false false true true 1500)) tcp_5000
    = vhdr_zero.
Proof.
  split; [| split].
  - pose proof (C1_txq_post_header (mk_dev 10 hw_all_on) tcp_5000) as (_ & _ & H & _).
    destruct (H eq_refl eq_refl) as (H1 & _ & H3 & H4).
    destruct (H4 eq_refl eq_refl) as (H5 & _ & _ & H6).
    cbv zeta.
    split; [exact H1 |]. split; [exact H3 |]. split; [exact H5 |].
    exact (H6 eq_refl eq_refl eq_refl).
  - pose proof (C1_txq_post_header (mk_dev 10 hw_all_on) udp_3000) as (_ & _ & _ & H).
    destruct (H eq_refl eq_refl) as (H1 & (_ & H2) & H3 & H4).
    destruct (H4 eq_refl eq_refl) as (H5 & (_ & H6) & (_ & H7)).
    cbv zeta.
    split; [exact H1 |]. split; [field16 H2 |].
    split; [exact H3 |]. split; [exact H5 |].
    split; [field16 H6 | field16 H7].
  - apply (proj1 (proj2 (C1_txq_post_header
             (mk_dev 10 (mk_hw_features false false true true 1500)) tcp_5000))).
    reflexivity.
Defined.

(** C1 as the spec words it fails at its own example: with mtu = 1500
    and 20-byte IP and TCP headers the 5000-byte TCP frame gets
    gso_size = 1500 - 20 - 20 = 1460, not 1448. *)
Lemma C1_counterexample :
  mtu hw_all_on = 1500 /\ ip_hdr_len (offload tcp_5000) = 20 /\
  tcp_hdr_len (offload tcp_5000) = 20 /\
  gso_size (txq_post_header (mk_dev 10 hw_all_on) tcp_5000) = 1460 /\
  gso_size (txq_post_header (mk_dev 10 hw_all_on) tcp_5000) <> 1448.
Proof. vm_compute. repeat split; discriminate. Qed.

(** ** The ring-size getter *)

(** C9.  [ring_size] reads the virtio-ring-size option exactly when the
    event-index option is present in the options map and returns 256
    otherwise, whatever virtio-ring-size holds: the size option is not
    honoured unconditionally. *)
Theorem C9_ring_size (opts : gmap string variable_value) :
  (is_Some (opts !! "event-index") ->
     ring_size opts = opt_as_unsigned opts "virtio-ring-size" /\
     forall n, opts !! "virtio-ring-size" = Some (as_unsigned n) ->
               ring_size opts = Returns n) /\
  (opts !! "event-index" = None -> ring_size opts = Returns 256) /\
  ring_size (<["virtio-ring-size" := as_unsigned 1024]> ∅) = Returns 256.
Proof.
  unfold ring_size. split; [| split].
  - intros He. rewrite decide_True by exact He. split; [reflexivity |].
    intros n Hn. unfold opt_as_unsigned. rewrite Hn. reflexivity.
  - intros He. rewrite decide_False; [reflexivity |].
    rewrite He. intros [x Hx]. discriminate.
  - reflexivity.
Qed.

Lemma C9_ring_size_witness :
  ring_size (<["event-index" := as_string "on"]>
             (<["virtio-ring-size" := as_unsigned 1024]> ∅)) = Returns 1024 /\
  ring_size (<["virtio-ring-size" := as_unsigned 1024]> ∅) = Returns 256.
Proof.
  split.
  - apply (C9_ring_size (<["event-index" := as_string "on"]>
                         (<["virtio-ring-size" := as_unsigned 1024]> ∅))).
    + eexists. vm_compute. reflexivity.
    + vm_compute. reflexivity.
  - apply (proj1 (proj2 (C9_ring_size (<["virtio-ring-size" := as_unsigned 1024]> ∅)))).
    vm_compute. reflexivity.
Defined.

(** ** The kick policy *)

Lemma kick_threshold : u16 (Z.lnot 0) / 2 = 32767.
Proof. reflexivity. Qed.

Lemma do_kick_signals r :
  vring._kick (vring.do_kick r) = vring._kick r + 1 /\
  vring._avail_added_since_kick (vring.do_kick r) = 0.
Proof. split; reflexivity. Qed.

Lemma kick_cases r : vring.kick r = r \/ vring.kick r = vring.do_kick r.
Proof.
  unfold vring.kick.
  destruct (vring.event_index _); [destruct (_ || _) | destruct (vring.notifications_disabled r)];
    auto.
Qed.

(** C3.  When [kick] stays silent.  With event_index negotiated no kick
    is emitted when the host has already seen the current avail.idx,
    that is (uint16)(avail_idx - avail_event - 1) >=
    chains_added_since_last_kick, provided fewer than 32767 chains were
    added since the last kick; without event_index no kick is emitted
    while NO_NOTIFY is set in the used ring.  In both cases the ring is
    left as it was. *)
Theorem C3_kick_suppressed (r : vring.t) :
  (vring.event_index (vring._config r) = true ->
   vring._avail_added_since_kick r
     <= u16 (vring.avail_layout._idx (vring._avail_shared r)
             - vring.used_layout.avail_event (vring._used_shared r) - 1) ->
   vring._avail_added_since_kick r < 32767 ->
   vring.kick r = r) /\
  (vring.event_index (vring._config r) = false ->
   Z.land (vring.used_layout._flags (vring._used_shared r))
          vring.VRING_USED_F_NO_NOTIFY <> 0 ->
   vring.kick r = r).
Proof.
  unfold vring.kick. split.
  - intros -> Hseen Hfew. rewrite kick_threshold.
    replace (_ <? _) with false by (symmetry; apply Z.ltb_ge; exact Hseen).
    replace (_ <=? _) with false by (symmetry; apply Z.leb_gt; exact Hfew).
    reflexivity.
  - intros -> Hflag. unfold vring.notifications_disabled.
    apply Z.eqb_neq in Hflag. rewrite Hflag. reflexivity.
Qed.

Lemma C3_kick_suppressed_witness :
  vring._kick (vring.kick (ring_at true 5 5 0 1)) = 0 /\
  vring._kick (vring.kick (ring_at false 5 0 1 1)) = 0.
Proof.
  split.
  - rewrite (proj1 (C3_kick_suppressed (ring_at true 5 5 0 1)));
      [reflexivity | reflexivity | vm_compute; discriminate | reflexivity].
  - rewrite (proj2 (C3_kick_suppressed (ring_at false 5 0 1 1)));
      [reflexivity | reflexivity | vm_compute; discriminate].
Defined.

(** C3 as the spec words it fails: with event_index negotiated, 32767
    chains added since the last kick and an avail_event the current
    avail.idx has not passed ((uint16)(32767 - 40000 - 1) = 58302 >=
    32767), [kick] still signals. *)
Lemma C3_counterexample :
  vring.event_index (vring._config (ring_at true 32767 40000 0 32767)) = true /\
  u16 (32767 - 40000 - 1) >= vring._avail_added_since_kick (ring_at true 32767 40000 0 32767) /\
  vring._kick (ring_at true 32767 40000 0 32767) = 0 /\
  vring._kick (vring.kick (ring_at true 32767 40000 0 32767)) = 1.
Proof. vm_compute. repeat split; discriminate. Qed.

(** C4.  The defensive kick and the reset of the counter.  With
    event_index negotiated [kick] signals whenever at least 32767 chains
    were added since the last kick, so whenever the count exceeds 32767;
    without event_index it signals exactly when NO_NOTIFY is clear, and
    with NO_NOTIFY set it returns at once whatever the count.  Whenever
    [kick] signals, it signals once and resets the counter to zero. *)
Theorem C4_kick_defensive (r : vring.t) :
  (vring.event_index (vring._config r) = true ->
   32767 <= vring._avail_added_since_kick r ->
   vring._kick (vring.kick r) = vring._kick r + 1) /\
  (vring.event_index (vring._config r) = false ->
   (vring.notifications_disabled r = false ->
      vring._kick (vring.kick r) = vring._kick r + 1) /\
   (vring.notifications_disabled r = true -> vring.kick r = r)) /\
  (vring._kick (vring.kick r) <> vring._kick r ->
   vring._kick (vring.kick r) = vring._kick r + 1 /\
   vring._avail_added_since_kick (vring.kick r) = 0).
Proof.
  split; [| split].
  - unfold vring.kick. intros -> Hmany. rewrite kick_threshold.
    replace (32767 <=? _) with true by (symmetry; apply Z.leb_le; exact Hmany).
    rewrite orb_true_r. reflexivity.
  - unfold vring.kick. intros ->. split; intros ->; reflexivity.
  - intros Hk. destruct (kick_cases r) as [E | E]; rewrite E in *.
    + contradiction.
    + apply do_kick_signals.
Qed.

Lemma C4_kick_defensive_witness :
  vring._kick (vring.kick (ring_at true 40000 50000 0 40000)) = 1 /\
  vring._avail_added_since_kick (vring.kick (ring_at true 40000 50000 0 40000)) = 0 /\
  vring.kick (ring_at false 40000 0 1 40000) = ring_at false 40000 0 1 40000.
Proof.
  pose proof (C4_kick_defensive (ring_at true 40000 50000 0 40000)) as (H1 & _ & H3).
  assert (E : vring._kick (vring.kick (ring_at true 40000 50000 0 40000)) = 1).
  { rewrite H1; [reflexivity | reflexivity | vm_compute; discriminate]. }
  split; [exact E |]. split.
  - apply H3. rewrite E. vm_compute. discriminate.
  - apply (C4_kick_defensive (ring_at false 40000 0 1 40000)); reflexivity.
Defined.

(** C4 as the spec words it fails without event_index: with NO_NOTIFY
    set and 40000 > 32767 chains added since the last kick, [kick]
    returns without signalling and without resetting the counter. *)
Lemma C4_counterexample :
  vring.event_index (vring._config (ring_at false 40000 0 1 40000)) = false /\
  vring._avail_added_since_kick (ring_at false 40000 0 1 40000) > 32767 /\
  vring._kick (vring.kick (ring_at false 40000 0 1 40000))
    = vring._kick (ring_at false 40000 0 1 40000) /\
  vring._avail_added_since_kick (vring.kick (ring_at false 40000 0 1 40000)) = 40000.
Proof. vm_compute. repeat split. Qed.

(** ** Receive reassembly *)

Section RxReassembly.
Variable d : dev.

(** A first buffer: the header is read and skipped. *)
Lemma rx_completed_first nb buf len q :
  _remaining_buffers q = 0 -> 1 <= nb ->
  rx_completed d nb buf len q =
    let frag := mk_fragment (buf + _header_len d) (u64 (len - _header_len d)) in
    if u32 (nb - 1) =? 0
    then Ret (mk_rxq (u32 (nb - 1)) [frag] []
                (_rx_ready q ++ [mk_packet [frag] no_offload [buf]]))
    else Ret (mk_rxq (u32 (nb - 1)) [frag] [buf] (_rx_ready q)).
Proof.
  intros Hrem Hnb. unfold rx_completed. rewrite Hrem. simpl.
  rewrite decide_True by exact Hnb. simpl. reflexivity.
Qed.

(** A later buffer: the whole buffer is one more fragment. *)
Lemma rx_completed_next nb buf len q :
  _remaining_buffers q <> 0 ->
  rx_completed d nb buf len q =
    let frags := _fragments q ++ [mk_fragment buf len] in
    let dels := _deleters q ++ [buf] in
    if u32 (_remaining_buffers q - 1) =? 0
    then Ret (mk_rxq (u32 (_remaining_buffers q - 1)) frags []
                (_rx_ready q ++ [mk_packet frags no_offload dels]))
    else Ret (mk_rxq (u32 (_remaining_buffers q - 1)) frags dels (_rx_ready q)).
Proof.
  intros Hrem. unfold rx_completed.
  apply Z.eqb_neq in Hrem. rewrite Hrem. simpl. reflexivity.
Qed.

Lemma rx_completed_abort nb buf len q :
  rx_completed d nb buf len q = Abort <-> _remaining_buffers q = 0 /\ nb < 1.
Proof.
  split.
  - intros H. destruct (decide (_remaining_buffers q = 0)) as [E | E].
    + destruct (decide (1 <= nb)) as [Hnb | Hnb]; [| lia].
      rewrite rx_completed_first in H by assumption.
      simpl in H. destruct (_ =? _); discriminate.
    + rewrite rx_completed_next in H by assumption.
      simpl in H. destruct (_ =? _); discriminate.
  - intros [E Hnb]. unfold rx_completed. rewrite E. simpl.
    rewrite decide_False by lia. reflexivity.
Qed.

Lemma rx_run_cons b bs q :
  rx_run d (b :: bs) q =
    rx_completed d (rx_num_buffers b) (rx_buf b) (rx_len b) q ≫= rx_run d bs.
Proof. reflexivity. Qed.

(** The buffers after the first, while that many are awaited. *)
Lemma rx_run_rest rest : forall b q,
  _remaining_buffers q = Z.of_nat (length (b :: rest)) ->
  Z.of_nat (length (b :: rest)) < 2 ^ 32 ->
  rx_run d (b :: rest) q =
    let frags := _fragments q ++ map rx_fragment_next (b :: rest) in
    let dels := _deleters q ++ map rx_buf (b :: rest) in
    Ret (mk_rxq 0 frags [] (_rx_ready q ++ [mk_packet frags no_offload dels])).
Proof.
  induction rest as [| b' rest IH]; intros b q Hrem Hlen.
  - simpl in Hrem. rewrite rx_run_cons, rx_completed_next by lia.
    rewrite Hrem. reflexivity.
  - rewrite rx_run_cons, rx_completed_next by (rewrite Hrem; simpl; lia).
    cbv zeta.
    assert (E : u32 (_remaining_buffers q - 1) = Z.of_nat (length (b' :: rest))).
    { rewrite Hrem. rewrite u32_small; simpl length in *; lia. }
    rewrite E.
    replace (Z.of_nat (length (b' :: rest)) =? 0) with false
      by (symmetry; apply Z.eqb_neq; simpl; lia).
    rewrite bind_Ret, IH; [| reflexivity | simpl length in *; lia].
    cbn [_fragments _deleters _rx_ready map]. unfold rx_fragment_next at 3 5.
    rewrite <- !app_assoc. reflexivity.
Qed.

(** One whole frame, from an idle queue: exactly one packet is chained
    onto the pending deliveries. *)
Lemma rx_run_frame bs q :
  _remaining_buffers q = 0 -> rx_frame bs ->
  rx_run d bs q =
    Ret (mk_rxq 0 (fragments (rx_packet d bs)) []
           (_rx_ready q ++ [rx_packet d bs])).
Proof.
  destruct bs as [| b rest]; [intros _ [] |]. intros Hrem [Hnb Hlen].
  rewrite rx_run_cons, rx_completed_first by (simpl length in *; lia).
  cbv zeta. rewrite Hnb.
  destruct rest as [| b' rest].
  - reflexivity.
  - assert (E : u32 (Z.of_nat (length (b :: b' :: rest)) - 1)
                = Z.of_nat (length (b' :: rest))).
    { rewrite u32_small; simpl length in *; lia. }
    rewrite E.
    replace (Z.of_nat (length (b' :: rest)) =? 0) with false
      by (symmetry; apply Z.eqb_neq; simpl; lia).
    rewrite bind_Ret, rx_run_rest; [reflexivity | reflexivity | simpl length in *; lia].
Qed.

(** Frame after frame: the packets are chained in completion order. *)
Lemma rx_run_frames frames : forall q,
  _remaining_buffers q = 0 -> Forall rx_frame frames ->
  exists q',
    rx_run d (concat frames) q = Ret q' /\
    _remaining_buffers q' = 0 /\
    _rx_ready q' = _rx_ready q ++ map (rx_packet d) frames.
Proof.
  assert (Happ : forall bs1 bs2 q q1,
             rx_run d bs1 q = Ret q1 -> rx_run d (bs1 ++ bs2) q = rx_run d bs2 q1).
  { induction bs1 as [| b bs1 IH]; intros bs2 q q1 H; simpl in *.
    - congruence.
    - destruct (rx_completed d _ _ _ q) as [q0 | | |]; simpl in *;
        try discriminate.
      apply IH. exact H. }
  induction frames as [| bs frames IH]; intros q Hrem Hall.
  - exists q. simpl. rewrite app_nil_r. auto.
  - inversion Hall as [| ? ? Hbs Hrest]; subst.
    destruct (IH (mk_rxq 0 (fragments (rx_packet d bs)) []
                    (_rx_ready q ++ [rx_packet d bs])) eq_refl Hrest)
      as (q' & Hrun & Hrem' & Hready).
    exists q'. simpl concat.
    rewrite (Happ _ _ _ _ (rx_run_frame bs q Hrem Hbs)).
    split; [exact Hrun |]. split; [exact Hrem' |].
    rewrite Hready. simpl. rewrite <- app_assoc. reflexivity.
Qed.
End RxReassembly.

(** C6.  Receive reassembly.  From an idle queue (remaining_buffers = 0)
    the completions of frame after frame, each frame's first header
    announcing its number of buffers, yield one packet per frame, chained
    onto the pending deliveries in completion order.  The first fragment
    of a packet skips the header and has length len - header_len (as a
    size_t; the difference itself when len >= header_len), every later
    fragment is a whole buffer of its completed length, the fragments are
    in completion order, and dropping the packet releases every buffer of
    the frame. *)
Theorem C6_rx_reassembly (d : dev) (frames : list (list rx_buffer)) (q : rxq) :
  _remaining_buffers q = 0 -> Forall rx_frame frames ->
  (exists q',
     rx_run d (concat frames) q = Ret q' /\
     _remaining_buffers q' = 0 /\
     _rx_ready q' = _rx_ready q ++ map (rx_packet d) frames) /\
  (forall b rest,
     fragments (rx_packet d (b :: rest))
       = mk_fragment (rx_buf b + _header_len d) (u64 (rx_len b - _header_len d))
         :: map (fun b' => mk_fragment (rx_buf b') (rx_len b')) rest /\
     (0 <= _header_len d <= rx_len b -> rx_len b < 2 ^ 64 ->
      size (rx_fragment_first d b) = rx_len b - _header_len d) /\
     drop_packet (rx_packet d (b :: rest)) = rx_buf b :: map rx_buf rest).
Proof.
  intros Hrem Hall. split; [apply rx_run_frames; assumption |].
  intros b rest. split; [reflexivity |]. split; [| reflexivity].
  intros Hh Hl. simpl. apply u64_small. lia.
Qed.

(** Scenario 4 of the spec: three buffers completing with lengths 4096,
    4096 and 200, the first header announcing three buffers, give one
    packet with fragments of 4096 - 12, 4096 and 200 bytes whose drop
    releases the three buffers. *)
Lemma C6_rx_reassembly_witness :
  exists q',
    rx_run dev_mrg three_buffers rxq_idle = Ret q' /\
    _rx_ready q' =
      [mk_packet [mk_fragment 4108 4084; mk_fragment 8192 4096; mk_fragment 12288 200]
         no_offload [4096; 8192; 12288]].
Proof.
  destruct (C6_rx_reassembly dev_mrg [three_buffers] rxq_idle) as [(q' & H1 & _ & H3) _].
  - reflexivity.
  - repeat constructor.
  - exists q'. split; [exact H1 | exact H3].
Defined.

(** C10.  A first buffer (remaining_buffers = 0) whose completed length
    is smaller than the header length is not rejected: the handler
    returns, and the fragment it records has length
    len - header_len + 2^64.  The only check on a first buffer is the
    assertion num_buffers >= 1: the handler aborts exactly when
    remaining_buffers = 0 and num_buffers < 1. *)
Theorem C10_rx_short_first_buffer (d : dev) (nb buf len : Z) (q : rxq) :
  (_remaining_buffers q = 0 -> 1 <= nb ->
   0 <= len < _header_len d -> _header_len d < 2 ^ 64 ->
   exists q',
     rx_completed d nb buf len q = Ret q' /\
     _fragments q' =
       [mk_fragment (buf + _header_len d) (len - _header_len d + 2 ^ 64)]) /\
  (rx_completed d nb buf len q = Abort <-> _remaining_buffers q = 0 /\ nb < 1) /\
  (rx_completed d nb buf len q <> Abort ->
   exists q', rx_completed d nb buf len q = Ret q').
Proof.
  split; [| split].
  - intros Hrem Hnb Hlen Hh. rewrite rx_completed_first by assumption.
    cbv zeta.
    assert (E : u64 (len - _header_len d) = len - _header_len d + 2 ^ 64).
    { unfold u64. symmetry. apply (Z.mod_unique _ _ (-1)); lia. }
    rewrite E. destruct (_ =? _); eexists; split; reflexivity.
  - apply rx_completed_abort.
  - intros H. unfold rx_completed in *.
    destruct (_remaining_buffers q =? 0); simpl in *.
    + destruct (decide (1 <= nb)); simpl in *; [| congruence].
      destruct (_ =? _); eexists; reflexivity.
    + destruct (_ =? _); eexists; reflexivity.
Qed.

(** A 4-byte completion on a first buffer with the 12-byte header: the
    fragment recorded is 2^64 - 8 bytes long. *)
Lemma C10_rx_short_first_buffer_witness :
  exists q',
    rx_completed dev_mrg 1 4096 4 rxq_idle = Ret q' /\
    _fragments q' = [mk_fragment 4108 18446744073709551608].
Proof.
  destruct (proj1 (C10_rx_short_first_buffer dev_mrg 1 4096 4 rxq_idle))
    as (q' & H1 & H2).
  - reflexivity.
  - vm_compute. discriminate.
  - vm_compute. split; [discriminate | reflexivity].
  - reflexivity.
  - exists q'. split; [exact H1 | exact H2].
Defined.

(** ** Transmit: the permits [txq::post] waits for *)

Lemma txq_chain_length q :
  length (txq_chain q) = length (fragments q).
Proof.
  unfold txq_chain. destruct (fragments q); simpl; [| rewrite length_map]; reflexivity.
Qed.

Lemma txq_chain_read_only q :
  Forall (fun b => vring.writeable b = false) (txq_chain q).
Proof.
  unfold txq_chain. destruct (fragments q) as [| f fs]; constructor; [reflexivity |].
  apply Forall_forall. intros b Hb. apply list_elem_of_fmap in Hb as (f' & -> & _).
  reflexivity.
Qed.

(** ** Arrays *)

Section Arrays.
Context {A : Type}.
Implicit Types (a : list A) (i j : Z) (x : A).

Lemma at_index_Ret a i x :
  at_index a i = Ret x <-> 0 <= i /\ a !! Z.to_nat i = Some x.
Proof.
  unfold at_index. destruct (decide (0 <= i)) as [H | H].
  - destruct (a !! Z.to_nat i) eqn:E; split; intros; try discriminate;
      destruct_and?; simplify_eq; auto.
  - split; [discriminate | intros [? _]; contradiction].
Qed.

Lemma at_index_range a i x :
  at_index a i = Ret x -> 0 <= i < Z.of_nat (length a).
Proof.
  intros [H0 H]%at_index_Ret. apply lookup_lt_Some in H. lia.
Qed.

Lemma at_index_in_range a i :
  0 <= i < Z.of_nat (length a) -> exists x, at_index a i = Ret x.
Proof.
  intros H. destruct (lookup_lt_is_Some_2 a (Z.to_nat i)) as [x Hx]; [lia |].
  exists x. apply at_index_Ret. split; [lia | exact Hx].
Qed.

Lemma at_index_outside a i :
  ~ 0 <= i < Z.of_nat (length a) -> at_index a i = Undefined.
Proof.
  intros H. unfold at_index. destruct (decide (0 <= i)); [| reflexivity].
  rewrite lookup_ge_None_2 by lia. reflexivity.
Qed.

Lemma store_Ret a i x :
  0 <= i < Z.of_nat (length a) -> store a i x = Ret (<[Z.to_nat i := x]> a).
Proof. intros H. unfold store. rewrite decide_True by exact H. reflexivity. Qed.

Lemma at_index_insert_eq a i x :
  0 <= i < Z.of_nat (length a) -> at_index (<[Z.to_nat i := x]> a) i = Ret x.
Proof.
  intros H. apply at_index_Ret. split; [lia |].
  apply list_lookup_insert_eq. lia.
Qed.

Lemma at_index_insert_ne a i j x :
  0 <= i -> i <> j -> at_index (<[Z.to_nat i := x]> a) j = at_index a j.
Proof.
  intros H0 Hne. unfold at_index. destruct (decide (0 <= j)); [| reflexivity].
  rewrite list_lookup_insert_ne by lia. reflexivity.
Qed.
End Arrays.

Lemma same_outside_refl X ds : same_outside X ds ds.
Proof. split; auto. Qed.

Lemma same_outside_trans X Y ds1 ds2 ds3 :
  same_outside X ds1 ds2 -> same_outside Y ds2 ds3 ->
  same_outside (X ++ Y) ds1 ds3.
Proof.
  intros [L1 H1] [L2 H2]. split; [congruence |].
  intros i Hi. rewrite elem_of_app in Hi.
  rewrite H2, H1; auto.
Qed.

Lemma same_outside_weaken X Y ds ds' :
  (forall i, i ∈ X -> i ∈ Y) -> same_outside X ds ds' -> same_outside Y ds ds'.
Proof. intros Hsub [L H]. split; [exact L |]. intros i Hi. apply H. auto. Qed.

Lemma same_outside_insert ds i d :
  0 <= i -> same_outside [i] ds (<[Z.to_nat i := d]> ds).
Proof.
  intros H0. split; [apply length_insert |].
  intros j Hj. apply at_index_insert_ne; [exact H0 |].
  intros ->. apply Hj. apply list_elem_of_here.
Qed.

(** ** The free list and the chains *)

Lemma free_list_frame X ds ds' l : forall f,
  same_outside X ds ds' -> (forall i, i ∈ l -> i ∉ X) ->
  free_list ds f l -> free_list ds' f l.
Proof.
  induction l as [| i l IH]; intros f Hsame Hdisj Hfl; simpl in *; [exact Hfl |].
  destruct Hfl as (-> & d & Hd & Hrest). split; [reflexivity |].
  exists d. split.
  - rewrite (proj2 Hsame); [exact Hd |]. apply Hdisj. apply list_elem_of_here.
  - apply IH; [exact Hsame | | exact Hrest].
    intros j Hj. apply Hdisj. apply list_elem_of_further. exact Hj.
Qed.

Lemma chain_frame X ds ds' c : forall h,
  same_outside X ds ds' -> (forall i, i ∈ c -> i ∉ X) ->
  chain ds h c -> chain ds' h c.
Proof.
  induction c as [| i c IH]; intros h Hsame Hdisj Hc; simpl in *; [exact Hc |].
  destruct Hc as (-> & d & Hd & Hrest). split; [reflexivity |].
  exists d. split.
  - rewrite (proj2 Hsame); [exact Hd |]. apply Hdisj. apply list_elem_of_here.
  - destruct c as [| i' c]; [exact Hrest |].
    destruct Hrest as [Hn Hrest]. split; [exact Hn |].
    apply IH; [exact Hsame | | exact Hrest].
    intros j Hj. apply Hdisj. apply list_elem_of_further. exact Hj.
Qed.

Lemma free_list_range ds l : forall f i,
  free_list ds f l -> i ∈ l -> 0 <= i < Z.of_nat (length ds).
Proof.
  induction l as [| j l IH]; intros f i Hfl Hi; [inversion Hi |].
  destruct Hfl as (-> & d & Hd & Hrest).
  apply elem_of_cons in Hi as [-> | Hi].
  - eapply at_index_range. exact Hd.
  - eapply IH; eassumption.
Qed.

Lemma chain_range ds c : forall h i,
  chain ds h c -> i ∈ c -> 0 <= i < Z.of_nat (length ds).
Proof.
  induction c as [| j c IH]; intros h i Hc Hi; [inversion Hi |].
  destruct Hc as (-> & d & Hd & Hrest).
  apply elem_of_cons in Hi as [-> | Hi].
  - eapply at_index_range. exact Hd.
  - destruct c as [| j' c]; [inversion Hi |].
    destruct Hrest as [_ Hrest]. eapply IH; eassumption.
Qed.

Lemma chain_head ds h c : chain ds h c -> hd 0 c = h.
Proof. destruct c; simpl; [intros [] | intros [-> _]; reflexivity]. Qed.

(** A head determines its chain. *)
Lemma chain_unique ds c1 : forall h c2,
  chain ds h c1 -> chain ds h c2 -> c1 = c2.
Proof.
  induction c1 as [| i c1 IH]; intros h c2 H1 H2; [destruct H1 |].
  destruct c2 as [| i2 c2]; [destruct H2 |].
  destruct H1 as (-> & d1 & Hd1 & R1), H2 as (<- & d2 & Hd2 & R2).
  assert (d2 = d1) by congruence. subst d2. f_equal.
  destruct c1 as [| j1 c1], c2 as [| j2 c2]; try reflexivity.
  - destruct R2 as [R2 _]. congruence.
  - destruct R1 as [R1 _]. congruence.
  - destruct R1 as [_ R1], R2 as [_ R2]. eapply IH; eassumption.
Qed.

(** The end marker survives its 16-bit store, and so does an index. *)
Lemma free_list_u16 ds f l :
  Z.of_nat (length ds) <= 65535 -> free_list ds f l -> free_list ds (u16 f) l.
Proof.
  intros Hlen Hfl. destruct l as [| i l]; simpl in *.
  - right. destruct Hfl as [-> | ->]; reflexivity.
  - destruct Hfl as (-> & d & Hd & Hrest).
    pose proof (at_index_range _ _ _ Hd).
    rewrite u16_small by lia. eauto.
Qed.

Lemma free_walk_spec ds l : forall f fuel,
  Z.of_nat (length ds) <= 65535 -> free_list ds f l ->
  (length l <= fuel)%nat -> free_walk fuel ds f = l.
Proof.
  induction l as [| i l IH]; intros f fuel Hlen Hfl Hfuel.
  - destruct fuel as [| fuel]; [reflexivity |]. simpl.
    rewrite at_index_outside; [reflexivity |].
    destruct Hfl as [-> | ->]; lia.
  - destruct fuel as [| fuel]; [simpl in Hfuel; lia |].
    destruct Hfl as (-> & d & Hd & Hrest). simpl. rewrite Hd. f_equal.
    apply IH; [exact Hlen | exact Hrest | simpl in Hfuel; lia].
Qed.

(** ** Freeing and allocating descriptors *)

Lemma free_desc_spec id d r :
  at_index (vring._descs r) id = Ret d ->
  vring.free_desc id r =
    Ret (vring.set_available_descriptors (vring._available_descriptors r + 1)
           (vring.set_free_desc id
              (vring.set_descs
                 (<[Z.to_nat id := vring.desc.set_next (u16 (vring._free_desc r)) d]>
                    (vring._descs r)) r))).
Proof.
  intros Hd. unfold vring.free_desc. rewrite Hd, bind_Ret.
  rewrite store_Ret by (eapply at_index_range; exact Hd). reflexivity.
Qed.

Lemma free_desc_free_list ds f l id d :
  Z.of_nat (length ds) <= 65535 ->
  at_index ds id = Ret d -> id ∉ l -> free_list ds f l ->
  free_list (<[Z.to_nat id := vring.desc.set_next (u16 f) d]> ds) id (id :: l).
Proof.
  intros Hlen Hd Hid Hfl. pose proof (at_index_range _ _ _ Hd) as Hr.
  split; [reflexivity |]. eexists. split; [apply at_index_insert_eq; exact Hr |].
  simpl. eapply free_list_frame.
  - apply same_outside_insert. lia.
  - intros i Hi Hin. apply list_elem_of_singleton in Hin. subst. contradiction.
  - apply free_list_u16; [exact Hlen | exact Hfl].
Qed.

Lemma allocate_desc_spec r i l :
  free_list (vring._descs r) (vring._free_desc r) (i :: l) ->
  exists d,
    at_index (vring._descs r) i = Ret d /\
    free_list (vring._descs r) (vring.desc._next d) l /\
    vring.allocate_desc r = Ret (i, vring.set_free_desc (vring.desc._next d) r).
Proof.
  intros (Hf & d & Hd & Hrest). exists d. split; [exact Hd |]. split; [exact Hrest |].
  unfold vring.allocate_desc. pose proof (at_index_range _ _ _ Hd).
  rewrite decide_False by lia. rewrite Hf, Hd. reflexivity.
Qed.

(** The walk of [do_complete] over one chain frees each descriptor of
    the chain once, last descriptor on top of the free list, and signals
    the semaphore once per descriptor. *)
Lemma free_chain_spec c : forall fuel h r l,
  Z.of_nat (length (vring._descs r)) <= 65535 ->
  chain (vring._descs r) h c -> NoDup (c ++ l) ->
  free_list (vring._descs r) (vring._free_desc r) l ->
  (length c <= fuel)%nat ->
  exists ds' f' s',
    vring.free_chain fuel h r =
      Ret (vring.set_available_descriptors s'
             (vring.set_free_desc f' (vring.set_descs ds' r))) /\
    s' = vring._available_descriptors r + Z.of_nat (length c) /\
    same_outside c (vring._descs r) ds' /\
    free_list ds' f' (reverse c ++ l).
Proof.
  induction c as [| i c IH]; intros fuel h r l Hlen Hc Hnd Hfl Hfuel; [destruct Hc |].
  destruct fuel as [| fuel]; [simpl in Hfuel; lia |].
  destruct Hc as (-> & d & Hd & Hrest).
  pose proof (at_index_range _ _ _ Hd) as Hr.
  apply NoDup_cons in Hnd as [Hi Hnd]. rewrite not_elem_of_app in Hi.
  cbn [vring.free_chain]. rewrite Hd, bind_Ret.
  rewrite (free_desc_spec _ _ _ Hd), bind_Ret.
  set (ds1 := <[Z.to_nat i := _]> (vring._descs r)).
  assert (Hfl1 : free_list ds1 i (i :: l)).
  { apply free_desc_free_list; tauto. }
  assert (Hsame1 : same_outside [i] (vring._descs r) ds1).
  { apply same_outside_insert. lia. }
  assert (Hnd1 : NoDup (c ++ i :: l)).
  { eapply NoDup_Permutation_proper; [| apply NoDup_cons; split; [| exact Hnd]].
    - symmetry. apply Permutation_middle.
    - rewrite not_elem_of_app. tauto. }
  destruct c as [| j c].
  - rewrite Hrest. exists ds1, i, (vring._available_descriptors r + 1).
    split; [reflexivity |]. split; [simpl; lia |]. split; [exact Hsame1 |].
    exact Hfl1.
  - destruct Hrest as [Hn Hrest]. rewrite Hn.
    set (r1 := vring.set_available_descriptors _ _).
    destruct (IH fuel (vring.desc._next d) r1 (i :: l)) as (ds' & f' & s' & E & Hs & Hsame & Hfl').
    + subst r1 ds1. simpl. rewrite length_insert. exact Hlen.
    + eapply chain_frame; [exact Hsame1 | | exact Hrest].
      intros k Hk Hin. apply list_elem_of_singleton in Hin. subst. tauto.
    + exact Hnd1.
    + exact Hfl1.
    + cbn [length] in *. lia.
    + exists ds', f', s'. split; [rewrite E; reflexivity |].
      split; [rewrite Hs; subst r1; simpl; simpl length; lia |]. split.
      * eapply same_outside_weaken; [| eapply same_outside_trans; eassumption].
        intros k Hk. apply elem_of_app in Hk as [Hk%list_elem_of_singleton | Hk].
        -- subst. apply list_elem_of_here.
        -- apply list_elem_of_further. exact Hk.
      * rewrite reverse_cons, <- app_assoc. exact Hfl'.
Qed.

(** ** Posting a chain *)

Lemma chain_posted_frame X ds ds' bc : forall idx,
  same_outside X ds ds' -> (forall i, i ∈ idx -> i ∉ X) ->
  chain_posted ds bc idx -> chain_posted ds' bc idx.
Proof.
  induction bc as [| b bc IH]; intros [| i idx] Hsame Hdisj H; simpl in *; try tauto.
  destruct H as [Hd Hrest]. split.
  - rewrite (proj2 Hsame); [exact Hd |]. apply Hdisj. apply list_elem_of_here.
  - apply IH; [exact Hsame | | exact Hrest].
    intros j Hj. apply Hdisj. apply list_elem_of_further. exact Hj.
Qed.

Lemma chain_posted_length ds bc : forall idx,
  chain_posted ds bc idx -> length idx = length bc.
Proof.
  induction bc as [| b bc IH]; intros [| i idx] H; simpl in *; try tauto.
  f_equal. apply IH. tauto.
Qed.

(** The descriptor of the k-th buffer of a posted chain, field by field. *)
Lemma chain_posted_lookup ds bc : forall idx k b i,
  chain_posted ds bc idx -> bc !! k = Some b -> idx !! k = Some i ->
  at_index ds i =
    Ret (vring.desc.mk (vring.addr b) (vring.len b)
           (vring.desc.mk_flags (S k <? length bc)%nat (vring.writeable b) false)
           (default 0 (idx !! S k))).
Proof.
  induction bc as [| b0 bc IH]; intros [| i0 idx] k b i H Hb Hi; simpl in H; try tauto;
    try discriminate.
  destruct H as [Hd Hrest]. destruct k as [| k].
  - injection Hb as <-. injection Hi as <-. rewrite Hd. unfold desc_of.
    destruct bc, idx; simpl in *; try tauto; reflexivity.
  - simpl in Hb, Hi. rewrite (IH idx k b i Hrest Hb Hi). reflexivity.
Qed.

(** The descriptors of a posted chain form a forward list. *)
Lemma chain_posted_chain ds bc : forall idx,
  bc <> [] -> chain_posted ds bc idx -> chain ds (hd 0 idx) idx.
Proof.
  induction bc as [| b bc IH]; intros [| i idx] Hne H; simpl in H; try tauto.
  destruct H as [Hd Hrest]. split; [reflexivity |]. eexists. split; [exact Hd |].
  destruct bc as [| b' bc].
  - destruct idx; [reflexivity | destruct Hrest].
  - destruct idx as [| i' idx]; [destruct Hrest |].
    split; [reflexivity |]. apply (IH (i' :: idx)); [discriminate | exact Hrest].
Qed.

Lemma post_buffers_spec rbc : forall a l r bc0 idx0,
  Z.of_nat (length (vring._descs r)) <= 65535 ->
  length (vring._completions r) = length (vring._descs r) ->
  length a = length rbc ->
  free_list (vring._descs r) (vring._free_desc r) (a ++ l) ->
  NoDup (a ++ l) -> (forall i, i ∈ idx0 -> i ∉ a) ->
  chain_posted (vring._descs r) bc0 idx0 -> 0 <= hd 0 idx0 < 65536 ->
  exists ds' cs' f',
    vring.post_buffers rbc (negb (is_nil bc0)) (hd 0 idx0) r =
      Ret (hd 0 (reverse a ++ idx0),
           vring.set_free_desc f' (vring.set_completions cs' (vring.set_descs ds' r))) /\
    length cs' = length (vring._completions r) /\
    same_outside a (vring._descs r) ds' /\
    free_list ds' f' l /\
    chain_posted ds' (reverse rbc ++ bc0) (reverse a ++ idx0).
Proof.
  induction rbc as [| b rbc IH]; intros a l r bc0 idx0 Hlen Hcs Hal Hfl Hnd Hdisj Hposted Hprev.
  - destruct a; [| discriminate]. exists (vring._descs r), (vring._completions r), (vring._free_desc r).
    split; [destruct r; reflexivity |]. split; [reflexivity |].
    split; [apply same_outside_refl |]. split; [exact Hfl | exact Hposted].
  - destruct a as [| i a]; [discriminate |]. injection Hal as Hal.
    destruct (allocate_desc_spec r i (a ++ l) Hfl) as (d & Hd & Hfl1 & Halloc).
    pose proof (at_index_range _ _ _ Hd) as Hr.
    change ((i :: a) ++ l) with (i :: (a ++ l)) in Hnd.
    apply NoDup_cons in Hnd as [Hi Hnd].
    cbn [vring.post_buffers]. rewrite Halloc, bind_Ret.
    cbn [vring._descs vring._completions vring.set_free_desc].
    rewrite (store_Ret (vring._descs r)), bind_Ret by exact Hr.
    rewrite (store_Ret (vring._completions r)), bind_Ret by lia.
    rewrite (u16_small (hd 0 idx0)) by exact Hprev.
    set (ds1 := <[Z.to_nat i := _]> (vring._descs r)).
    set (cs1 := <[Z.to_nat i := _]> (vring._completions r)).
    assert (Hsame1 : same_outside [i] (vring._descs r) ds1).
    { apply same_outside_insert. lia. }
    set (r2 := vring.set_completions cs1 _).
    destruct (IH a l r2 (b :: bc0) (i :: idx0)) as (ds' & cs' & f' & E & Hcs' & Hsame & Hfl' & Hp').
    + subst r2 ds1. simpl. rewrite length_insert. exact Hlen.
    + subst r2 ds1 cs1. simpl. rewrite !length_insert. exact Hcs.
    + exact Hal.
    + eapply free_list_frame; [exact Hsame1 | | exact Hfl1].
      intros k Hk Hin. apply list_elem_of_singleton in Hin. subst. contradiction.
    + exact Hnd.
    + intros k Hk Hin. apply elem_of_cons in Hk as [-> | Hk].
      * apply Hi. apply elem_of_app. left. exact Hin.
      * apply (Hdisj k Hk). apply list_elem_of_further. exact Hin.
    + split.
      * subst r2 ds1. simpl. apply at_index_insert_eq. exact Hr.
      * eapply chain_posted_frame; [exact Hsame1 | | exact Hposted].
        intros k Hk Hin. apply list_elem_of_singleton in Hin. subst.
        apply (Hdisj i Hk). apply list_elem_of_here.
    + simpl. lia.
    + exists ds', cs', f'. rewrite !reverse_cons, <- !app_assoc.
      split; [exact E |]. split.
      { rewrite Hcs'. subst r2 cs1. simpl. apply length_insert. }
      split; [| split; [exact Hfl' | exact Hp']].
      apply (same_outside_trans [i] a _ ds1 _ Hsame1 Hsame).
Qed.

Lemma mask_spec r x :
  ring_ok r -> vring.masked r x = x `mod` vring.size (vring._config r).
Proof.
  intros [(k & Hk & Hsize) _ _ _ _ _]. unfold vring.masked, vring.mask.
  rewrite Hsize. assert (0 < 2 ^ k < 2 ^ 64).
  { split; [apply Z.pow_pos_nonneg; lia | apply Z.pow_lt_mono_r; lia]. }
  rewrite u64_small by lia.
  replace (2 ^ k - 1) with (Z.ones k) by (rewrite Z.ones_equiv; lia).
  apply Z.land_ones. lia.
Qed.

Lemma ring_ok_descs r : ring_ok r -> Z.of_nat (length (vring._descs r)) <= 65535.
Proof.
  intros [(k & Hk & Hsize) Hd _ _ _ _]. rewrite Hd, Hsize.
  assert (2 ^ k <= 2 ^ 15) by (apply Z.pow_le_mono_r; lia). lia.
Qed.

Lemma ring_ok_size_pos r : ring_ok r -> 0 < vring.size (vring._config r).
Proof.
  intros [(k & Hk & Hsize) _ _ _ _ _]. rewrite Hsize. apply Z.pow_pos_nonneg; lia.
Qed.

(** One chain through the lambda of [post], in explicit form. *)
Lemma post_chain_spec bc r a l :
  ring_ok r -> length a = length bc ->
  free_list (vring._descs r) (vring._free_desc r) (a ++ l) -> NoDup (a ++ l) ->
  exists ds' cs' f',
    vring.post_chain bc r =
      Ret (vring.set_avail_added_since_kick (u16 (vring._avail_added_since_kick r + 1))
             (vring.set_avail_head (u16 (vring._avail_head r + 1))
                (vring.set_avail_shared
                   (vring.avail_layout.set_ring
                      (<[Z.to_nat (vring._avail_head r `mod` vring.size (vring._config r))
                         := hd 0 (reverse a)]>
                         (vring.avail_layout._ring (vring._avail_shared r)))
                      (vring._avail_shared r))
                   (vring.set_free_desc f'
                      (vring.set_completions cs' (vring.set_descs ds' r)))))) /\
    length cs' = length (vring._completions r) /\
    same_outside a (vring._descs r) ds' /\
    free_list ds' f' l /\
    chain_posted ds' bc (reverse a).
Proof.
  intros Hok Hal Hfl Hnd. pose proof (ring_ok_descs r Hok) as Hlen.
  pose proof (ring_ok_size_pos r Hok) as Hpos.
  destruct Hok as [Hsz Hd Hc Hring Hhead Htail].
  destruct (post_buffers_spec (reverse bc) a l r [] []) as (ds' & cs' & f' & E & Hcs' & Hsame & Hfl' & Hp');
    try assumption.
  - lia.
  - rewrite length_reverse. exact Hal.
  - intros i Hi. inversion Hi.
  - exact I.
  - simpl. lia.
  - rewrite !app_nil_r, reverse_involutive in Hp'. rewrite app_nil_r in E.
    exists ds', cs', f'. split; [| tauto].
    unfold vring.post_chain. simpl in E. rewrite E, bind_Ret.
    set (r1 := vring.set_free_desc f' _).
    assert (Hm : vring.masked r1 (vring._avail_head r1)
                 = vring._avail_head r `mod` vring.size (vring._config r)).
    { apply (mask_spec r1). constructor; subst r1; simpl; try assumption.
      - destruct Hsame as [-> _]. exact Hd.
      - rewrite Hcs'. exact Hc. }
    rewrite Hm. rewrite store_Ret, bind_Ret.
    + assert (Hh : u16 (hd 0 (reverse a)) = hd 0 (reverse a)).
      { apply u16_small. destruct (reverse a) as [| i ra] eqn:Era; simpl; [lia |].
        assert (Hin : i ∈ a ++ l).
        { apply elem_of_app. left. apply elem_of_reverse. rewrite Era.
          apply list_elem_of_here. }
        pose proof (free_list_range _ _ _ _ Hfl Hin). lia. }
      rewrite Hh. reflexivity.
    + subst r1. simpl. rewrite Hring. apply Z.mod_pos_bound. exact Hpos.
Qed.


(** ** Reclaiming returned chains *)

Lemma pool_inv_ext r r' free held returned :
  pool_view r' = pool_view r ->
  pool_inv r free held returned -> pool_inv r' free held returned.
Proof.
  unfold pool_view. intros E [[Hs Hd Hc Hr Hh Ht] Hfl Hch Hnd Hall Hu].
  injection E as E1 E2 E3 E4 E5 E6 E7 E8.
  constructor; [constructor |..]; unfold vring.mask in *;
    rewrite ?E1, ?E2, ?E3, ?E4, ?E5, ?E6, ?E7, ?E8; assumption.
Qed.

Lemma elem_of_concat {A : Type} (x : A) (ls : list (list A)) :
  x ∈ concat ls <-> exists l, x ∈ l /\ l ∈ ls.
Proof.
  induction ls as [| l0 ls IH]; simpl.
  - split; [intros H; inversion H | intros (l & _ & H); inversion H].
  - rewrite elem_of_app, IH. split.
    + intros [H | (l & H1 & H2)].
      * exists l0. split; [exact H | apply list_elem_of_here].
      * exists l. split; [exact H1 | apply list_elem_of_further; exact H2].
    + intros (l & H1 & H2). apply elem_of_cons in H2 as [-> | H2]; [left | right]; eauto.
Qed.

Lemma chain_nonempty ds h c : chain ds h c -> c <> [].
Proof. destruct c; simpl; [intros [] | discriminate]. Qed.

Lemma chain_hd_in ds h c : chain ds h c -> hd 0 c ∈ c.
Proof. destruct c; simpl; [intros [] | intros _; apply list_elem_of_here]. Qed.

Lemma perm_reclaim (free c : list Z) (held returned : list (list Z)) :
  (reverse c ++ free) ++ concat (held ++ returned)
    ≡ₚ free ++ concat (held ++ c :: returned).
Proof.
  rewrite !concat_app, concat_cons, reverse_Permutation.
  rewrite <- (app_assoc c free).
  rewrite (Permutation_app_swap_app c free).
  apply Permutation_app_head.
  rewrite (Permutation_app_swap_app c (concat held)). reflexivity.
Qed.

Lemma complete_one_spec fuel r free held c returned :
  pool_inv r free held (c :: returned) ->
  vring.size (vring._config r) <= Z.of_nat fuel ->
  exists ds' f' s' sv' t',
    vring.complete_one fuel r =
      Ret (vring.set_available_descriptors s'
             (vring.set_free_desc f'
                (vring.set_descs ds'
                   (vring.set_set_values sv' (vring.set_used_tail t' r))))) /\
    s' = vring._available_descriptors r + Z.of_nat (length c) /\
    vring._used_tail r <> vring.used_layout._idx (vring._used_shared r) /\
    pool_inv (vring.set_available_descriptors s'
                (vring.set_free_desc f'
                   (vring.set_descs ds'
                      (vring.set_set_values sv' (vring.set_used_tail t' r)))))
      (reverse c ++ free) held returned.
Proof.
  intros [Hok Hfl Hch Hnd Hall (ues & Hub & Hids)] Hfuel.
  destruct ues as [| ue ues]; [discriminate |]. injection Hids as Hid Hids.
  destruct Hub as (Hne & Hue & Hub).
  pose proof (ring_ok_descs r Hok) as Hlen.
  assert (Hc : chain (vring._descs r) (hd 0 c) c).
  { rewrite Forall_forall in Hch. apply Hch.
    apply elem_of_app. right. apply list_elem_of_here. }
  pose proof (chain_range _ _ _ _ Hc (chain_hd_in _ _ _ Hc)) as Hhd.
  destruct (at_index_in_range (vring._completions r) (hd 0 c)) as [p Hp].
  { destruct Hok. lia. }
  pose proof Hnd as Hnd0.
  eapply NoDup_Permutation_proper in Hnd; [| apply (perm_reclaim free c held returned)].
  rewrite <- app_assoc in Hnd.
  assert (Hndc : NoDup (c ++ free)).
  { rewrite app_assoc in Hnd. apply NoDup_app in Hnd as [Hnd _].
    eapply NoDup_Permutation_proper; [| exact Hnd].
    apply Permutation_app_tail. symmetry. apply reverse_Permutation. }
  assert (Hlc : (length c <= fuel)%nat).
  { rewrite !length_app, concat_app, concat_cons, !length_app in Hall. lia. }
  set (r2 := vring.set_set_values (vring.set_values r ++ [(p, vring.used_elem._len ue)])
               (vring.set_used_tail (u16 (vring._used_tail r + 1)) r)).
  destruct (free_chain_spec c fuel (hd 0 c) r2 free) as (ds' & f' & s' & E & Hs & Hsame & Hfl');
    try assumption.
  exists ds', f', s', (vring.set_values r ++ [(p, vring.used_elem._len ue)]),
    (u16 (vring._used_tail r + 1)).
  split.
  { unfold vring.complete_one. unfold vring.masked. rewrite Hue, bind_Ret.
    cbn [vring._completions vring.set_used_tail]. rewrite Hid, Hp, bind_Ret.
    exact E. }
  split; [exact Hs |]. split; [exact Hne |].
  destruct Hok as [Hsz Hd Hcs Hr Hh Ht].
  constructor; simpl.
  - constructor; simpl; try assumption.
    + destruct Hsame as [-> _]. exact Hd.
    + unfold u16. apply Z.mod_pos_bound. lia.
  - exact Hfl'.
  - rewrite Forall_forall in Hch |- *. intros c' Hc'.
    assert (Hc'0 : chain (vring._descs r) (hd 0 c') c').
    { apply Hch. apply elem_of_app in Hc' as [Hc' | Hc']; apply elem_of_app; [left | right]; auto.
      apply list_elem_of_further. exact Hc'. }
    eapply chain_frame; [exact Hsame | | exact Hc'0].
    intros i Hi Hic.
    rewrite app_assoc in Hnd. apply NoDup_app in Hnd as (_ & Hdisj & _).
    apply (Hdisj i).
    + apply elem_of_app. left. apply elem_of_reverse. exact Hic.
    + apply elem_of_concat. exists c'. split; [exact Hi | exact Hc'].
  - rewrite <- app_assoc. exact Hnd.
  - rewrite (perm_reclaim free c held returned). exact Hall.
  - exists ues. split; [exact Hub | exact Hids].
Qed.

Lemma drain_spec returned : forall n fuel r free held,
  pool_inv r free held returned ->
  vring.size (vring._config r) <= Z.of_nat fuel ->
  (length returned <= n)%nat ->
  exists r',
    vring.drain n fuel (vring.used_layout._idx (vring._used_shared r)) r = Ret r' /\
    pool_inv r' (reverse (concat returned) ++ free) held [] /\
    vring._available_descriptors r'
      = vring._available_descriptors r + Z.of_nat (length (concat returned)) /\
    vring._used_tail r' = vring.used_layout._idx (vring._used_shared r) /\
    kept_view r' = kept_view r.
Proof.
  induction returned as [| c returned IH]; intros n fuel r free held Hinv Hfuel Hn.
  - exists r. pose proof Hinv as [_ _ _ _ _ (ues & Hub & Hids)].
    destruct ues; [| discriminate]. simpl in Hub.
    split.
    { destruct n; simpl; rewrite Hub, Z.eqb_refl; reflexivity. }
    split; [exact Hinv |]. split; [simpl; lia |]. split; [exact Hub | reflexivity].
  - destruct n as [| n]; [simpl in Hn; lia |].
    destruct (complete_one_spec fuel r free held c returned Hinv Hfuel)
      as (ds' & f' & s' & sv' & t' & E & Hs & Hne & Hinv1).
    set (r1 := vring.set_available_descriptors s' _) in *.
    destruct (IH n fuel r1 (reverse c ++ free) held Hinv1) as (r' & E' & Hinv' & Hs' & Ht' & Hk').
    + exact Hfuel.
    + simpl in Hn. lia.
    + exists r'. split.
      { cbn [vring.drain].
        replace (_ =? _) with false by (symmetry; apply Z.eqb_neq; congruence).
        rewrite E, bind_Ret. exact E'. }
      split.
      { simpl concat. rewrite reverse_app, <- app_assoc. exact Hinv'. }
      split.
      { rewrite Hs'. subst r1. simpl. rewrite Hs, length_app. lia. }
      split; [exact Ht' | exact Hk'].
Qed.

Lemma pool_inv_sizes r free held returned :
  pool_inv r free held returned ->
  Forall (fun c => c <> []) (held ++ returned) /\
  Z.of_nat (length free) + Z.of_nat (length (concat (held ++ returned)))
    = vring.size (vring._config r).
Proof.
  intros [_ _ Hch _ Hall _]. split.
  - eapply Forall_impl; [exact Hch |]. intros c Hc. eapply chain_nonempty. exact Hc.
  - rewrite length_app in Hall. lia.
Qed.

Lemma length_concat_ge {A : Type} (ls : list (list A)) :
  Forall (fun c => c <> []) ls -> (length ls <= length (concat ls))%nat.
Proof.
  induction 1 as [| c ls Hc _ IH]; simpl; [lia |]. rewrite length_app.
  destruct c; [congruence | simpl; lia].
Qed.

(** [do_complete] with enough fuel returns after one pass, every
    returned chain reclaimed. *)
Lemma do_complete_spec fuel r free held returned :
  pool_inv r free held returned ->
  vring.size (vring._config r) <= Z.of_nat fuel ->
  exists r',
    vring.do_complete fuel r = Ret r' /\
    pool_inv r' (reverse (concat returned) ++ free) held [] /\
    vring._available_descriptors r'
      = vring._available_descriptors r + Z.of_nat (length (concat returned)) /\
    vring._config r' = vring._config r /\
    vring._kick r' = vring._kick r /\
    vring.avail_layout._ring (vring._avail_shared r')
      = vring.avail_layout._ring (vring._avail_shared r) /\
    vring._avail_head r' = vring._avail_head r /\
    vring._used_shared r' = vring._used_shared r.
Proof.
  intros Hinv Hfuel.
  pose proof (ring_ok_size_pos r (inv_ok _ _ _ _ Hinv)) as Hpos.
  destruct (pool_inv_sizes _ _ _ _ Hinv) as [Hne Hsum].
  assert (Hret : (length returned <= fuel)%nat).
  { apply Forall_app in Hne as [_ Hne]. apply length_concat_ge in Hne.
    rewrite concat_app, length_app in Hsum. lia. }
  destruct fuel as [| fuel]; [lia |].
  set (r1 := vring.disable_interrupts r).
  assert (Hv1 : pool_view r1 = pool_view r /\ kept_view r1 = kept_view r /\
                vring._available_descriptors r1 = vring._available_descriptors r).
  { subst r1. unfold vring.disable_interrupts.
    destruct (vring.event_index _); auto. }
  destruct Hv1 as (Hv1 & Hk1 & Hs1).
  destruct (drain_spec returned (S fuel) (S fuel) r1 free held) as (r2 & E & Hinv2 & Hs2 & Ht2 & Hk2).
  { eapply pool_inv_ext; [exact Hv1 | exact Hinv]. }
  { replace (vring._config r1) with (vring._config r) by (injection Hv1; auto). exact Hfuel. }
  { exact Hret. }
  set (r3 := snd (vring.enable_interrupts r2)).
  assert (Hv3 : pool_view r3 = pool_view r2 /\ kept_view r3 = kept_view r2 /\
                vring._available_descriptors r3 = vring._available_descriptors r2).
  { subst r3. unfold vring.enable_interrupts.
    destruct (vring.event_index _); auto. }
  destruct Hv3 as (Hv3 & Hk3 & Hs3).
  exists r3. split.
  { unfold vring.do_complete. cbn [vring.do_complete_loop]. fold r1.
    rewrite E, bind_Ret. unfold vring.enable_interrupts.
    replace (vring.used_layout._idx _ =? vring._used_tail r2) with true.
    - reflexivity.
    - symmetry. apply Z.eqb_eq. rewrite Ht2.
      destruct (vring.event_index _); simpl; f_equal;
        injection Hk2; intros; congruence. }
  split; [eapply pool_inv_ext; [exact Hv3 | exact Hinv2] |].
  split; [lia |].
  assert (Hk : kept_view r3 = kept_view r) by congruence.
  injection Hk. intros. tauto.
Qed.

(** ** Posting chains keeps the accounts *)

Lemma perm_post (free : list Z) (n : nat) (held returned : list (list Z)) :
  drop n free ++ concat ((held ++ [reverse (take n free)]) ++ returned)
    ≡ₚ free ++ concat (held ++ returned).
Proof.
  rewrite <- (take_drop n free) at 3.
  rewrite !concat_app. simpl concat. rewrite app_nil_r, reverse_Permutation.
  rewrite <- !app_assoc.
  rewrite (app_assoc (drop n free) (concat held)).
  rewrite (Permutation_app_swap_app (drop n free ++ concat held) (take n free)).
  rewrite <- app_assoc. reflexivity.
Qed.

Lemma post_chain_inv bc r free held returned :
  pool_inv r free held returned -> bc <> [] ->
  (length bc <= length free)%nat ->
  exists r1,
    let c := reverse (take (length bc) free) in
    vring.post_chain bc r = Ret r1 /\
    pool_inv r1 (drop (length bc) free) (held ++ [c]) returned /\
    chain_posted (vring._descs r1) bc c /\
    vring.avail_layout._ring (vring._avail_shared r1)
      = <[Z.to_nat (Z.land (vring._avail_head r) (vring.mask r)) := hd 0 c]>
          (vring.avail_layout._ring (vring._avail_shared r)) /\
    vring._avail_head r1 = u16 (vring._avail_head r + 1) /\
    posted_view r1 = posted_view r.
Proof.
  intros Hinv Hne Hn. pose proof Hinv as [Hok Hfl Hch Hnd Hall Hu].
  set (n := length bc) in *.
  assert (Hnd_free : NoDup free) by (apply NoDup_app in Hnd; tauto).
  destruct (post_chain_spec bc r (take n free) (drop n free)) as (ds' & cs' & f' & E & Hcs & Hsame & Hfl' & Hp).
  - exact Hok.
  - rewrite length_take. lia.
  - rewrite take_drop. exact Hfl.
  - rewrite take_drop. exact Hnd_free.
  - eexists. cbv zeta. split; [exact E |].
    pose proof (mask_spec r (vring._avail_head r) Hok) as Hm. unfold vring.masked in Hm.
    rewrite Hm. cbn -[Z.modulo reverse take drop u16].
    split; [| split; [exact Hp | split; [reflexivity | split; reflexivity]]].
    pose proof (ring_ok_size_pos r Hok) as Hpos.
    destruct Hok as [Hsz Hd Hc Hr Hh Ht].
    constructor; cbn -[Z.modulo reverse take drop u16].
    + constructor; cbn -[Z.modulo reverse take drop u16]; try assumption.
      * destruct Hsame as [-> _]. exact Hd.
      * rewrite Hcs. exact Hc.
      * rewrite length_insert. exact Hr.
      * unfold u16. apply Z.mod_pos_bound. lia.
    + exact Hfl'.
    + rewrite <- app_assoc. apply Forall_app. split; [| apply Forall_cons; split].
      * apply Forall_app in Hch as [Hch _].
        rewrite Forall_forall in Hch |- *. intros c' Hc'.
        eapply chain_frame; [exact Hsame | | apply Hch; exact Hc'].
        intros i Hi Hin. apply NoDup_app in Hnd as (_ & Hdisj & _).
        apply (Hdisj i).
        -- rewrite <- (take_drop n free). apply elem_of_app. left. exact Hin.
        -- apply elem_of_concat. exists c'. split; [exact Hi |].
           apply elem_of_app. left. exact Hc'.
      * eapply chain_posted_chain; eassumption.
      * apply Forall_app in Hch as [_ Hch].
        rewrite Forall_forall in Hch |- *. intros c' Hc'.
        eapply chain_frame; [exact Hsame | | apply Hch; exact Hc'].
        intros i Hi Hin. apply NoDup_app in Hnd as (_ & Hdisj & _).
        apply (Hdisj i).
        -- rewrite <- (take_drop n free). apply elem_of_app. left. exact Hin.
        -- apply elem_of_concat. exists c'. split; [exact Hi |].
           apply elem_of_app. right. exact Hc'.
    + eapply NoDup_Permutation_proper; [apply perm_post | exact Hnd].
    + rewrite perm_post. exact Hall.
    + exact Hu.
Qed.

Lemma mod_shift_ne a d n : 0 < d < n -> a `mod` n <> (a + d) `mod` n.
Proof.
  intros Hd E.
  pose proof (Z.div_mod a n ltac:(lia)) as H1.
  pose proof (Z.div_mod (a + d) n ltac:(lia)) as H2.
  rewrite <- E in H2.
  assert (Hk : d = n * ((a + d) `div` n - a `div` n)) by lia.
  destruct (Z_lt_le_dec 0 ((a + d) `div` n - a `div` n)); nia.
Qed.

Lemma u16_mod_size r x :
  ring_ok r ->
  u16 x `mod` vring.size (vring._config r) = x `mod` vring.size (vring._config r).
Proof.
  intros [(k & Hk & ->) _ _ _ _ _]. unfold u16.
  apply Z.mod_mod_divide.
  exists (2 ^ (16 - k)). rewrite <- Z.pow_add_r by lia. f_equal. lia.
Qed.

Lemma land_mask r x :
  ring_ok r -> Z.land x (vring.mask r) = x `mod` vring.size (vring._config r).
Proof. intros Hok. apply (mask_spec r x Hok). Qed.

Lemma avail_slots_elem r m : forall head s,
  ring_ok r -> s ∈ avail_slots (vring.mask r) head m ->
  exists j, 0 <= j < Z.of_nat m /\ s = (head + j) `mod` vring.size (vring._config r).
Proof.
  induction m as [| m IH]; intros head s Hok Hs; [inversion Hs |].
  pose proof (ring_ok_size_pos r Hok) as Hpos.
  cbn [avail_slots] in Hs. apply elem_of_cons in Hs as [-> | Hs].
  - exists 0. split; [lia |]. rewrite Z.add_0_r. apply land_mask. exact Hok.
  - destruct (IH _ _ Hok Hs) as (j & Hj & ->). exists (j + 1). split; [lia |].
    rewrite Z.add_mod by lia. rewrite u16_mod_size by exact Hok.
    rewrite <- Z.add_mod by lia. f_equal. lia.
Qed.

Lemma avail_slot_fresh r head m :
  ring_ok r -> Z.of_nat m < vring.size (vring._config r) ->
  Z.land head (vring.mask r) ∉ avail_slots (vring.mask r) (u16 (head + 1)) m.
Proof.
  intros Hok Hm Hin. pose proof (ring_ok_size_pos r Hok) as Hpos.
  destruct (avail_slots_elem r m _ _ Hok Hin) as (j & Hj & E).
  rewrite land_mask in E by exact Hok.
  rewrite Z.add_mod, u16_mod_size, <- Z.add_mod in E by (exact Hok || lia).
  apply (mod_shift_ne head (1 + j) (vring.size (vring._config r))); [lia |].
  rewrite E. f_equal. lia.
Qed.

Lemma avail_between_frame ring ring' msk hs : forall head,
  (forall s, s ∈ avail_slots msk head (length hs) -> at_index ring' s = at_index ring s) ->
  avail_between ring msk head hs -> avail_between ring' msk head hs.
Proof.
  induction hs as [| h hs IH]; intros head Hsame H; [exact I |].
  destruct H as [H1 H2]. split.
  - rewrite Hsame; [exact H1 |]. apply list_elem_of_here.
  - apply IH; [| exact H2]. intros s Hs. apply Hsame.
    apply list_elem_of_further. exact Hs.
Qed.

(** Two lists of heads read from the same slots are the same. *)
Lemma avail_between_unique ring msk hs1 : forall head hs2,
  length hs1 = length hs2 ->
  avail_between ring msk head hs1 -> avail_between ring msk head hs2 -> hs1 = hs2.
Proof.
  induction hs1 as [| h1 hs1 IH]; intros head [| h2 hs2] Hl H1 H2; try discriminate.
  - reflexivity.
  - destruct H1 as [E1 H1], H2 as [E2 H2]. injection Hl as Hl.
    f_equal; [congruence | eapply IH; eassumption].
Qed.

Lemma posts_spec chains : forall r free held returned,
  pool_inv r free held returned ->
  Forall (fun bc => bc <> []) chains ->
  (length (concat chains) <= length free)%nat ->
  exists r' news,
    for_each vring.post_chain chains r = Ret r' /\
    pool_inv r' (drop (length (concat chains)) free) (held ++ news) returned /\
    length news = length chains /\
    avail_between (vring.avail_layout._ring (vring._avail_shared r'))
      (vring.mask r) (vring._avail_head r) (map (hd 0) news) /\
    (forall s, s ∉ avail_slots (vring.mask r) (vring._avail_head r) (length chains) ->
       at_index (vring.avail_layout._ring (vring._avail_shared r')) s
         = at_index (vring.avail_layout._ring (vring._avail_shared r)) s) /\
    posted_view r' = posted_view r.
Proof.
  induction chains as [| bc chains IH]; intros r free held returned Hinv Hne Hn.
  - exists r, []. simpl. rewrite app_nil_r, drop_0. auto 10.
  - apply Forall_cons in Hne as [Hbc Hne].
    simpl concat in Hn. rewrite length_app in Hn.
    destruct (post_chain_inv bc r free held returned Hinv Hbc ltac:(lia))
      as (r1 & E1 & Hinv1 & _ & Hring1 & Hhead1 & Hv1).
    cbv zeta in *. set (c := reverse (take (length bc) free)) in *.
    destruct (IH r1 (drop (length bc) free) (held ++ [c]) returned Hinv1 Hne)
      as (r' & news & E & Hinv' & Hlen & Hab & Hout & Hv).
    { rewrite length_drop. lia. }
    assert (Hcfg : vring._config r1 = vring._config r) by (injection Hv1; auto).
    assert (Hmask : vring.mask r1 = vring.mask r) by (unfold vring.mask; rewrite Hcfg; reflexivity).
    rewrite Hmask, Hhead1 in Hab, Hout.
    pose proof (inv_ok _ _ _ _ Hinv) as Hok.
    pose proof (ring_ok_size_pos r Hok) as Hpos.
    destruct (pool_inv_sizes _ _ _ _ Hinv) as [_ Hsum].
    assert (Hm : Z.of_nat (length chains) < vring.size (vring._config r)).
    { assert (length chains <= length (concat chains))%nat.
      { apply length_concat_ge. exact Hne. }
      pose proof (proj1 (Nat.neq_0_lt_0 (length bc))) as Hb.
      assert (length bc <> 0%nat) by (destruct bc; [congruence | discriminate]).
      lia. }
    assert (Hslot : 0 <= Z.land (vring._avail_head r) (vring.mask r)
                    < Z.of_nat (length (vring.avail_layout._ring (vring._avail_shared r)))).
    { rewrite land_mask by exact Hok. rewrite (ok_ring r Hok).
      apply Z.mod_pos_bound. exact Hpos. }
    exists r', (c :: news). split; [simpl; rewrite E1; exact E |].
    split.
    { simpl concat. rewrite length_app, <- drop_drop, <- app_assoc in *. exact Hinv'. }
    split; [simpl; congruence |]. split; [| split].
    + split; [| exact Hab]. simpl hd.
      rewrite Hout by (apply avail_slot_fresh; assumption).
      rewrite Hring1. apply at_index_insert_eq. exact Hslot.
    + intros s Hs. cbn [length avail_slots] in Hs. apply not_elem_of_cons in Hs as [Hs1 Hs2].
      rewrite (Hout s Hs2), Hring1. apply at_index_insert_ne; [lia | congruence].
    + congruence.
Qed.

(** ** Construction *)

Lemma frees_spec l : forall r l0,
  Z.of_nat (length (vring._descs r)) <= 65535 ->
  NoDup (l ++ l0) ->
  (forall i, i ∈ l -> 0 <= i < Z.of_nat (length (vring._descs r))) ->
  free_list (vring._descs r) (vring._free_desc r) l0 ->
  exists ds' f' s',
    for_each vring.free_desc l r =
      Ret (vring.set_available_descriptors s'
             (vring.set_free_desc f' (vring.set_descs ds' r))) /\
    s' = vring._available_descriptors r + Z.of_nat (length l) /\
    length ds' = length (vring._descs r) /\
    free_list ds' f' (reverse l ++ l0).
Proof.
  induction l as [| i l IH]; intros r l0 Hlen Hnd Hrange Hfl.
  - exists (vring._descs r), (vring._free_desc r), (vring._available_descriptors r).
    split; [destruct r; reflexivity |]. split; [simpl; lia |]. split; [reflexivity | exact Hfl].
  - destruct (at_index_in_range (vring._descs r) i) as [d Hd].
    { apply Hrange. apply list_elem_of_here. }
    change ((i :: l) ++ l0) with (i :: (l ++ l0)) in Hnd.
    apply NoDup_cons in Hnd as [Hi Hnd]. rewrite not_elem_of_app in Hi.
    cbn [for_each]. rewrite (free_desc_spec _ _ _ Hd), bind_Ret.
    set (r1 := vring.set_available_descriptors _ _).
    destruct (IH r1 (i :: l0)) as (ds' & f' & s' & E & Hs & Hl & Hfl').
    + subst r1. simpl. rewrite length_insert. exact Hlen.
    + eapply NoDup_Permutation_proper; [| apply NoDup_cons; split; [| exact Hnd]].
      * symmetry. apply Permutation_middle.
      * rewrite not_elem_of_app. tauto.
    + intros j Hj. subst r1. simpl. rewrite length_insert. apply Hrange.
      apply list_elem_of_further. exact Hj.
    + subst r1. simpl. apply free_desc_free_list; tauto.
    + exists ds', f', s'. split; [rewrite E; reflexivity |].
      split; [rewrite Hs; subst r1; simpl; simpl length; lia |].
      split; [rewrite Hl; subst r1; simpl; apply length_insert |].
      rewrite reverse_cons, <- app_assoc. exact Hfl'.
Qed.

Lemma new_spec conf completions descs avail used :
  (exists k, 0 <= k <= 15 /\ vring.size conf = 2 ^ k) ->
  Z.of_nat (length descs) = vring.size conf ->
  Z.of_nat (length completions) = vring.size conf ->
  Z.of_nat (length (vring.avail_layout._ring avail)) = vring.size conf ->
  vring.used_layout._idx used = 0 ->
  exists r,
    vring.new conf completions descs avail used = Ret r /\
    pool_inv r (reverse (seqZ 0 (vring.size conf))) [] [] /\
    vring._available_descriptors r = vring.size conf /\
    vring._config r = conf.
Proof.
  intros Hsz Hd Hc Hr Hu.
  assert (Hsmall : 0 < vring.size conf <= 2 ^ 15).
  { destruct Hsz as (k & Hk & ->). split; [apply Z.pow_pos_nonneg; lia |].
    apply Z.pow_le_mono_r; lia. }
  set (r0 := vring.mk conf 0 completions descs avail 0 0 used 0 0 (-1) []).
  destruct (frees_spec (seqZ 0 (vring.size conf)) r0 []) as (ds' & f' & s' & E & Hs & Hl & Hfl).
  - simpl. lia.
  - rewrite app_nil_r. apply NoDup_seqZ.
  - intros i Hi. apply elem_of_seqZ in Hi. simpl. lia.
  - left. reflexivity.
  - eexists. split; [exact E |]. rewrite app_nil_r in Hfl.
    split; [| split; [| reflexivity]].
    + constructor; simpl.
      * constructor; simpl; try assumption; try lia. rewrite Hl. exact Hd.
      * exact Hfl.
      * constructor.
      * rewrite app_nil_r, reverse_Permutation. apply NoDup_seqZ.
      * rewrite app_nil_r, length_reverse, length_seqZ. lia.
      * exists []. split; [simpl; congruence | reflexivity].
    + simpl. rewrite Hs. simpl. rewrite length_seqZ. lia.
Qed.

(** ** [post] as a whole *)

Lemma kick_views r :
  pool_view (vring.kick r) = pool_view r /\
  vring._available_descriptors (vring.kick r) = vring._available_descriptors r /\
  vring.avail_layout._ring (vring._avail_shared (vring.kick r))
    = vring.avail_layout._ring (vring._avail_shared r).
Proof. destruct (kick_cases r) as [-> | ->]; auto. Qed.

Lemma post_spec fuel chains r free held returned :
  pool_inv r free held returned ->
  vring._available_descriptors r = Z.of_nat (length free) ->
  Forall (fun bc => bc <> []) chains ->
  (length (concat chains) <= length free)%nat ->
  vring.size (vring._config r) <= Z.of_nat fuel ->
  exists r' news,
    vring.post fuel chains
      (vring.set_available_descriptors
         (vring._available_descriptors r - Z.of_nat (length (concat chains))) r)
      = Ret r' /\
    pool_inv r' (reverse (concat returned) ++ drop (length (concat chains)) free)
      (held ++ news) [] /\
    vring._available_descriptors r'
      = Z.of_nat (length (reverse (concat returned)
                          ++ drop (length (concat chains)) free)) /\
    length news = length chains /\
    avail_between (vring.avail_layout._ring (vring._avail_shared r'))
      (vring.mask r) (vring._avail_head r) (map (hd 0) news) /\
    vring._config r' = vring._config r.
Proof.
  intros Hinv Hsem Hne Hn Hfuel.
  set (r1 := vring.set_available_descriptors _ r).
  assert (Hinv1 : pool_inv r1 free held returned).
  { eapply pool_inv_ext; [| exact Hinv]. reflexivity. }
  destruct (posts_spec chains r1 free held returned Hinv1 Hne Hn)
    as (r2 & news & E2 & Hinv2 & Hlen & Hab & _ & Hv2).
  set (r3 := vring.set_avail_shared
               (vring.avail_layout.set_idx (vring._avail_head r2) (vring._avail_shared r2)) r2).
  destruct (kick_views r3) as (Hkv & Hks & Hkr).
  assert (Hcfg2 : vring._config r2 = vring._config r) by (injection Hv2; auto).
  destruct (do_complete_spec fuel (vring.kick r3)
              (drop (length (concat chains)) free) (held ++ news) returned)
    as (r' & E & Hinv' & Hs' & Hc' & _ & Hr' & _ & _).
  { eapply pool_inv_ext; [exact Hkv |].
    eapply pool_inv_ext; [| exact Hinv2]. reflexivity. }
  { replace (vring._config (vring.kick r3)) with (vring._config r);
      [exact Hfuel |].
    injection Hkv. intros. subst r3. simpl in *. congruence. }
  exists r', news. split.
  { unfold vring.post. fold r1. rewrite E2, bind_Ret. exact E. }
  split; [exact Hinv' |]. split.
  { rewrite Hs', Hks. subst r3. simpl.
    replace (vring._available_descriptors r2) with (vring._available_descriptors r1)
      by (injection Hv2; auto).
    subst r1. simpl. rewrite Hsem, !length_app, length_reverse, length_drop. lia. }
  split; [exact Hlen |]. split.
  { rewrite Hr', Hkr. exact Hab. }
  rewrite Hc'. injection Hkv. intros. subst r3. simpl in *. congruence.
Qed.

(** ** The accounts at every quiescent point *)

Lemma concat_Permutation {A : Type} (l1 l2 : list (list A)) :
  l1 ≡ₚ l2 -> concat l1 ≡ₚ concat l2.
Proof.
  induction 1 as [| x l1 l2 _ IH | x y l | l1 l2 l3 _ IH1 _ IH2]; simpl.
  - reflexivity.
  - rewrite IH. reflexivity.
  - apply Permutation_app_swap_app.
  - etransitivity; eassumption.
Qed.

Lemma perm_host {A : Type} (held1 held2 returned : list A) (c : A) :
  (held1 ++ held2) ++ returned ++ [c] ≡ₚ (held1 ++ c :: held2) ++ returned.
Proof.
  rewrite <- !app_assoc. apply Permutation_app_head.
  rewrite (app_assoc held2 returned), (Permutation_app_comm _ [c]). reflexivity.
Qed.

Lemma chains_unique ds (l1 : list (list Z)) : forall l2,
  map (hd 0) l1 = map (hd 0) l2 ->
  Forall (fun c => chain ds (hd 0 c) c) l1 ->
  Forall (fun c => chain ds (hd 0 c) c) l2 -> l1 = l2.
Proof.
  induction l1 as [| c1 l1 IH]; intros [| c2 l2] Hh H1 H2; try discriminate.
  - reflexivity.
  - injection Hh as Hh Hrest.
    apply Forall_cons in H1 as [Hc1 H1]. apply Forall_cons in H2 as [Hc2 H2].
    rewrite <- Hh in Hc2. f_equal; [eapply chain_unique; eassumption | auto].
Qed.

Lemma quiescent_inv r held returned :
  quiescent r held returned ->
  exists free,
    pool_inv r free held returned /\
    vring._available_descriptors r = Z.of_nat (length free).
Proof.
  induction 1 as
    [conf completions descs avail used r Hsz Hd Hc Hr Hu Hnew
    | r held returned fuel chains r1 r' new_chains _ IH Hfuel Hne Hwait Hpost Hlen Hab Hch
    | r held1 c held2 returned used' ues _ IH Hub Hids
    | r held returned fuel r' _ IH Hfuel Hdone].
  - destruct (new_spec conf completions descs avail used Hsz Hd Hc Hr Hu)
      as (r0 & E & Hinv & Hs & Hcfg).
    assert (r = r0) by congruence. subst r0.
    eexists. split; [rewrite <- Hcfg in Hinv; exact Hinv |].
    rewrite Hs, length_reverse, length_seqZ, Hcfg.
    destruct Hsz as (k & Hk & ->). pose proof (Z.pow_pos_nonneg 2 k). lia.
  - destruct IH as (free & Hinv & Hsem).
    unfold semaphore.try_wait, semaphore.current in Hwait.
    destruct (decide _) as [Hn |]; [| discriminate]. injection Hwait as <-.
    assert (Hn' : (length (concat chains) <= length free)%nat) by lia.
    destruct (post_spec fuel chains r free held returned Hinv Hsem Hne Hn' Hfuel)
      as (r0 & news & E & Hinv' & Hs' & Hlen' & Hab' & Hcfg).
    assert (r' = r0) by congruence. subst r0.
    assert (new_chains = news).
    { apply (chains_unique (vring._descs r')).
      - eapply avail_between_unique; [| exact Hab | exact Hab'].
        rewrite !length_map. congruence.
      - exact Hch.
      - pose proof (inv_chains _ _ _ _ Hinv') as Hall.
        rewrite app_nil_r in Hall. apply Forall_app in Hall. tauto. }
    subst news. eexists. split; [exact Hinv' | exact Hs'].
  - destruct IH as (free & Hinv & Hsem). exists free. split; [| exact Hsem].
    destruct Hinv as [[Hsz Hd Hc Hr Hh Ht] Hfl Hch Hnd Hall _].
    constructor; simpl.
    + constructor; simpl; assumption.
    + exact Hfl.
    + rewrite perm_host. exact Hch.
    + eapply NoDup_Permutation_proper; [| exact Hnd].
      apply Permutation_app_head, concat_Permutation, perm_host.
    + rewrite <- Hall. f_equal. apply Permutation_length.
      apply Permutation_app_head, concat_Permutation, perm_host.
    + exists ues. split; [exact Hub | exact Hids].
  - destruct IH as (free & Hinv & Hsem).
    destruct (do_complete_spec fuel r free held returned Hinv Hfuel)
      as (r0 & E & Hinv' & Hs' & _).
    assert (r' = r0) by congruence. subst r0.
    eexists. split; [exact Hinv' |].
    rewrite Hs', Hsem, !length_app, length_reverse. lia.
Qed.

Lemma free_descs_spec r free held returned :
  pool_inv r free held returned -> free_descs r = free.
Proof.
  intros Hinv. unfold free_descs. apply free_walk_spec.
  - apply ring_ok_descs. exact (inv_ok _ _ _ _ Hinv).
  - exact (inv_free _ _ _ _ Hinv).
  - destruct (pool_inv_sizes _ _ _ _ Hinv) as [_ Hsum].
    pose proof (ok_descs r (inv_ok _ _ _ _ Hinv)). lia.
Qed.

(** C5.  Descriptor accounting.  At every quiescent point of a ring the
    free descriptors and the descriptors of the chains in flight add up
    to size, and the semaphore counts the free ones; so with no chain in
    flight the semaphore count is size.  Every chain in flight is linked
    from its head through next while HAS_NEXT, and the used elements not
    yet consumed name the heads of the returned chains.  [do_complete],
    given size units of fuel, returns; it walks every returned chain and
    puts each of its descriptors back on the free list exactly once (the
    free list afterwards is the returned descriptors, last freed first,
    in front of the old free list, without repetition), and it releases
    one semaphore permit per descriptor freed. *)
Theorem C5_descriptor_accounting (r : vring.t) (held returned : list (list Z)) :
  quiescent r held returned ->
  free_count r + in_flight held returned = vring.size (vring._config r) /\
  vring._available_descriptors r = free_count r /\
  (held = [] -> returned = [] ->
   vring._available_descriptors r = vring.size (vring._config r)) /\
  Forall (fun c => chain (vring._descs r) (hd 0 c) c) (held ++ returned) /\
  (exists ues,
     used_between (vring._used_shared r) (vring.mask r) (vring._used_tail r)
       (vring.used_layout._idx (vring._used_shared r)) ues /\
     map vring.used_elem._id ues = map (hd 0) returned) /\
  (forall fuel, vring.size (vring._config r) <= Z.of_nat fuel ->
   exists r',
     vring.do_complete fuel r = Ret r' /\
     quiescent r' held [] /\
     free_descs r' = reverse (concat returned) ++ free_descs r /\
     NoDup (free_descs r') /\
     vring._available_descriptors r'
       = vring._available_descriptors r + Z.of_nat (length (concat returned))).
Proof.
  intros Hq. destruct (quiescent_inv r held returned Hq) as (free & Hinv & Hsem).
  pose proof (free_descs_spec _ _ _ _ Hinv) as Hfree.
  destruct (pool_inv_sizes _ _ _ _ Hinv) as [_ Hsum].
  unfold free_count, in_flight. rewrite Hfree.
  split; [exact Hsum |]. split; [exact Hsem |]. split; [| split; [| split]].
  - intros -> ->. simpl in Hsum. lia.
  - exact (inv_chains _ _ _ _ Hinv).
  - exact (inv_used _ _ _ _ Hinv).
  - intros fuel Hfuel.
    destruct (do_complete_spec fuel r free held returned Hinv Hfuel)
      as (r' & E & Hinv' & Hs' & _).
    exists r'. split; [exact E |].
    split; [eapply q_complete; eassumption |].
    rewrite (free_descs_spec _ _ _ _ Hinv').
    split; [reflexivity |]. split; [| exact Hs'].
    pose proof (inv_nodup _ _ _ _ Hinv') as Hnd.
    apply NoDup_app in Hnd. tauto.
Qed.

(** From a quiescent point a [post] of non-empty chains within the
    permits available returns, at a quiescent point again. *)
Lemma quiescent_post fuel chains r held returned :
  quiescent r held returned ->
  Forall (fun bc => bc <> []) chains ->
  Z.of_nat (length (concat chains)) <= vring._available_descriptors r ->
  vring.size (vring._config r) <= Z.of_nat fuel ->
  exists r1 r' news,
    semaphore.try_wait (Z.of_nat (length (concat chains))) r = Some r1 /\
    vring.post fuel chains r1 = Ret r' /\
    quiescent r' (held ++ news) [] /\
    vring._available_descriptors r'
      = vring._available_descriptors r - Z.of_nat (length (concat chains))
        + Z.of_nat (length (concat returned)).
Proof.
  intros Hq Hne Hn Hfuel.
  destruct (quiescent_inv r held returned Hq) as (free & Hinv & Hsem).
  assert (Hn' : (length (concat chains) <= length free)%nat) by lia.
  destruct (post_spec fuel chains r free held returned Hinv Hsem Hne Hn' Hfuel)
    as (r' & news & E & Hinv' & Hs' & Hlen' & Hab' & Hcfg).
  eexists _, r', news. split.
  { unfold semaphore.try_wait, semaphore.current. rewrite decide_True by exact Hn.
    reflexivity. }
  split; [exact E |]. split.
  - eapply q_post; try eassumption.
    + unfold semaphore.try_wait, semaphore.current. rewrite decide_True by exact Hn.
      reflexivity.
    + pose proof (inv_chains _ _ _ _ Hinv') as Hall.
      rewrite app_nil_r in Hall. apply Forall_app in Hall. tauto.
  - rewrite Hs', Hsem, !length_app, length_reverse, length_drop. lia.
Qed.

(** ** Protocol violations *)

Lemma bind_Abort {A B : Type} (m : outcome A) (f : A -> outcome B) :
  m ≫= f = Abort -> m = Abort \/ exists a, m = Ret a /\ f a = Abort.
Proof. destruct m; simpl; intros H; try discriminate; eauto. Qed.

Lemma at_index_not_Abort {A : Type} (a : list A) i : at_index a i <> Abort.
Proof.
  unfold at_index. destruct (decide _); [| discriminate].
  destruct (a !! _); discriminate.
Qed.

Lemma store_not_Abort {A : Type} (a : list A) i x : store a i x <> Abort.
Proof. unfold store. destruct (decide _); discriminate. Qed.

Lemma free_desc_not_Abort id r : vring.free_desc id r <> Abort.
Proof.
  unfold vring.free_desc. intros [H | (d & _ & H)]%bind_Abort.
  - exact (at_index_not_Abort _ _ H).
  - apply bind_Abort in H as [H | (ds & _ & H)]; [| discriminate].
    exact (store_not_Abort _ _ _ H).
Qed.

Lemma free_chain_not_Abort fuel : forall id r, vring.free_chain fuel id r <> Abort.
Proof.
  induction fuel as [| fuel IH]; intros id r; [discriminate |].
  cbn [vring.free_chain]. intros [H | (d & _ & H)]%bind_Abort.
  - exact (at_index_not_Abort _ _ H).
  - apply bind_Abort in H as [H | (r1 & _ & H)].
    + exact (free_desc_not_Abort _ _ H).
    + destruct (vring.desc.has_next _); [exact (IH _ _ H) | discriminate].
Qed.

Lemma complete_one_not_Abort fuel r : vring.complete_one fuel r <> Abort.
Proof.
  unfold vring.complete_one. intros [H | (ue & _ & H)]%bind_Abort.
  - exact (at_index_not_Abort _ _ H).
  - apply bind_Abort in H as [H | (p & _ & H)].
    + exact (at_index_not_Abort _ _ H).
    + exact (free_chain_not_Abort _ _ _ H).
Qed.

Lemma drain_not_Abort n : forall fuel used_head r,
  vring.drain n fuel used_head r <> Abort.
Proof.
  induction n as [| n IH]; intros fuel used_head r; cbn [vring.drain];
    destruct (_ =? _); try discriminate.
  intros [H | (r1 & _ & H)]%bind_Abort.
  - exact (complete_one_not_Abort _ _ H).
  - exact (IH _ _ _ H).
Qed.

Lemma do_complete_loop_not_Abort n : forall fuel r,
  vring.do_complete_loop n fuel r <> Abort.
Proof.
  induction n as [| n IH]; intros fuel r; [discriminate |].
  cbn [vring.do_complete_loop]. intros [H | (r2 & _ & H)]%bind_Abort.
  - exact (drain_not_Abort _ _ _ _ H).
  - destruct (vring.enable_interrupts r2) as [[|] r3]; [exact (IH _ _ H) | discriminate].
Qed.

Lemma do_complete_bad_id fuel r ue :
  (1 <= fuel)%nat ->
  vring._used_tail r <> vring.used_layout._idx (vring._used_shared r) ->
  at_index (vring.used_layout._used_elements (vring._used_shared r))
           (vring.masked r (vring._used_tail r)) = Ret ue ->
  ~ 0 <= vring.used_elem._id ue < Z.of_nat (length (vring._completions r)) ->
  vring.do_complete fuel r = Undefined.
Proof.
  intros Hfuel Hne Hue Hid. destruct fuel as [| fuel]; [lia |].
  unfold vring.do_complete. cbn [vring.do_complete_loop vring.drain].
  assert (E : forall r1, r1 = vring.disable_interrupts r ->
            vring._used_shared r1 = vring._used_shared r /\
            vring._used_tail r1 = vring._used_tail r /\
            vring._completions r1 = vring._completions r /\
            vring.mask r1 = vring.mask r).
  { intros r1 ->. unfold vring.disable_interrupts.
    destruct (vring.event_index _); auto. }
  destruct (E _ eq_refl) as (E1 & E2 & E3 & E4).
  rewrite E1, E2.
  replace (_ =? _) with false by (symmetry; apply Z.eqb_neq; congruence).
  unfold vring.complete_one, vring.masked. rewrite E1, E2, E4.
  unfold vring.masked in Hue. rewrite Hue, bind_Ret.
  cbn [vring._completions vring.set_used_tail]. rewrite E3.
  rewrite (at_index_outside _ _ Hid). reflexivity.
Qed.

(** C2.  What is fatal.  A first-buffer header with num_buffers = 0 makes
    the receive handler abort (its assertion).  [do_complete] has no
    abort path at all: it checks neither the id of a used element nor
    the links of the chain it walks; an id outside the completion array
    indexes it out of bounds, which is undefined behaviour and not an
    abort. *)
Theorem C2_fatal_violations :
  (forall d nb buf len q,
     _remaining_buffers q = 0 -> nb = 0 -> rx_completed d nb buf len q = Abort) /\
  (forall fuel r, vring.do_complete fuel r <> Abort) /\
  (forall fuel r ue,
     (1 <= fuel)%nat ->
     vring._used_tail r <> vring.used_layout._idx (vring._used_shared r) ->
     at_index (vring.used_layout._used_elements (vring._used_shared r))
              (vring.masked r (vring._used_tail r)) = Ret ue ->
     ~ 0 <= vring.used_elem._id ue < Z.of_nat (length (vring._completions r)) ->
     vring.do_complete fuel r = Undefined).
Proof.
  split; [| split].
  - intros d nb buf len q Hrem ->. apply rx_completed_abort. split; [exact Hrem | lia].
  - intros fuel r. apply do_complete_loop_not_Abort.
  - apply do_complete_bad_id.
Qed.

(** A zero num_buffers in a first header aborts; an id of 4 on the ring
    of four descriptors does not. *)
Lemma C2_fatal_violations_witness :
  rx_completed dev_mrg 0 4096 100 rxq_idle = Abort /\
  vring.do_complete 4 ring4_bad_id = Undefined.
Proof.
  destruct C2_fatal_violations as (H1 & _ & H3). split.
  - apply H1; reflexivity.
  - apply (H3 4%nat ring4_bad_id (vring.used_elem.mk 4 76)).
    + lia.
    + vm_compute. discriminate.
    + reflexivity.
    + vm_compute. intros [_ H]. discriminate H.
Defined.

(** C2 as the spec words it fails for two of its three violations.  On
    the ring of four descriptors a used element with id 4 is not
    answered by an abort: the completion array is indexed out of bounds.
    A chain that loops between descriptors 0 and 1 is not answered by an
    abort either: [do_complete] returns, having walked the loop until it
    left it through a freed descriptor, with six permits on a ring of
    four. *)
Lemma C2_counterexample :
  vring.size (vring._config ring4_bad_id) = 4 /\
  vring.used_elem._id <$>
    at_index (vring.used_layout._used_elements (vring._used_shared ring4_bad_id))
      (vring.masked ring4_bad_id (vring._used_tail ring4_bad_id)) = Ret 4 /\
  vring.do_complete 4 ring4_bad_id = Undefined /\
  vring.do_complete 4 ring4_bad_id <> Abort /\
  vring._available_descriptors <$> vring.do_complete 4 ring4_cycle = Ret 6 /\
  vring.do_complete 4 ring4_cycle <> Abort.
Proof. vm_compute. repeat split; discriminate. Qed.

Lemma ring4_ok : ring_ok ring4.
Proof.
  constructor; try reflexivity; try (vm_compute; split; [discriminate | reflexivity]).
  exists 2. split; [lia | reflexivity].
Qed.

Lemma ring4_free_list :
  free_list (vring._descs ring4) (vring._free_desc ring4) [3; 2; 1; 0].
Proof. simpl. repeat (split; [reflexivity |]; eexists; split; [reflexivity |]). auto. Qed.

Lemma NoDup_3210 : NoDup [3; 2; 1; 0].
Proof. apply (bool_decide_unpack _). vm_compute. exact I. Qed.


Lemma ring4_quiescent : quiescent ring4 [] [].
Proof.
  apply (q_new conf4 (replicate 4 promise_default) (replicate 4 (desc_free 0))
           avail4 used4); try reflexivity.
  exists 2. split; [lia | reflexivity].
Qed.

Lemma ring4_posted_quiescent : quiescent ring4_posted [[2; 3]] [].
Proof.
  apply (q_post ring4 [] [] 4%nat [bc2] (vring.set_available_descriptors 2 ring4)
           ring4_posted [[2; 3]] ring4_quiescent).
  - simpl. lia.
  - repeat constructor. discriminate.
  - reflexivity.
  - reflexivity.
  - reflexivity.
  - simpl. auto.
  - repeat constructor; simpl; try reflexivity.
    eexists. split; [reflexivity |]. split; [reflexivity |].
    split; [reflexivity |]. eexists. split; reflexivity.
Qed.

Lemma ring4_returned_quiescent : quiescent ring4_returned [] [[2; 3]].
Proof.
  apply (q_host ring4_posted [] [2; 3] [] [] (used4_one 2 76)
           [vring.used_elem.mk 2 76] ring4_posted_quiescent).
  - simpl. split; [discriminate |]. split; reflexivity.
  - reflexivity.
Qed.

(** The ring of four with the two-descriptor chain handed back by the
    host: two descriptors are free and two in flight; [do_complete]
    returns with the four descriptors free and four permits. *)
Lemma C5_descriptor_accounting_witness :
  quiescent ring4_returned [] [[2; 3]] /\
  free_count ring4_returned = 2 /\
  in_flight [] [[2; 3]] = 2 /\
  vring._available_descriptors ring4_returned = 2 /\
  exists r',
    vring.do_complete 4 ring4_returned = Ret r' /\
    free_descs r' = [3; 2; 1; 0] /\
    vring._available_descriptors r' = 4.
Proof.
  destruct (C5_descriptor_accounting ring4_returned [] [[2; 3]] ring4_returned_quiescent)
    as (Hsum & Hsem & _ & _ & _ & Hdone).
  split; [exact ring4_returned_quiescent |].
  change (in_flight [] [[2; 3]]) with 2 in *.
  change (vring.size (vring._config ring4_returned)) with 4 in *.
  split; [lia |]. split; [reflexivity |]. split; [lia |].
  destruct (Hdone 4%nat) as (r' & E & _ & Hfree & _ & Hs); [lia |].
  exists r'. split; [exact E |]. split.
  - rewrite Hfree. reflexivity.
  - rewrite Hs. reflexivity.
Defined.

(** * Further properties of the code *)

(** ** [do_complete] on any ring *)

Lemma bind_Ret_inv {A B : Type} (m : outcome A) (f : A -> outcome B) (b : B) :
  m ≫= f = Ret b -> exists a, m = Ret a /\ f a = Ret b.
Proof. destruct m; simpl; intros H; try discriminate; eauto. Qed.

Lemma store_Ret_inv {A : Type} (a a' : list A) i x :
  store a i x = Ret a' ->
  0 <= i < Z.of_nat (length a) /\ a' = <[Z.to_nat i := x]> a.
Proof.
  unfold store. destruct (decide _) as [H |]; [| discriminate].
  intros E. injection E as <-. auto.
Qed.

Lemma free_desc_inv id r r' :
  vring.free_desc id r = Ret r' ->
  exists d,
    at_index (vring._descs r) id = Ret d /\
    r' = vring.set_available_descriptors (vring._available_descriptors r + 1)
           (vring.set_free_desc id
              (vring.set_descs
                 (<[Z.to_nat id := vring.desc.set_next (u16 (vring._free_desc r)) d]>
                    (vring._descs r)) r)).
Proof.
  intros H. pose proof H as H0. unfold vring.free_desc in H.
  apply bind_Ret_inv in H as (d & Hd & _). exists d. split; [exact Hd |].
  rewrite (free_desc_spec _ _ _ Hd) in H0. congruence.
Qed.

Lemma free_desc_keeps id r r' :
  vring.free_desc id r = Ret r' -> unfreed_view r' = unfreed_view r.
Proof. intros (d & _ & ->)%free_desc_inv. reflexivity. Qed.

Lemma free_chain_keeps fuel : forall id r r',
  vring.free_chain fuel id r = Ret r' -> unfreed_view r' = unfreed_view r.
Proof.
  induction fuel as [| fuel IH]; intros id r r' H; [discriminate |].
  cbn [vring.free_chain] in H.
  apply bind_Ret_inv in H as (d & _ & H).
  apply bind_Ret_inv in H as (r1 & H1 & H).
  apply free_desc_keeps in H1.
  destruct (vring.desc.has_next _).
  - rewrite (IH _ _ _ H). exact H1.
  - congruence.
Qed.

(** One used element: the promise in the slot of its id gets its len. *)
Lemma complete_one_inv fuel r r1 :
  vring.complete_one fuel r = Ret r1 ->
  exists ue p,
    at_index (vring.used_layout._used_elements (vring._used_shared r))
             (Z.land (vring._used_tail r) (vring.mask r)) = Ret ue /\
    at_index (vring._completions r) (vring.used_elem._id ue) = Ret p /\
    vring.set_values r1 = vring.set_values r ++ [(p, vring.used_elem._len ue)] /\
    vring._used_tail r1 = u16 (vring._used_tail r + 1) /\
    undrained_view r1 = undrained_view r.
Proof.
  intros H. unfold vring.complete_one, vring.masked in H.
  apply bind_Ret_inv in H as (ue & Hue & H).
  apply bind_Ret_inv in H as (p & Hp & H).
  apply free_chain_keeps in H. exists ue, p.
  split; [exact Hue |]. split; [exact Hp |].
  unfold unfreed_view in H. simpl in H. injection H. intros.
  unfold undrained_view. repeat split; congruence.
Qed.

Lemma used_between_unique us msk ues1 : forall tail head ues2,
  used_between us msk tail head ues1 -> used_between us msk tail head ues2 ->
  ues1 = ues2.
Proof.
  induction ues1 as [| ue1 ues1 IH]; intros tail head [| ue2 ues2] H1 H2; simpl in *.
  - reflexivity.
  - destruct H2 as [H2 _]. contradiction.
  - destruct H1 as [H1 _]. congruence.
  - destruct H1 as (_ & E1 & H1), H2 as (_ & E2 & H2).
    f_equal; [congruence | eapply IH; eassumption].
Qed.

Lemma drain_inv n : forall fuel head r r',
  vring.drain n fuel head r = Ret r' ->
  vring._used_tail r' = head /\
  undrained_view r' = undrained_view r /\
  exists ues ps,
    used_between (vring._used_shared r) (vring.mask r) (vring._used_tail r) head ues /\
    promises_of (vring._completions r) ues ps /\
    vring.set_values r' =
      vring.set_values r ++ zip ps (map vring.used_elem._len ues).
Proof.
  induction n as [| n IH]; intros fuel head r r' H; cbn [vring.drain] in H;
    destruct (head =? vring._used_tail r) eqn:E.
  - apply Z.eqb_eq in E. injection H as <-. split; [auto |]. split; [reflexivity |].
    exists [], []. simpl. rewrite app_nil_r. split; [auto |]. split; [constructor | reflexivity].
  - discriminate.
  - apply Z.eqb_eq in E. injection H as <-. split; [auto |]. split; [reflexivity |].
    exists [], []. simpl. rewrite app_nil_r. split; [auto |]. split; [constructor | reflexivity].
  - apply Z.eqb_neq in E. apply bind_Ret_inv in H as (r1 & H1 & H).
    apply complete_one_inv in H1 as (ue & p & Hue & Hp & Hsv & Ht & Hv).
    destruct (IH _ _ _ _ H) as (Ht' & Hv' & ues & ps & Hub & Hps & Hsv').
    assert (Hus : vring._used_shared r1 = vring._used_shared r) by (injection Hv; auto).
    assert (Hcs : vring._completions r1 = vring._completions r) by (injection Hv; auto).
    assert (Hm : vring.mask r1 = vring.mask r).
    { unfold vring.mask. replace (vring._config r1) with (vring._config r); [reflexivity |].
      injection Hv. auto. }
    split; [exact Ht' |]. split; [congruence |].
    exists (ue :: ues), (p :: ps). split; [| split].
    + split; [congruence |]. split; [exact Hue |].
      rewrite <- Hus, <- Hm, <- Ht. exact Hub.
    + constructor; [exact Hp |]. rewrite <- Hcs. exact Hps.
    + rewrite Hsv', Hsv, <- app_assoc. reflexivity.
Qed.

(** A returning [do_complete] made one pass: after the drain nothing is
    pending, so the loop test fails. *)
Lemma do_complete_loop_inv n fuel r r' :
  vring.do_complete_loop n fuel r = Ret r' ->
  exists r2,
    vring.drain fuel fuel (vring.used_layout._idx (vring._used_shared r))
      (vring.disable_interrupts r) = Ret r2 /\
    r' = snd (vring.enable_interrupts r2).
Proof.
  destruct n as [| n]; intros H; [discriminate |].
  cbn [vring.do_complete_loop] in H.
  assert (Hus : vring._used_shared (vring.disable_interrupts r) = vring._used_shared r).
  { unfold vring.disable_interrupts. destruct (vring.event_index _); reflexivity. }
  rewrite Hus in H.
  apply bind_Ret_inv in H as (r2 & H2 & H). exists r2. split; [exact H2 |].
  destruct (drain_inv _ _ _ _ _ H2) as (Ht & Hv & _).
  unfold vring.enable_interrupts in *. cbn [snd].
  assert (Hus2 : vring._used_shared r2 = vring._used_shared r).
  { rewrite <- Hus. injection Hv. auto. }
  replace (negb _) with false in H.
  - congruence.
  - symmetry. apply negb_false_iff, Z.eqb_eq. rewrite Ht.
    destruct (vring.event_index _); simpl; rewrite Hus2; reflexivity.
Qed.

Lemma do_complete_inv fuel r r' :
  vring.do_complete fuel r = Ret r' ->
  exists r2,
    vring.drain fuel fuel (vring.used_layout._idx (vring._used_shared r))
      (vring.disable_interrupts r) = Ret r2 /\
    r' = snd (vring.enable_interrupts r2).
Proof. apply do_complete_loop_inv. Qed.

Lemma quiescent_do_complete fuel r held returned :
  quiescent r held returned ->
  vring.size (vring._config r) <= Z.of_nat fuel ->
  exists r', vring.do_complete fuel r = Ret r'.
Proof.
  intros Hq Hfuel. destruct (quiescent_inv _ _ _ Hq) as (free & Hinv & _).
  destruct (do_complete_spec fuel r free held returned Hinv Hfuel) as (r' & E & _).
  eauto.
Qed.

(** X1.  When [do_complete] returns, the used ring is drained and the
    driver has asked to be interrupted again: the tail has caught up with
    used.idx; with event_index, used_event holds that tail; without it,
    the avail flags are 0, so [interrupts_disabled] is false.  It never
    signals a kick, never touches the available ring, avail.idx, the
    head counter or the used region, and moves no promise into or out of
    a completion slot.  From a quiescent point, with size units of fuel,
    it does return. *)
Theorem X1_do_complete_rearms (fuel : nat) (r : vring.t) :
  (forall r', vring.do_complete fuel r = Ret r' ->
     vring._used_tail r' = vring.used_layout._idx (vring._used_shared r') /\
     (vring.event_index (vring._config r) = true ->
        vring.avail_layout.used_event (vring._avail_shared r') = vring._used_tail r' /\
        vring.avail_layout._flags (vring._avail_shared r')
          = vring.avail_layout._flags (vring._avail_shared r)) /\
     (vring.event_index (vring._config r) = false ->
        vring.avail_layout._flags (vring._avail_shared r') = 0 /\
        interrupts_disabled r' = false) /\
     vring._kick r' = vring._kick r /\
     vring.avail_layout._ring (vring._avail_shared r')
       = vring.avail_layout._ring (vring._avail_shared r) /\
     vring.avail_layout._idx (vring._avail_shared r')
       = vring.avail_layout._idx (vring._avail_shared r) /\
     vring._avail_head r' = vring._avail_head r /\
     vring._used_shared r' = vring._used_shared r /\
     vring._completions r' = vring._completions r) /\
  (forall held returned,
     quiescent r held returned ->
     vring.size (vring._config r) <= Z.of_nat fuel ->
     exists r', vring.do_complete fuel r = Ret r').
Proof.
  split; [| intros held returned; apply quiescent_do_complete].
  intros r' (r2 & H2 & ->)%do_complete_inv.
  destruct (drain_inv _ _ _ _ _ H2) as (Ht & Hv & _).
  assert (H : vring._config r2 = vring._config r /\
              vring._kick r2 = vring._kick r /\
              vring._completions r2 = vring._completions r /\
              vring._avail_head r2 = vring._avail_head r /\
              vring._used_shared r2 = vring._used_shared r /\
              vring.avail_layout._ring (vring._avail_shared r2)
                = vring.avail_layout._ring (vring._avail_shared r) /\
              vring.avail_layout._idx (vring._avail_shared r2)
                = vring.avail_layout._idx (vring._avail_shared r) /\
              (vring.event_index (vring._config r) = true ->
               vring.avail_layout._flags (vring._avail_shared r2)
                 = vring.avail_layout._flags (vring._avail_shared r))).
  { unfold undrained_view in Hv. injection Hv. intros -> _ -> -> -> -> ->.
    unfold vring.disable_interrupts.
    destruct (vring.event_index (vring._config r)); simpl; auto 10; repeat split;
      discriminate. }
  destruct H as (Hcfg & Hk & Hcs & Hhead & Hus & Hring & Hidx & Hfl).
  unfold vring.enable_interrupts, interrupts_disabled. cbn [snd]. rewrite Hcfg.
  destruct (vring.event_index (vring._config r)) eqn:Hei; simpl;
    rewrite ?Hus, ?Ht; (split; [reflexivity |]);
    (split; [intros ?; try discriminate; try (split; [reflexivity | auto]) |]);
    (split; [intros ?; try discriminate; try (split; reflexivity) |]); auto 10.
Qed.

Lemma X1_do_complete_rearms_witness :
  exists r',
    vring.do_complete 4 ring4_returned = Ret r' /\
    vring._used_tail r' = 1 /\
    vring.avail_layout.used_event (vring._avail_shared r') = 1 /\
    vring._kick r' = vring._kick ring4_returned.
Proof.
  destruct (X1_do_complete_rearms 4 ring4_returned) as [H1 H2].
  destruct (H2 [] [[2; 3]] ring4_returned_quiescent) as [r' E]; [simpl; lia |].
  destruct (H1 r' E) as (Ht & He & _ & Hk & _ & _ & _ & Hus & _).
  exists r'. split; [exact E |].
  assert (Ht1 : vring._used_tail r' = 1) by (rewrite Ht, Hus; reflexivity).
  split; [exact Ht1 |]. split; [| exact Hk].
  destruct (He eq_refl) as [He1 _]. rewrite He1. exact Ht1.
Defined.

(** X2.  From a quiescent point [do_complete], with size units of fuel,
    returns having fulfilled exactly one promise per used element not yet
    consumed, in used-ring order: the promise in the completion slot of
    the element's id, which is the head of a returned chain, with the
    element's len.  The promises in the slots of a chain's other
    descriptors are not fulfilled, and the slots are left as they are. *)
Theorem X2_do_complete_fulfils (fuel : nat) (r : vring.t)
    (held returned : list (list Z)) :
  quiescent r held returned ->
  vring.size (vring._config r) <= Z.of_nat fuel ->
  exists r' ues ps,
    vring.do_complete fuel r = Ret r' /\
    used_between (vring._used_shared r) (vring.mask r) (vring._used_tail r)
      (vring.used_layout._idx (vring._used_shared r)) ues /\
    map vring.used_elem._id ues = map (hd 0) returned /\
    promises_of (vring._completions r) ues ps /\
    vring.set_values r' =
      vring.set_values r ++ zip ps (map vring.used_elem._len ues) /\
    vring._completions r' = vring._completions r.
Proof.
  intros Hq Hfuel. destruct (quiescent_do_complete fuel r held returned Hq Hfuel) as [r' E].
  destruct (do_complete_inv _ _ _ E) as (r2 & H2 & ->).
  destruct (drain_inv _ _ _ _ _ H2) as (_ & Hv & ues & ps & Hub & Hps & Hsv).
  assert (Hd : unfreed_view (vring.disable_interrupts r)
               = (vring._config r, vring._kick r, vring._completions r,
                  vring._avail_shared (vring.disable_interrupts r),
                  vring._avail_head r, vring._avail_added_since_kick r,
                  vring._used_shared r, vring._used_tail r, vring.set_values r)).
  { unfold vring.disable_interrupts. destruct (vring.event_index _); reflexivity. }
  injection Hd. intros Hsv0 Ht0 Hus0 _ _ Hcs0 _ Hcfg0.
  assert (Hm0 : vring.mask (vring.disable_interrupts r) = vring.mask r).
  { unfold vring.mask. rewrite Hcfg0. reflexivity. }
  rewrite Hus0, Hm0, Ht0, Hcs0, Hsv0 in *.
  destruct (quiescent_inv _ _ _ Hq) as (free & Hinv & _).
  destruct (inv_used _ _ _ _ Hinv) as (ues' & Hub' & Hids).
  assert (ues = ues') by (eapply used_between_unique; eassumption). subst ues'.
  exists (snd (vring.enable_interrupts r2)), ues, ps.
  split; [exact E |]. split; [exact Hub |]. split; [exact Hids |].
  split; [exact Hps |].
  unfold vring.enable_interrupts. cbn [snd].
  injection Hv. intros _ _ _ _ Hcs _ _.
  destruct (vring.event_index _); simpl; rewrite Hsv, Hcs; auto.
Qed.

(** The transmit chain handed back on the ring of four: the promise of
    its head, which holds the packet, is fulfilled with 76; the payload
    descriptor's promise is not. *)
Lemma X2_do_complete_fulfils_witness :
  exists r',
    vring.do_complete 4 ring4_returned = Ret r' /\
    vring.set_values r' = [(promise_tx pkt64, 76)].
Proof.
  destruct (X2_do_complete_fulfils 4 ring4_returned [] [[2; 3]] ring4_returned_quiescent)
    as (r' & ues & ps & E & Hub & _ & Hps & Hsv & _); [simpl; lia |].
  exists r'. split; [exact E |].
  assert (ues = [vring.used_elem.mk 2 76]).
  { eapply used_between_unique; [exact Hub |].
    simpl. split; [discriminate |]. split; reflexivity. }
  subst ues. inversion Hps as [| ue p ues' ps' Hp Hrest]; subst.
  inversion Hrest; subst. rewrite Hsv. vm_compute in Hp. injection Hp as <-.
  reflexivity.
Defined.

(** X3.  With nothing pending in the used ring (tail = used.idx)
    [do_complete] returns at once, whatever else the ring holds: no
    descriptor is freed, no permit released, no promise fulfilled. *)
Theorem X3_do_complete_nothing_pending (fuel : nat) (r : vring.t) :
  (1 <= fuel)%nat ->
  vring._used_tail r = vring.used_layout._idx (vring._used_shared r) ->
  exists r',
    vring.do_complete fuel r = Ret r' /\
    vring._descs r' = vring._descs r /\
    vring._free_desc r' = vring._free_desc r /\
    vring._available_descriptors r' = vring._available_descriptors r /\
    vring.set_values r' = vring.set_values r /\
    vring._used_tail r' = vring._used_tail r.
Proof.
  intros Hfuel Ht. destruct fuel as [| fuel]; [lia |].
  apply eq_sym, Z.eqb_eq in Ht.
  unfold vring.do_complete. cbn [vring.do_complete_loop vring.drain].
  unfold vring.disable_interrupts, vring.enable_interrupts.
  destruct (vring.event_index (vring._config r)) eqn:Hei; simpl;
    rewrite Ht; simpl; rewrite ?Hei; simpl; rewrite Ht; simpl;
    eexists; repeat split; reflexivity.
Qed.

Lemma X3_do_complete_nothing_pending_witness :
  exists r',
    vring.do_complete 1 ring4_cycle = OutOfFuel /\
    vring.do_complete 1 (vring.set_used_tail 1 ring4_cycle) = Ret r' /\
    vring._available_descriptors r' = 2.
Proof.
  destruct (X3_do_complete_nothing_pending 1 (vring.set_used_tail 1 ring4_cycle))
    as (r' & E & _ & _ & Hs & _).
  - lia.
  - reflexivity.
  - exists r'. split; [reflexivity |]. split; [exact E | exact Hs].
Defined.

(** ** [kick] called again *)

(** X4.  With event_index a second [kick] right after a first changes
    nothing: once a kick was signalled the counter is zero, and zero
    chains never need a kick.  Without event_index every call signals
    while NO_NOTIFY is clear, also when no chain was added since the last
    kick. *)
Theorem X4_kick_again (r : vring.t) :
  (vring.event_index (vring._config r) = true ->
   vring.kick (vring.kick r) = vring.kick r) /\
  (vring.event_index (vring._config r) = false ->
   vring.notifications_disabled r = false ->
   vring._kick (vring.kick (vring.kick r)) = vring._kick r + 2 /\
   vring._avail_added_since_kick (vring.kick r) = 0).
Proof.
  split.
  - intros Hei. destruct (kick_cases r) as [E | E]; rewrite E; [exact E |].
    unfold vring.kick at 1. unfold vring.do_kick at 1 2. simpl. rewrite Hei.
    rewrite kick_threshold.
    replace (_ <? 0) with false; [reflexivity |].
    symmetry. apply Z.ltb_ge. unfold u16. apply Z.mod_pos_bound. lia.
  - intros Hei Hn. unfold vring.kick. rewrite Hei, Hn. simpl.
    unfold vring.notifications_disabled in *. simpl. rewrite Hei, Hn. simpl.
    split; [lia | reflexivity].
Qed.

Lemma X4_kick_again_witness :
  vring._kick (vring.kick (vring.kick (ring_at true 6 5 0 1))) = 1 /\
  vring._kick (vring.kick (vring.kick (ring_at false 6 5 0 1))) = 2.
Proof.
  split.
  - rewrite (proj1 (X4_kick_again (ring_at true 6 5 0 1)) eq_refl). reflexivity.
  - destruct (proj2 (X4_kick_again (ring_at false 6 5 0 1)) eq_refl eq_refl) as [H _].
    rewrite H. reflexivity.
Defined.

(** ** A frame that is not complete yet *)

Lemma rx_run_more (d : dev) rest : forall q,
  Z.of_nat (length rest) < _remaining_buffers q < 2 ^ 32 ->
  rx_run d rest q =
    Ret (mk_rxq (_remaining_buffers q - Z.of_nat (length rest))
           (_fragments q ++ map rx_fragment_next rest)
           (_deleters q ++ map rx_buf rest) (_rx_ready q)).
Proof.
  induction rest as [| b rest IH]; intros q Hrem.
  - destruct q. simpl. rewrite !app_nil_r, Z.sub_0_r. reflexivity.
  - cbn [length] in Hrem.
    rewrite rx_run_cons, rx_completed_next by lia. cbv zeta.
    rewrite (u32_small (_remaining_buffers q - 1)) by lia.
    replace (_remaining_buffers q - 1 =? 0) with false
      by (symmetry; apply Z.eqb_neq; lia).
    rewrite bind_Ret, IH by (simpl; lia).
    simpl. rewrite <- !app_assoc. do 2 f_equal. cbn [length]. lia.
Qed.

(** X5.  A frame is never delivered in part.  After the first k buffers
    of a frame whose header announces more than k, nothing has been added
    to the pending deliveries: the handler holds the k buffers and their
    fragments and awaits the announced remainder.  While it waits, the
    header field of a completed buffer is not looked at. *)
Theorem X5_rx_no_partial_delivery (d : dev) (b : rx_buffer)
    (rest : list rx_buffer) (q : rxq) :
  _remaining_buffers q = 0 ->
  Z.of_nat (length (b :: rest)) < rx_num_buffers b < 2 ^ 32 ->
  rx_run d (b :: rest) q =
    Ret (mk_rxq (rx_num_buffers b - Z.of_nat (length (b :: rest)))
           (fragments (rx_packet d (b :: rest)))
           (map rx_buf (b :: rest)) (_rx_ready q)) /\
  (forall q' nb nb' buf len,
     _remaining_buffers q' <> 0 ->
     rx_completed d nb buf len q' = rx_completed d nb' buf len q').
Proof.
  intros Hq Hn. split.
  - cbn [length] in Hn.
    rewrite rx_run_cons, rx_completed_first by lia. cbv zeta.
    rewrite (u32_small (rx_num_buffers b - 1)) by lia.
    replace (rx_num_buffers b - 1 =? 0) with false
      by (symmetry; apply Z.eqb_neq; lia).
    rewrite bind_Ret, rx_run_more by (simpl; lia).
    simpl. do 2 f_equal. cbn [length]. lia.
  - intros q' nb nb' buf len Hrem. rewrite !rx_completed_next by exact Hrem.
    reflexivity.
Qed.

(** Two of three announced buffers: nothing is delivered, one buffer is
    awaited. *)
Lemma X5_rx_no_partial_delivery_witness :
  rx_run dev_mrg
    [mk_rx_buffer 4096 3 4096; mk_rx_buffer 8192 0 4096] rxq_idle =
  Ret (mk_rxq 1 [mk_fragment 4108 4084; mk_fragment 8192 4096] [4096; 8192] []).
Proof.
  apply (X5_rx_no_partial_delivery dev_mrg (mk_rx_buffer 4096 3 4096)
           [mk_rx_buffer 8192 0 4096] rxq_idle).
  - reflexivity.
  - vm_compute. split; reflexivity.
Defined.

(** ** The completion slots *)

Lemma post_buffers_promises rbc : forall a l r has_prev prev,
  Z.of_nat (length (vring._descs r)) <= 65535 ->
  length (vring._completions r) = length (vring._descs r) ->
  length a = length rbc ->
  free_list (vring._descs r) (vring._free_desc r) (a ++ l) ->
  NoDup (a ++ l) ->
  exists h r',
    vring.post_buffers rbc has_prev prev r = Ret (h, r') /\
    Forall2 (fun b i => at_index (vring._completions r') i = Ret (vring.completed b))
      rbc a /\
    (forall i, i ∉ a ->
       at_index (vring._completions r') i = at_index (vring._completions r) i).
Proof.
  induction rbc as [| b rbc IH]; intros a l r has_prev prev Hlen Hcs Hal Hfl Hnd.
  - destruct a; [| discriminate]. exists prev, r. split; [reflexivity |].
    split; [constructor | auto].
  - destruct a as [| i a]; [discriminate |]. injection Hal as Hal.
    destruct (allocate_desc_spec r i (a ++ l) Hfl) as (d & Hd & Hfl1 & Halloc).
    pose proof (at_index_range _ _ _ Hd) as Hr.
    change ((i :: a) ++ l) with (i :: (a ++ l)) in Hnd.
    apply NoDup_cons in Hnd as [Hi Hnd].
    cbn [vring.post_buffers]. rewrite Halloc, bind_Ret.
    cbn [vring._descs vring._completions vring.set_free_desc].
    rewrite (store_Ret (vring._descs r)), bind_Ret by exact Hr.
    rewrite (store_Ret (vring._completions r)), bind_Ret by lia.
    set (ds1 := <[Z.to_nat i := _]> (vring._descs r)).
    set (cs1 := <[Z.to_nat i := _]> (vring._completions r)).
    set (r2 := vring.set_completions cs1 _).
    destruct (IH a l r2 true i) as (h & r' & E & Hall & Hout).
    + subst r2 ds1. simpl. rewrite length_insert. exact Hlen.
    + subst r2 ds1 cs1. simpl. rewrite !length_insert. exact Hcs.
    + exact Hal.
    + eapply free_list_frame; [apply (same_outside_insert _ i); lia | | exact Hfl1].
      intros k Hk Hin. apply list_elem_of_singleton in Hin. subst. contradiction.
    + exact Hnd.
    + exists h, r'. split; [exact E |]. split.
      * constructor; [| exact Hall].
        rewrite Hout by (rewrite not_elem_of_app in Hi; tauto).
        subst r2 cs1. simpl. apply at_index_insert_eq. lia.
      * intros j Hj. apply not_elem_of_cons in Hj as [Hj1 Hj2].
        rewrite (Hout j Hj2). subst r2 cs1. simpl.
        apply at_index_insert_ne; [lia | congruence].
Qed.

Lemma post_chain_promises (bc : vring.buffer_chain) (r : vring.t)
    (free : list Z) :
  ring_ok r ->
  free_list (vring._descs r) (vring._free_desc r) free -> NoDup free ->
  (length bc <= length free)%nat ->
  let n := length bc in
  let idx := reverse (take n free) in
  exists r',
    vring.post_chain bc r = Ret r' /\
    Forall2 (fun b i => at_index (vring._completions r') i = Ret (vring.completed b))
      bc idx /\
    (forall i, i ∉ take n free ->
       at_index (vring._completions r') i = at_index (vring._completions r) i) /\
    (forall b0 bc', bc = b0 :: bc' ->
       exists h,
         at_index (vring.avail_layout._ring (vring._avail_shared r'))
                  (Z.land (vring._avail_head r) (vring.mask r)) = Ret h /\
         h = hd 0 idx /\
         at_index (vring._completions r') h = Ret (vring.completed b0)).
Proof.
  intros Hok Hfl Hnd Hn n idx.
  destruct (post_chain_spec bc r (take n free) (drop n free))
    as (ds' & cs' & f' & E & _ & _ & _ & _).
  { exact Hok. }
  { rewrite length_take. subst n. lia. }
  { rewrite take_drop. exact Hfl. }
  { rewrite take_drop. exact Hnd. }
  destruct (post_buffers_promises (reverse bc) (take n free) (drop n free) r false 0)
    as (h & r1 & E1 & Hall & Hout).
  { apply ring_ok_descs. exact Hok. }
  { destruct Hok. lia. }
  { rewrite length_take, length_reverse. subst n. lia. }
  { rewrite take_drop. exact Hfl. }
  { rewrite take_drop. exact Hnd. }
  pose proof E as E2. unfold vring.post_chain in E2. rewrite E1, bind_Ret in E2.
  apply bind_Ret_inv in E2 as (ring & _ & E2).
  assert (Hcs : cs' = vring._completions r1).
  { pose proof (f_equal (fun o => match o with
                                  | Ret x => vring._completions x
                                  | _ => []
                                  end) E2) as H.
    simpl in H. symmetry. exact H. }
  subst cs'.
  eexists. split; [exact E |]. cbn -[Z.modulo reverse take u16].
  split; [| split; [exact Hout |]].
  { subst idx. rewrite <- (reverse_involutive bc). apply Forall2_reverse. exact Hall. }
  intros b0 bc' Hbc. exists (hd 0 idx). split; [| split; [reflexivity |]].
  - rewrite land_mask by exact Hok. apply at_index_insert_eq.
    rewrite (ok_ring r Hok). apply Z.mod_pos_bound. apply ring_ok_size_pos. exact Hok.
  - apply Forall2_reverse in Hall. rewrite reverse_involutive in Hall. fold idx in Hall.
    rewrite Hbc in Hall. inversion Hall as [| ? i ? idx' Hhd _ ]; subst. exact Hhd.
Qed.

(** X6.  [post] moves the promise of each buffer of a chain into the
    completion slot of the descriptor that buffer got, and leaves the
    other slots alone.  In particular the slot named by the head the call
    publishes in the available ring holds the promise of the chain's
    first buffer. *)
Theorem X6_post_chain_promises (bc : vring.buffer_chain) (r : vring.t)
    (free : list Z) :
  ring_ok r ->
  free_list (vring._descs r) (vring._free_desc r) free -> NoDup free ->
  (length bc <= length free)%nat ->
  let n := length bc in
  let idx := reverse (take n free) in
  exists r',
    vring.post_chain bc r = Ret r' /\
    Forall2 (fun b i => at_index (vring._completions r') i = Ret (vring.completed b))
      bc idx /\
    (forall i, i ∉ take n free ->
       at_index (vring._completions r') i = at_index (vring._completions r) i) /\
    (forall b0 bc', bc = b0 :: bc' ->
       exists h,
         at_index (vring.avail_layout._ring (vring._avail_shared r'))
                  (Z.land (vring._avail_head r) (vring.mask r)) = Ret h /\
         h = hd 0 idx /\
         at_index (vring._completions r') h = Ret (vring.completed b0)).
Proof. apply post_chain_promises. Qed.

(** The transmit chain on the fresh ring of four: the packet's promise
    goes to slot 2, the head published in avail.ring[0]. *)
Lemma X6_post_chain_promises_witness :
  exists r',
    vring.post_chain bc2 ring4 = Ret r' /\
    at_index (vring.avail_layout._ring (vring._avail_shared r')) 0 = Ret 2 /\
    at_index (vring._completions r') 2 = Ret (promise_tx pkt64) /\
    at_index (vring._completions r') 3 = Ret promise_default.
Proof.
  destruct (X6_post_chain_promises bc2 ring4 [3; 2; 1; 0])
    as (r' & E & Hall & _ & Hhead).
  - exact ring4_ok.
  - exact ring4_free_list.
  - exact NoDup_3210.
  - simpl. lia.
  - exists r'. split; [exact E |].
    destruct (Hhead _ _ eq_refl) as (h & Hr & -> & Hp).
    split; [exact Hr |]. split; [exact Hp |].
    exact (Forall2_lookup_lr _ _ _ 1%nat _ 3 Hall eq_refl eq_refl).
Defined.

(** ** Posting a chain and getting it back *)

Lemma do_complete_values fuel r r' :
  vring.do_complete fuel r = Ret r' ->
  exists ues ps,
    used_between (vring._used_shared r) (vring.mask r) (vring._used_tail r)
      (vring.used_layout._idx (vring._used_shared r)) ues /\
    promises_of (vring._completions r) ues ps /\
    vring.set_values r' =
      vring.set_values r ++ zip ps (map vring.used_elem._len ues) /\
    vring._completions r' = vring._completions r.
Proof.
  intros E. destruct (do_complete_inv _ _ _ E) as (r2 & H2 & ->).
  destruct (drain_inv _ _ _ _ _ H2) as (_ & Hv & ues & ps & Hub & Hps & Hsv).
  assert (Hd : unfreed_view (vring.disable_interrupts r)
               = (vring._config r, vring._kick r, vring._completions r,
                  vring._avail_shared (vring.disable_interrupts r),
                  vring._avail_head r, vring._avail_added_since_kick r,
                  vring._used_shared r, vring._used_tail r, vring.set_values r)).
  { unfold vring.disable_interrupts. destruct (vring.event_index _); reflexivity. }
  injection Hd. intros Hsv0 Ht0 Hus0 _ _ Hcs0 _ Hcfg0.
  assert (Hm0 : vring.mask (vring.disable_interrupts r) = vring.mask r).
  { unfold vring.mask. rewrite Hcfg0. reflexivity. }
  rewrite Hus0, Hm0, Ht0, Hcs0, Hsv0 in *.
  exists ues, ps. split; [exact Hub |]. split; [exact Hps |].
  unfold vring.enable_interrupts. cbn [snd].
  injection Hv. intros _ _ _ _ Hcs _ _.
  destruct (vring.event_index _); simpl; rewrite Hsv, Hcs; auto.
Qed.

(** X7.  Round trip of one chain.  From a ring with nothing waiting in
    the used ring, posting the chain [b0 :: bc'] publishes a head [h] in
    the available ring; when the host hands that head back with length
    [len], [do_complete] fulfils exactly one promise, the one of the
    chain's first buffer [b0], with [len], releases one permit per buffer
    of the chain, and the free list is again the one before the post, in
    the same order. *)
Theorem X7_post_complete_round_trip (fuel : nat) (b0 : vring.buffer)
    (bc' : vring.buffer_chain) (r : vring.t) (free : list Z)
    (held : list (list Z)) :
  pool_inv r free held [] ->
  (length (b0 :: bc') <= length free)%nat ->
  vring.size (vring._config r) <= Z.of_nat fuel ->
  exists r1 h,
    vring.post_chain (b0 :: bc') r = Ret r1 /\
    at_index (vring.avail_layout._ring (vring._avail_shared r1))
             (Z.land (vring._avail_head r) (vring.mask r)) = Ret h /\
    forall used' len,
      used_between used' (vring.mask r) (vring._used_tail r)
        (vring.used_layout._idx used') [vring.used_elem.mk h len] ->
      exists r',
        vring.do_complete fuel (vring.set_used_shared used' r1) = Ret r' /\
        vring.set_values r' = vring.set_values r ++ [(vring.completed b0, len)] /\
        vring._available_descriptors r'
          = vring._available_descriptors r + Z.of_nat (length (b0 :: bc')) /\
        pool_inv r' free held [].
Proof.
  intros Hinv Hn Hfuel. set (bc := b0 :: bc') in *. set (n := length bc) in *.
  pose proof Hinv as [Hok Hfl _ Hnd _ _].
  assert (Hnd_free : NoDup free) by (apply NoDup_app in Hnd; tauto).
  destruct (post_chain_inv bc r free held [] Hinv) as (r1 & E & Hinv1 & _ & _ & _ & Hpv);
    [discriminate | exact Hn |].
  fold n in Hinv1.
  destruct (post_chain_promises bc r free Hok Hfl Hnd_free Hn) as (r1' & E' & _ & _ & Hhead).
  rewrite E in E'. injection E' as <-.
  destruct (Hhead b0 bc' eq_refl) as (h & Hring & Hh & Hp). fold n in Hh.
  set (c := reverse (take n free)) in *.
  unfold posted_view in Hpv. injection Hpv. intros Hsv Ht Hus Hsem Hk Hcfg.
  assert (Hm : vring.mask r1 = vring.mask r) by (unfold vring.mask; rewrite Hcfg; reflexivity).
  exists r1, h. split; [exact E |]. split; [exact Hring |].
  intros used' len Hub.
  assert (Hinv2 : pool_inv (vring.set_used_shared used' r1) (drop n free) held [c]).
  { destruct Hinv1 as [[Hs Hd Hc Hr Hhd Htl] Hfl1 Hch1 Hnd1 Hall1 _].
    rewrite app_nil_r in Hch1, Hnd1, Hall1.
    constructor; [constructor; assumption | exact Hfl1 | exact Hch1 | exact Hnd1
                 | exact Hall1 |].
    exists [vring.used_elem.mk h len]. split.
    - change (vring._used_shared (vring.set_used_shared used' r1)) with used'.
      change (vring.mask (vring.set_used_shared used' r1)) with (vring.mask r1).
      change (vring._used_tail (vring.set_used_shared used' r1)) with (vring._used_tail r1).
      rewrite Hm, Ht. exact Hub.
    - simpl. rewrite Hh. reflexivity. }
  destruct (do_complete_spec fuel _ _ _ _ Hinv2) as (r' & Edc & Hinv' & Hsem' & _).
  { change (vring._config (vring.set_used_shared used' r1)) with (vring._config r1).
    rewrite Hcfg. exact Hfuel. }
  exists r'. split; [exact Edc |].
  destruct (do_complete_values _ _ _ Edc) as (ues & ps & Hub2 & Hps & Hvals & _).
  change (vring._used_shared (vring.set_used_shared used' r1)) with used' in Hub2.
  change (vring.mask (vring.set_used_shared used' r1)) with (vring.mask r1) in Hub2.
  change (vring._used_tail (vring.set_used_shared used' r1)) with (vring._used_tail r1) in Hub2.
  rewrite Hm, Ht in Hub2.
  assert (ues = [vring.used_elem.mk h len]) by (eapply used_between_unique; eassumption).
  subst ues.
  change (vring._completions (vring.set_used_shared used' r1))
    with (vring._completions r1) in Hps.
  change (vring.set_values (vring.set_used_shared used' r1))
    with (vring.set_values r1) in Hvals.
  inversion Hps as [| ue p ues' ps' Hp1 Hrest]; subst. inversion Hrest; subst.
  cbn [vring.used_elem._id] in Hp1. rewrite Hp in Hp1. injection Hp1 as <-.
  split; [rewrite Hvals, Hsv; reflexivity |].
  split.
  - rewrite Hsem'.
    change (vring._available_descriptors (vring.set_used_shared used' r1))
      with (vring._available_descriptors r1).
    rewrite Hsem. simpl concat. rewrite app_nil_r. unfold c.
    rewrite length_reverse, length_take. fold n. f_equal. lia.
  - simpl concat in Hinv'. rewrite app_nil_r in Hinv'. unfold c in Hinv'.
    rewrite reverse_involutive, take_drop in Hinv'. exact Hinv'.
Qed.

Lemma ring4_pool_inv :
  pool_inv (vring.set_available_descriptors 2 ring4) [3; 2; 1; 0] [] [].
Proof.
  destruct (quiescent_inv _ _ _ ring4_quiescent) as (free & Hinv & _).
  pose proof (free_descs_spec _ _ _ _ Hinv) as Hf. vm_compute in Hf. subst free.
  eapply pool_inv_ext; [| exact Hinv]. reflexivity.
Qed.

(** The transmit chain on the ring of four, its two permits taken: the
    head published is 2; handed back with length 76, the packet's promise
    is fulfilled with 76 and the four permits are back. *)
Lemma X7_post_complete_round_trip_witness :
  exists r1 r',
    vring.post_chain bc2 (vring.set_available_descriptors 2 ring4) = Ret r1 /\
    vring.do_complete 4 (vring.set_used_shared (used4_one 2 76) r1) = Ret r' /\
    vring.set_values r' = [(promise_tx pkt64, 76)] /\
    vring._available_descriptors r' = 4.
Proof.
  destruct (X7_post_complete_round_trip 4
              (vring.mk_buffer (virtio_net_device.virt_to_phys 1000) 12
                 (promise_tx pkt64) false)
              [vring.mk_buffer (virtio_net_device.virt_to_phys 2000) 64
                 promise_default false]
              (vring.set_available_descriptors 2 ring4) [3; 2; 1; 0] []
              ring4_pool_inv)
    as (r1 & h & E & Hring & Hdone).
  - simpl. lia.
  - simpl. lia.
  - exists r1.
    assert (Hh : h = 2).
    { pose proof E as E0. vm_compute in E0. injection E0 as <-.
      vm_compute in Hring. injection Hring as <-. reflexivity. }
    subst h.
    destruct (Hdone (used4_one 2 76) 76) as (r' & Edc & Hsv & Hsem & _).
    + simpl. split; [discriminate |]. split; reflexivity.
    + exists r'. split; [exact E |]. split; [exact Edc |].
      split; [exact Hsv | exact Hsem].
Defined.

(** ** What a whole [post] publishes *)

Lemma allocate_desc_inv r i r' :
  vring.allocate_desc r = Ret (i, r') ->
  exists d,
    vring._free_desc r <> -1 /\ i = vring._free_desc r /\
    at_index (vring._descs r) i = Ret d /\
    r' = vring.set_free_desc (vring.desc._next d) r.
Proof.
  unfold vring.allocate_desc. destruct (decide _) as [| Hne]; [discriminate |].
  intros H. apply bind_Ret_inv in H as (d & Hd & H). injection H as <- <-.
  exists d. auto.
Qed.





Lemma kick_keeps r :
  vring._avail_shared (vring.kick r) = vring._avail_shared r /\
  vring._avail_head (vring.kick r) = vring._avail_head r /\
  vring._descs (vring.kick r) = vring._descs r.
Proof. destruct (kick_cases r) as [-> | ->]; auto. Qed.

Lemma do_complete_keeps fuel r r' :
  vring.do_complete fuel r = Ret r' ->
  vring._kick r' = vring._kick r /\
  vring.avail_layout._ring (vring._avail_shared r')
    = vring.avail_layout._ring (vring._avail_shared r) /\
  vring.avail_layout._idx (vring._avail_shared r')
    = vring.avail_layout._idx (vring._avail_shared r) /\
  vring._avail_head r' = vring._avail_head r /\
  vring._avail_added_since_kick r' = vring._avail_added_since_kick r.
Proof.
  intros (r2 & H2 & ->)%do_complete_inv.
  destruct (drain_inv _ _ _ _ _ H2) as (_ & Hv & _).
  assert (H : vring._kick r2 = vring._kick r /\
              vring.avail_layout._ring (vring._avail_shared r2)
                = vring.avail_layout._ring (vring._avail_shared r) /\
              vring.avail_layout._idx (vring._avail_shared r2)
                = vring.avail_layout._idx (vring._avail_shared r) /\
              vring._avail_head r2 = vring._avail_head r /\
              vring._avail_added_since_kick r2 = vring._avail_added_since_kick r).
  { unfold undrained_view in Hv. injection Hv. intros _ -> -> -> _ -> _.
    unfold vring.disable_interrupts.
    destruct (vring.event_index (vring._config r)); simpl; auto. }
  unfold vring.enable_interrupts. cbn [snd].
  destruct (vring.event_index (vring._config r2)); simpl; exact H.
Qed.



(** ** The two users of the ring: [txq::post] and [rxq::prepare_buffers] *)

Lemma quiescent_post_sizes fuel chains r held returned :
  quiescent r held returned ->
  Forall (fun bc => bc <> []) chains ->
  Z.of_nat (length (concat chains)) <= vring._available_descriptors r ->
  vring.size (vring._config r) <= Z.of_nat fuel ->
  exists r' news,
    vring.post fuel chains
      (vring.set_available_descriptors
         (vring._available_descriptors r - Z.of_nat (length (concat chains))) r)
      = Ret r' /\
    quiescent r' (held ++ news) [] /\
    length news = length chains /\
    length (concat news) = length (concat chains) /\
    Forall (fun c => c <> []) news /\
    vring._available_descriptors r'
      = vring._available_descriptors r - Z.of_nat (length (concat chains))
        + Z.of_nat (length (concat returned)).
Proof.
  intros Hq Hne Hn Hfuel.
  destruct (quiescent_inv r held returned Hq) as (free & Hinv & Hsem).
  assert (Hn' : (length (concat chains) <= length free)%nat) by lia.
  destruct (post_spec fuel chains r free held returned Hinv Hsem Hne Hn' Hfuel)
    as (r' & news & E & Hinv' & Hs' & Hlen' & Hab' & Hcfg).
  pose proof (inv_chains _ _ _ _ Hinv') as Hall.
  rewrite app_nil_r in Hall. apply Forall_app in Hall as [_ Hall].
  exists r', news. split; [exact E |]. split.
  { eapply q_post; try eassumption.
    unfold semaphore.try_wait, semaphore.current. rewrite decide_True by exact Hn.
    reflexivity. }
  split; [exact Hlen' |].
  destruct (pool_inv_sizes _ _ _ _ Hinv) as [_ Hsum].
  destruct (pool_inv_sizes _ _ _ _ Hinv') as [_ Hsum'].
  rewrite Hcfg, app_nil_r in Hsum'.
  rewrite !concat_app, !length_app, ?length_reverse, ?length_drop in *.
  split; [lia |]. split.
  - eapply Forall_impl; [exact Hall |]. intros c Hc. eapply chain_nonempty. exact Hc.
  - rewrite Hs', Hsem. lia.
Qed.

Lemma concat_singletons {A : Type} (ls : list (list A)) :
  Forall (fun c => c <> []) ls -> length (concat ls) = length ls ->
  Forall (fun c => length c = 1%nat) ls.
Proof.
  induction 1 as [| c ls Hc Hls IH]; intros Hlen; constructor.
  - pose proof (length_concat_ge ls Hls). simpl in Hlen. rewrite length_app in Hlen.
    destruct c; [congruence | simpl in *; lia].
  - apply IH. pose proof (length_concat_ge ls Hls). simpl in Hlen.
    rewrite length_app in Hlen. destruct c; [congruence | simpl in *; lia].
Qed.

Lemma concat_buffer_chains (alloc : nat -> Z) (l : list nat) :
  length (concat (map (fun k => make_buffer_chain (alloc k)) l)) = length l.
Proof. induction l as [| k l IH]; simpl; [| rewrite IH]; reflexivity. Qed.

(** X9.  [rxq::prepare_buffers] fills the ring.  At a quiescent point
    with no permit it is suspended.  With [k >= 1] permits it takes them
    all, and its [post] returns: [k] new chains of one descriptor each are
    in flight, nothing is left waiting in the used ring, and the permits
    afterwards are those of the descriptors the call reclaimed. *)
Theorem X9_prepare_buffers_fills (fuel : nat) (alloc : nat -> Z) (r : vring.t)
    (held returned : list (list Z)) :
  quiescent r held returned ->
  vring.size (vring._config r) <= Z.of_nat fuel ->
  (vring._available_descriptors r = 0 ->
   prepare_buffers fuel alloc r = Suspended) /\
  (1 <= vring._available_descriptors r ->
   exists r' news,
     prepare_buffers fuel alloc r = Resumed (Ret r') /\
     quiescent r' (held ++ news) [] /\
     Z.of_nat (length news) = vring._available_descriptors r /\
     Forall (fun c => length c = 1%nat) news /\
     vring._available_descriptors r' = Z.of_nat (length (concat returned))).
Proof.
  intros Hq Hfuel. split.
  - intros H0. unfold prepare_buffers, semaphore.wait, semaphore.try_wait, semaphore.current.
    rewrite decide_False by lia. reflexivity.
  - intros Hk. set (k := vring._available_descriptors r) in *.
    destruct (quiescent_inv r held returned Hq) as (free & Hinv & Hsem). fold k in Hsem.
    destruct (pool_inv_sizes _ _ _ _ Hinv) as [_ Hsum].
    destruct (inv_ok _ _ _ _ Hinv) as [(e & He & Hsz) _ _ _ _ _].
    assert (Hk32 : k < 2 ^ 32).
    { assert (2 ^ e <= 2 ^ 15) by (apply Z.pow_le_mono_r; lia).
      assert (2 ^ 15 < 2 ^ 32) by reflexivity. lia. }
    set (chains := map (fun i => make_buffer_chain (alloc i)) (seq 0 (Z.to_nat k))).
    assert (Hcc : length (concat chains) = Z.to_nat k).
    { unfold chains. rewrite concat_buffer_chains, length_seq. reflexivity. }
    destruct (quiescent_post_sizes fuel chains r held returned Hq)
      as (r' & news & E & Hq' & Hlen & Hcl & Hne & Hs').
    { unfold chains. apply Forall_forall. intros bc Hbc.
      apply list_elem_of_fmap in Hbc as (i & -> & _). discriminate. }
    { rewrite Hcc. fold k. lia. }
    { exact Hfuel. }
    exists r', news.
    assert (Hnews : length news = Z.to_nat k).
    { rewrite Hlen. unfold chains. rewrite length_map, length_seq. reflexivity. }
    split; [| split; [exact Hq' | split; [lia | split]]].
    + unfold prepare_buffers, semaphore.wait, semaphore.try_wait, semaphore.current.
      fold k. rewrite decide_True by exact Hk.
      cbn [vring._available_descriptors vring.set_available_descriptors].
      rewrite decide_True by lia.
      replace (u32 (1 + (k - 1))) with k
        by (rewrite u32_small by lia; lia).
      fold chains. rewrite Hcc in E. rewrite <- E. f_equal. f_equal.
      unfold vring.set_available_descriptors. simpl. f_equal. lia.
    + apply concat_singletons; [exact Hne | lia].
    + rewrite Hs', Hcc. fold k. lia.
Qed.

(** On the fresh ring of four: four buffers posted, no permit left. *)
Lemma X9_prepare_buffers_fills_witness :
  exists r' (news : list (list Z)),
    prepare_buffers 4 (fun k => 4096 * Z.of_nat k) ring4 = Resumed (Ret r') /\
    length news = 4%nat /\
    Forall (fun c => length c = 1%nat) news /\
    vring._available_descriptors r' = 0.
Proof.
  destruct (X9_prepare_buffers_fills 4 (fun k => 4096 * Z.of_nat k) ring4 [] []
              ring4_quiescent) as [_ H]; [simpl; lia |].
  destruct H as (r' & news & E & _ & Hlen & Hone & Hsem); [simpl; lia |].
  exists r', news. split; [exact E |].
  split; [change (vring._available_descriptors ring4) with 4 in Hlen; lia |].
  split; [exact Hone | exact Hsem].
Defined.

(** X10.  [txq::post] at a quiescent point.  When the permits suffice for
    the packet's fragments and the header, the call is resumed and its
    [post] returns: one new chain of nr_frags + 1 descriptors is in
    flight, nothing is left waiting in the used ring, and the permits
    went down by the chain and up by what the call reclaimed. *)
Theorem X10_txq_post_quiescent (fuel : nat) (d : dev) (vhdr_addr : Z)
    (p : packet) (r : vring.t) (held returned : list (list Z)) :
  quiescent r held returned ->
  vring.size (vring._config r) <= Z.of_nat fuel ->
  nr_frags p + 1 <= vring._available_descriptors r ->
  exists r' c,
    snd (txq_post fuel d vhdr_addr p r) = Resumed (Ret r') /\
    quiescent r' (held ++ [c]) [] /\
    Z.of_nat (length c) = nr_frags p + 1 /\
    vring._available_descriptors r'
      = vring._available_descriptors r - (nr_frags p + 1)
        + Z.of_nat (length (concat returned)).
Proof.
  intros Hq Hfuel Hn.
  set (q := packet_prepend (mk_fragment vhdr_addr (_header_len d)) p).
  assert (Hlen : Z.of_nat (length (txq_chain q)) = nr_frags p + 1).
  { rewrite txq_chain_length. unfold q, nr_frags, packet_prepend. simpl length. lia. }
  destruct (quiescent_post_sizes fuel [txq_chain q] r held returned Hq)
    as (r' & news & E & Hq' & Hl & Hcl & _ & Hs').
  { repeat constructor. intros H. rewrite H in Hlen. unfold nr_frags in Hlen.
    simpl in Hlen. lia. }
  { cbn [concat]. rewrite app_nil_r, Hlen. exact Hn. }
  { exact Hfuel. }
  destruct news as [| c [| ? ?]]; try discriminate.
  cbn [concat] in Hcl, E, Hs'. rewrite !app_nil_r in E, Hs'.
  repeat rewrite app_nil_r in Hcl.
  exists r', c. split; [| split; [exact Hq' | split; [lia | lia]]].
  unfold txq_post, semaphore.wait, semaphore.try_wait, semaphore.current. cbn [snd].
  fold q. replace (nr_frags q) with (nr_frags p + 1)
    by (unfold q, nr_frags, packet_prepend; simpl length; lia).
  rewrite decide_True by exact Hn. rewrite <- E, Hlen. reflexivity.
Qed.

(** The two-fragment packet on the fresh ring of four: a chain of three
    descriptors is in flight and one permit is left. *)
Lemma X10_txq_post_quiescent_witness :
  exists r' (c : list Z),
    snd (txq_post 4 dev_mrg 1024 pkt64 ring4) = Resumed (Ret r') /\
    length c = 3%nat /\
    vring._available_descriptors r' = 1.
Proof.
  destruct (X10_txq_post_quiescent 4 dev_mrg 1024 pkt64 ring4 [] [] ring4_quiescent)
    as (r' & c & E & _ & Hlen & Hsem).
  - simpl. lia.
  - vm_compute. discriminate.
  - exists r', c. split; [exact E |]. split.
    + change (nr_frags pkt64) with 2 in Hlen. lia.
    + exact Hsem.
Defined.

(** ** The end of the free list *)

Lemma u16_nonneg x : 0 <= u16 x.
Proof. unfold u16. apply Z.mod_pos_bound. reflexivity. Qed.

Lemma at_index_elem_of {A : Type} (a : list A) i x :
  at_index a i = Ret x -> x ∈ a.
Proof. intros [_ H]%at_index_Ret. eapply list_elem_of_lookup_2. exact H. Qed.

Lemma links_ok_ext r r' :
  vring._descs r' = vring._descs r -> vring._free_desc r' = vring._free_desc r ->
  links_ok r -> links_ok r'.
Proof. unfold links_ok. intros -> ->. auto. Qed.

Lemma free_desc_links id r r' :
  vring.free_desc id r = Ret r' ->
  Forall (fun d => 0 <= vring.desc._next d) (vring._descs r) -> links_ok r'.
Proof.
  intros (d & Hd & ->)%free_desc_inv Hall. split; simpl.
  - apply at_index_range in Hd. lia.
  - apply Forall_insert; [exact Hall |]. simpl. apply u16_nonneg.
Qed.

Lemma free_chain_links fuel : forall id r r',
  vring.free_chain fuel id r = Ret r' ->
  Forall (fun d => 0 <= vring.desc._next d) (vring._descs r) -> links_ok r'.
Proof.
  induction fuel as [| fuel IH]; intros id r r' H Hall; [discriminate |].
  cbn [vring.free_chain] in H.
  apply bind_Ret_inv in H as (d & _ & H).
  apply bind_Ret_inv in H as (r1 & H1 & H).
  pose proof (free_desc_links _ _ _ H1 Hall) as Hl1.
  destruct (vring.desc.has_next _).
  - eapply IH; [exact H | exact (proj2 Hl1)].
  - injection H as <-. exact Hl1.
Qed.

Lemma complete_one_links fuel r r' :
  vring.complete_one fuel r = Ret r' -> links_ok r -> links_ok r'.
Proof.
  unfold vring.complete_one. intros H [_ Hall].
  apply bind_Ret_inv in H as (ue & _ & H).
  apply bind_Ret_inv in H as (p & _ & H).
  eapply free_chain_links; [exact H | exact Hall].
Qed.

Lemma drain_links n : forall fuel head r r',
  vring.drain n fuel head r = Ret r' -> links_ok r -> links_ok r'.
Proof.
  induction n as [| n IH]; intros fuel head r r' H Hl; cbn [vring.drain] in H;
    destruct (head =? vring._used_tail r).
  - injection H as <-. exact Hl.
  - discriminate.
  - injection H as <-. exact Hl.
  - apply bind_Ret_inv in H as (r1 & H1 & H).
    eapply IH; [exact H |]. eapply complete_one_links; eassumption.
Qed.

Lemma do_complete_links fuel r r' :
  vring.do_complete fuel r = Ret r' -> links_ok r -> links_ok r'.
Proof.
  intros (r2 & H2 & ->)%do_complete_inv Hl.
  assert (Hl2 : links_ok r2).
  { eapply drain_links; [exact H2 |].
    eapply links_ok_ext; [| | exact Hl];
      unfold vring.disable_interrupts; destruct (vring.event_index _); reflexivity. }
  eapply links_ok_ext; [| | exact Hl2];
    unfold vring.enable_interrupts; cbn [snd]; destruct (vring.event_index _); reflexivity.
Qed.

Lemma post_buffers_links rbc : forall has_prev prev r h r',
  vring.post_buffers rbc has_prev prev r = Ret (h, r') -> links_ok r -> links_ok r'.
Proof.
  induction rbc as [| b rbc IH]; intros has_prev prev r h r' H Hl;
    cbn [vring.post_buffers] in H.
  - injection H as _ <-. exact Hl.
  - apply bind_Ret_inv in H as ([i r1] & Ha & H).
    apply allocate_desc_inv in Ha as (d & _ & _ & Hd & ->).
    apply bind_Ret_inv in H as (ds & [_ ->]%store_Ret_inv & H).
    apply bind_Ret_inv in H as (cs & _ & H).
    eapply IH; [exact H |]. destruct Hl as [_ Hall]. split; simpl.
    + apply at_index_elem_of in Hd.
      exact (proj1 (Forall_forall _ _) Hall d Hd).
    + apply Forall_insert; [exact Hall |]. simpl. apply u16_nonneg.
Qed.

Lemma post_chain_links bc r r' :
  vring.post_chain bc r = Ret r' -> links_ok r -> links_ok r'.
Proof.
  unfold vring.post_chain. intros H Hl.
  apply bind_Ret_inv in H as ([h r1] & H1 & H).
  apply post_buffers_links in H1; [| exact Hl].
  apply bind_Ret_inv in H as (ring & _ & H). injection H as <-. exact H1.
Qed.

Lemma posts_links chains : forall r r',
  for_each vring.post_chain chains r = Ret r' -> links_ok r -> links_ok r'.
Proof.
  induction chains as [| bc chains IH]; intros r r' H Hl; cbn [for_each] in H.
  - injection H as <-. exact Hl.
  - apply bind_Ret_inv in H as (r1 & H1 & H).
    eapply IH; [exact H |]. eapply post_chain_links; eassumption.
Qed.

Lemma post_links fuel chains r r' :
  vring.post fuel chains r = Ret r' -> links_ok r -> links_ok r'.
Proof.
  unfold vring.post. intros H Hl.
  apply bind_Ret_inv in H as (r1 & H1 & H).
  apply posts_links in H1; [| exact Hl].
  eapply do_complete_links; [exact H |].
  destruct (kick_cases (vring.set_avail_shared
              (vring.avail_layout.set_idx (vring._avail_head r1) (vring._avail_shared r1)) r1))
    as [-> | ->]; exact H1.
Qed.

Lemma setup_links l : forall r r' done,
  for_each vring.free_desc l r = Ret r' ->
  (forall j d, j ∈ done -> at_index (vring._descs r) j = Ret d ->
     0 <= vring.desc._next d) ->
  (forall j d, j ∈ done ++ l -> at_index (vring._descs r') j = Ret d ->
     0 <= vring.desc._next d) /\
  (l <> [] -> 0 <= vring._free_desc r') /\
  length (vring._descs r') = length (vring._descs r).
Proof.
  induction l as [| id l IH]; intros r r' done H Hdone; cbn [for_each] in H.
  - injection H as <-. rewrite app_nil_r. split; [exact Hdone |]. split; [congruence | reflexivity].
  - apply bind_Ret_inv in H as (r1 & H1 & H).
    pose proof H1 as H1'. apply free_desc_inv in H1' as (d0 & Hd0 & Hr1).
    pose proof (at_index_range _ _ _ Hd0) as Hr.
    destruct (IH r1 r' (done ++ [id]) H) as (Hall & Hf & Hlen).
    { intros j d Hj Hd. subst r1. simpl in Hd.
      destruct (decide (id = j)) as [<- | Hne].
      - rewrite at_index_insert_eq in Hd by exact Hr. injection Hd as <-.
        simpl. apply u16_nonneg.
      - rewrite at_index_insert_ne in Hd by (lia || exact Hne).
        apply elem_of_app in Hj as [Hj | Hj%list_elem_of_singleton]; [| congruence].
        eapply Hdone; eassumption. }
    split; [| split].
    + intros j d Hj. apply Hall. rewrite <- app_assoc. exact Hj.
    + intros _. destruct l as [| id' l'].
      * cbn [for_each] in H. injection H as <-. subst r1. simpl. lia.
      * apply Hf. discriminate.
    + rewrite Hlen. subst r1. simpl. apply length_insert.
Qed.

Lemma quiescent_links r held returned : quiescent r held returned -> links_ok r.
Proof.
  induction 1 as
    [conf completions descs avail used r Hsz Hd Hc Hr Hu Hnew
    | r held returned fuel chains r1 r' new_chains _ IH Hfuel Hne Hwait Hpost Hlen Hab Hch
    | r held1 c held2 returned used' ues _ IH Hub Hids
    | r held returned fuel r' _ IH Hfuel Hdc].
  - unfold vring.new, vring.setup in Hnew. cbn [vring._config] in Hnew.
    destruct (setup_links _ _ _ [] Hnew) as (Hall & Hf & Hlen).
    { intros j d Hj. inversion Hj. }
    simpl in Hlen. destruct Hsz as (k & Hk & Hsz).
    assert (0 < vring.size conf) by (rewrite Hsz; apply Z.pow_pos_nonneg; lia).
    split.
    + apply Hf. destruct (Z.to_nat (vring.size conf)) eqn:E; [lia |].
      unfold seqZ. rewrite E. discriminate.
    + apply Forall_lookup. intros i d Hi.
      apply (Hall (Z.of_nat i) d).
      * apply lookup_lt_Some in Hi. simpl. apply elem_of_seqZ. lia.
      * apply at_index_Ret. split; [lia |]. rewrite Nat2Z.id. exact Hi.
  - eapply post_links; [exact Hpost |].
    unfold semaphore.try_wait in Hwait. destruct (decide _); [| discriminate].
    injection Hwait as <-. exact IH.
  - exact IH.
  - eapply do_complete_links; eassumption.
Qed.

(** X11.  The end of the free list.  At every quiescent point the
    assertion of [allocate_desc] holds: [_free_desc] is not -1, because
    [setup] has pushed a descriptor and every link since went through a
    16-bit [_next].  When no permit is left, the free list is empty and
    [_free_desc] is 65535, the -1 of the constructor as the first
    descriptor's [_next] holds it: [allocate_desc] would then read
    [_descs[65535]], outside the table.  With a permit left it returns the
    descriptor on top of the free list. *)
Theorem X11_allocate_desc_exhausted (r : vring.t) (held returned : list (list Z)) :
  quiescent r held returned ->
  vring.allocate_desc r <> Abort /\
  (vring._available_descriptors r = 0 ->
   vring._free_desc r = 65535 /\ vring.allocate_desc r = Undefined) /\
  (1 <= vring._available_descriptors r ->
   exists d,
     at_index (vring._descs r) (vring._free_desc r) = Ret d /\
     vring.allocate_desc r
       = Ret (vring._free_desc r, vring.set_free_desc (vring.desc._next d) r)).
Proof.
  intros Hq. destruct (quiescent_links _ _ _ Hq) as [Hf _].
  destruct (quiescent_inv _ _ _ Hq) as (free & Hinv & Hsem).
  pose proof (inv_free _ _ _ _ Hinv) as Hfl.
  pose proof (ring_ok_descs r (inv_ok _ _ _ _ Hinv)) as Hlen.
  split; [| split].
  - unfold vring.allocate_desc. rewrite decide_False by lia.
    intros [H | (d & _ & H)]%bind_Abort; [| discriminate].
    exact (at_index_not_Abort _ _ H).
  - intros H0. destruct free as [| i free]; [| simpl in Hsem; lia].
    simpl in Hfl. assert (Hf' : vring._free_desc r = 65535) by lia.
    split; [exact Hf' |].
    unfold vring.allocate_desc. rewrite decide_False by lia.
    rewrite at_index_outside by lia. reflexivity.
  - intros H1. destruct free as [| i free]; [simpl in Hsem; lia |].
    destruct (allocate_desc_spec r i free Hfl) as (d & Hd & _ & E).
    destruct Hfl as [-> _]. exists d. auto.
Qed.

Lemma ring4_full_quiescent : quiescent ring4_full [[3]; [2]; [1]; [0]] [].
Proof.
  apply (q_post ring4 [] [] 4%nat rx4 (vring.set_available_descriptors 0 ring4)
           ring4_full [[3]; [2]; [1]; [0]] ring4_quiescent).
  - simpl. lia.
  - repeat constructor; discriminate.
  - reflexivity.
  - reflexivity.
  - reflexivity.
  - simpl. auto 10.
  - repeat constructor; simpl; try reflexivity; eexists; split; reflexivity.
Qed.

(** The ring of four with four receive buffers posted: no permit is
    left, [_free_desc] is 65535 and [allocate_desc] is out of bounds. *)
Lemma X11_allocate_desc_exhausted_witness :
  vring._available_descriptors ring4_full = 0 /\
  vring._free_desc ring4_full = 65535 /\
  vring.allocate_desc ring4_full = Undefined.
Proof.
  destruct (X11_allocate_desc_exhausted ring4_full [[3]; [2]; [1]; [0]] []
              ring4_full_quiescent) as (_ & H0 & _).
  split; [reflexivity |]. apply H0. reflexivity.
Defined.

(** ** Feature negotiation *)

Lemma opt_is_off_string opts name :
  (forall n, opts !! name <> Some (as_unsigned n)) ->
  exists b, opt_is_off opts name = Returns b /\
            (b = true <-> opt_off opts name).
Proof.
  intros Hs. unfold opt_is_off, opt_off. destruct (opts !! name) as [[s | n] |].
  - exists (bool_decide (s = "off")). split; [reflexivity |].
    rewrite bool_decide_eq_true. split; [intros ->; reflexivity | congruence].
  - destruct (Hs n). reflexivity.
  - exists false. split; [reflexivity |]. split; discriminate.
Qed.

Lemma land_u64 x b : 0 <= b < 2 ^ 64 -> Z.land (u64 x) b = Z.land x b.
Proof.
  intros Hb. apply Z.bits_inj'. intros n Hn. rewrite !Z.land_spec.
  destruct (Z.testbit b n) eqn:E; [| rewrite !andb_false_r; reflexivity].
  rewrite !andb_true_r. unfold u64.
  destruct (Z.lt_ge_cases n 64) as [Hlt | Hge].
  - apply Z.mod_pow2_bits_low. exact Hlt.
  - assert (Z.testbit b n = false); [| congruence].
    destruct (Z.eq_dec b 0) as [-> | Hne]; [apply Z.bits_0 |].
    apply Z.bits_above_log2; [lia |].
    assert (Z.log2 b < 64) by (apply Z.log2_lt_pow2; lia). lia.
Qed.

Lemma land_lor_apart a c b : Z.land c b = 0 -> Z.land (Z.lor a c) b = Z.land a b.
Proof. intros H. rewrite Z.land_lor_distr_l, H. apply Z.lor_0_r. Qed.

Lemma land_lor_cover a c b : Z.land a b = b -> Z.land (Z.lor a c) b = b.
Proof.
  intros H. apply Z.bits_inj'. intros n Hn. rewrite Z.land_spec, Z.lor_spec.
  destruct (Z.testbit b n) eqn:E; [| apply andb_false_r].
  assert (Ha : Z.testbit a n = true).
  { rewrite <- H, Z.land_spec in E. apply andb_true_iff in E. tauto. }
  rewrite Ha. reflexivity.
Qed.

Lemma land_lor_self a b : Z.land (Z.lor a b) b = b.
Proof.
  apply Z.bits_inj'. intros n Hn. rewrite Z.land_spec, Z.lor_spec.
  destruct (Z.testbit a n), (Z.testbit b n); reflexivity.
Qed.

Lemma throws_bind_Returns {A B : Type} (a : A) (f : A -> or_throws B) :
  Returns a ≫= f = f a.
Proof. reflexivity. Qed.

Lemma setup_features_spec bits opts hw0 :
  string_opts opts ->
  exists b1 b2 b3 b4 f4,
    (b1 = true <-> opt_off opts "event-index") /\
    (b2 = true <-> opt_off opts "csum-offload") /\
    (b3 = true <-> opt_off opts "tso") /\
    (b4 = true <-> opt_off opts "ufo") /\
    Z.land f4 (VIRTIO_NET_F_MRG_RXBUF bits) = VIRTIO_NET_F_MRG_RXBUF bits /\
    (event_idx_apart bits ->
     Z.land f4 (VIRTIO_RING_F_EVENT_IDX bits)
       = if b1 then 0 else VIRTIO_RING_F_EVENT_IDX bits) /\
    forall host,
      setup_features bits opts hw0 host =
        Returns (u64 f4, Z.land host f4,
                 mk_dev (if negb (Z.land (Z.land host f4) (VIRTIO_NET_F_MRG_RXBUF bits) =? 0)
                         then sizeof_net_hdr_mrg else sizeof_net_hdr)
                        (mk_hw_features (negb b2) (negb b2) (negb b3) (negb b4)
                           (mtu hw0))).
Proof.
  intros Hs.
  assert (Hin : forall name, name ∈ ["event-index"; "csum-offload"; "tso"; "ufo"] ->
                exists b, opt_is_off opts name = Returns b /\
                          (b = true <-> opt_off opts name)).
  { intros name Hname. apply opt_is_off_string. intros n. apply Hs. exact Hname. }
  destruct (Hin "event-index") as (b1 & E1 & H1);
    [repeat first [apply list_elem_of_here | apply list_elem_of_further] |].
  destruct (Hin "csum-offload") as (b2 & E2 & H2);
    [repeat first [apply list_elem_of_here | apply list_elem_of_further] |].
  destruct (Hin "tso") as (b3 & E3 & H3);
    [repeat first [apply list_elem_of_here | apply list_elem_of_further] |].
  destruct (Hin "ufo") as (b4 & E4 & H4);
    [repeat first [apply list_elem_of_here | apply list_elem_of_further] |].
  exists b1, b2, b3, b4. eexists.
  split; [exact H1 |]. split; [exact H2 |]. split; [exact H3 |]. split; [exact H4 |].
  split; [| split].
  3: { intros host. unfold setup_features.
       rewrite E1, throws_bind_Returns, E2, throws_bind_Returns,
         E3, throws_bind_Returns, E4, throws_bind_Returns.
       reflexivity. }
  - destruct b1, b2, b3, b4; cbn [negb];
      repeat first [apply land_lor_self | apply land_lor_cover].
  - intros [Hev Hall].
    repeat (apply Forall_cons in Hall as [? Hall]).
    destruct b1, b2, b3, b4; cbn [negb];
      rewrite ?Z.lor_assoc;
      repeat (rewrite land_lor_apart by assumption);
      first [apply land_lor_self | assumption].
Qed.

(** X12.  Feature negotiation.  An on/off option that holds something
    other than a string makes [setup_features] throw.  Otherwise it
    returns, and what it returns, which the rings' [event_index] is later
    read from, and the hardware features it sets follow the options alone,
    whatever the host reports: each is on unless its option is "off", the
    two checksum flags go together, and the MTU is left as it was.  Only
    the header length follows the host: 12 bytes when the host offers
    MRG_RXBUF and 10 bytes when it does not. *)
Theorem X12_setup_features_negotiation (bits : feature_bits)
    (opts : gmap string variable_value) (hw0 : hw_features) (host : Z) :
  (forall name n,
     name ∈ ["event-index"; "csum-offload"; "tso"; "ufo"] ->
     opts !! name = Some (as_unsigned n) ->
     setup_features bits opts hw0 host = bad_any_cast) /\
  (event_idx_apart bits -> string_opts opts ->
   exists f set d,
     setup_features bits opts hw0 host = Returns (f, set, d) /\
     (forall host', exists set' d',
        setup_features bits opts hw0 host' = Returns (f, set', d') /\
        _hw_features d' = _hw_features d) /\
     (Z.land host (VIRTIO_NET_F_MRG_RXBUF bits) <> 0 -> _header_len d = 12) /\
     (Z.land host (VIRTIO_NET_F_MRG_RXBUF bits) = 0 -> _header_len d = 10) /\
     (tx_csum_offload (_hw_features d) = true <-> ~ opt_off opts "csum-offload") /\
     rx_csum_offload (_hw_features d) = tx_csum_offload (_hw_features d) /\
     (tx_tso (_hw_features d) = true <-> ~ opt_off opts "tso") /\
     (tx_ufo (_hw_features d) = true <-> ~ opt_off opts "ufo") /\
     mtu (_hw_features d) = mtu hw0 /\
     (forall n storage m,
        vring.event_index (fst (common_config bits f n storage m)) = true
        <-> ~ opt_off opts "event-index")).
Proof.
  split.
  - intros name n Hname Hn.
    assert (Hbad : opt_is_off opts name = bad_any_cast).
    { unfold opt_is_off. rewrite Hn. reflexivity. }
    unfold setup_features.
    destruct (opt_is_off opts "event-index") eqn:E1; [| reflexivity].
    rewrite throws_bind_Returns.
    destruct (opt_is_off opts "csum-offload") eqn:E2; [| reflexivity].
    rewrite throws_bind_Returns.
    destruct (opt_is_off opts "tso") eqn:E3; [| reflexivity].
    rewrite throws_bind_Returns.
    destruct (opt_is_off opts "ufo") eqn:E4; [| reflexivity].
    repeat (apply elem_of_cons in Hname as [-> | Hname]; [congruence |]).
    inversion Hname.
  - intros Hbits Hs.
    destruct (setup_features_spec bits opts hw0 Hs)
      as (b1 & b2 & b3 & b4 & f4 & H1 & H2 & H3 & H4 & Hmrg & Hev & E).
    specialize (Hev Hbits). destruct Hbits as [Hrange _].
    eexists _, _, _. split; [apply E |]. cbn [_hw_features _header_len].
    assert (Hh : Z.land (Z.land host f4) (VIRTIO_NET_F_MRG_RXBUF bits)
                 = Z.land host (VIRTIO_NET_F_MRG_RXBUF bits)).
    { rewrite <- Z.land_assoc, Hmrg. reflexivity. }
    rewrite Hh.
    split; [intros host'; eexists _, _; split; [apply E | reflexivity] |].
    split; [intros Hne; apply Z.eqb_neq in Hne; rewrite Hne; reflexivity |].
    split; [intros He; rewrite He; reflexivity |].
    cbn [tx_csum_offload rx_csum_offload tx_tso tx_ufo mtu].
    split; [rewrite <- H2; destruct b2; simpl; split; congruence |].
    split; [reflexivity |].
    split; [rewrite <- H3; destruct b3; simpl; split; congruence |].
    split; [rewrite <- H4; destruct b4; simpl; split; congruence |].
    split; [reflexivity |].
    intros n storage m. unfold common_config. cbn [fst vring.event_index].
    rewrite land_u64 by lia. rewrite Hev, <- H1.
    destruct b1.
    + simpl. split; [discriminate | intros H; destruct H; reflexivity].
    + assert (Hne : (VIRTIO_RING_F_EVENT_IDX bits =? 0) = false)
        by (apply Z.eqb_neq; lia).
      rewrite Hne. simpl. split; [discriminate | reflexivity].
Qed.

Lemma virtio_bits_apart : event_idx_apart virtio_bits.
Proof. split; [vm_compute; split; reflexivity | repeat constructor]. Qed.

Lemma opts_default_strings : string_opts opts_default.
Proof.
  intros name n Hname.
  repeat (apply elem_of_cons in Hname as [-> | Hname]; [vm_compute; discriminate |]).
  inversion Hname.
Qed.

(** Default options against a host that offers MRG_RXBUF but not
    EVENT_IDX: the header is 12 bytes, EVENT_IDX is not in the set passed
    to VHOST_SET_FEATURES, and the rings are configured with event_index
    all the same. *)
Lemma X12_setup_features_negotiation_witness :
  exists f set d,
    setup_features virtio_bits opts_default hw_all_on (2 ^ 15) = Returns (f, set, d) /\
    _header_len d = 12 /\
    Z.land set (VIRTIO_RING_F_EVENT_IDX virtio_bits) = 0 /\
    vring.event_index (fst (common_config virtio_bits f 256 0 false)) = true.
Proof.
  destruct (X12_setup_features_negotiation virtio_bits opts_default hw_all_on (2 ^ 15))
    as [_ H].
  destruct (H virtio_bits_apart opts_default_strings)
    as (f & set & d & E & _ & H12 & _ & _ & _ & _ & _ & _ & Hev).
  exists f, set, d. split; [exact E |].
  split; [apply H12; vm_compute; discriminate |].
  split.
  - pose proof E as E0. vm_compute in E0. injection E0 as _ <- _. reflexivity.
  - apply Hev. vm_compute. discriminate.
Defined.

(** ** The memory of a ring *)

Lemma align_up_4096 v :
  v <= align_up v 4096 < v + 4096 /\ align_up v 4096 `mod` 4096 = 0.
Proof.
  unfold align_up. split.
  - pose proof (Z.div_mod (v + 4096 - 1) 4096 ltac:(lia)).
    pose proof (Z.mod_pos_bound (v + 4096 - 1) 4096 ltac:(lia)). lia.
  - apply Z_mod_mult.
Qed.

(** X13.  The memory of a ring.  For a ring size [n] below 2^28 and a
    storage buffer of [vring_storage_size] bytes that lies in the address
    space, [txq_config] and [rxq_config] place the three areas one after
    the other without overlap and inside the buffer: the descriptors at
    its start, the available ring right after them, the used ring at the
    next 4 KiB boundary after the available ring, ending before the
    buffer does.  The two differ in [mergable_buffers] only.  From 2^28
    on, 16 * size wraps as a 32-bit product and the available ring starts
    inside the descriptor table. *)
Theorem X13_ring_layout (bits : feature_bits) (opts : gmap string variable_value)
    (features storage n : Z) :
  ring_size opts = Returns n -> 0 < n < 2 ^ 32 -> 0 <= storage ->
  storage + (3 * 4096 + 26 * n) <= 2 ^ 64 ->
  exists c a sz,
    txq_config bits opts features storage = Returns (c, a) /\
    rxq_config bits opts features storage
      = Returns (vring.mk_config (vring.size c) (vring.event_index c)
                   (vring.indirect c) true, a) /\
    vring_storage_size opts = Returns sz /\
    vring.size c = n /\ vring.indirect c = false /\
    vring.mergable_buffers c = false /\
    layout.descs a = storage /\
    (n < 2 ^ 28 ->
     layout.avail a = layout.descs a + descs_bytes n /\
     layout.avail a + avail_bytes n <= layout.used a /\
     layout.used a < layout.avail a + avail_bytes n + 4096 /\
     layout.used a `mod` 4096 = 0 /\
     layout.used a + used_bytes n <= storage + sz) /\
    (2 ^ 28 <= n -> layout.avail a < layout.descs a + descs_bytes n).
Proof.
  intros Hn Hr Hs Hfit.
  assert (H32 : 2 ^ 32 = 4294967296) by reflexivity.
  assert (H28 : 2 ^ 28 = 268435456) by reflexivity.
  assert (H64 : 2 ^ 64 = 18446744073709551616) by reflexivity.
  eexists _, _, _. unfold txq_config, rxq_config, vring_storage_size.
  rewrite Hn, !throws_bind_Returns. unfold common_config.
  split; [reflexivity |]. split; [reflexivity |]. split; [reflexivity |].
  cbn [vring.size vring.indirect vring.mergable_buffers layout.descs layout.avail
       layout.used fst snd].
  rewrite (u32_small n) by lia.
  split; [reflexivity |]. split; [reflexivity |]. split; [reflexivity |].
  split; [reflexivity |].
  unfold descs_bytes, avail_bytes, used_bytes. split.
  - intros Hsmall.
    rewrite (u32_small (16 * n)), (u32_small (2 * n)) by lia.
    rewrite (u64_small (storage + 16 * n)) by lia.
    rewrite (u64_small (storage + 16 * n + 2 * n)) by lia.
    rewrite (u64_small (storage + 16 * n + 2 * n + 6)) by lia.
    rewrite (u64_small (n * (16 + 2 + 8))) by lia.
    rewrite (u64_small (3 * 4096 + n * (16 + 2 + 8))) by lia.
    destruct (align_up_4096 (storage + 16 * n + 2 * n + 6)) as [Hup Hmod].
    split; [lia |]. split; [lia |]. split; [lia |]. split; [exact Hmod | lia].
  - intros Hbig.
    assert (Hw : u32 (16 * n) <= 16 * n - 2 ^ 32).
    { unfold u32. rewrite H32.
      pose proof (Z.div_mod (16 * n) 4294967296 ltac:(lia)).
      assert (1 <= 16 * n / 4294967296) by (apply Z.div_le_lower_bound; lia).
      lia. }
    assert (Hw0 : 0 <= u32 (16 * n)).
    { unfold u32. apply Z.mod_pos_bound. lia. }
    rewrite (u64_small (storage + u32 (16 * n))) by lia. lia.
Qed.

(** The default ring of 256 descriptors in a buffer at 4096: the
    descriptors take 4096 bytes, the available ring starts at 8192 and the
    used ring at 12288, and its 2054 bytes end inside the 18944 bytes of
    the buffer. *)
Lemma X13_ring_layout_witness :
  exists c a,
    txq_config virtio_bits opts_default 0 4096 = Returns (c, a) /\
    vring_storage_size opts_default = Returns 18944 /\
    vring.size c = 256 /\
    layout.descs a = 4096 /\ layout.avail a = 8192 /\ layout.used a = 12288.
Proof.
  destruct (X13_ring_layout virtio_bits opts_default 0 4096 256)
    as (c & a & sz & E & _ & Esz & Hsize & _ & _ & Hd & Hsmall & _).
  - vm_compute. reflexivity.
  - vm_compute. split; reflexivity.
  - lia.
  - vm_compute. discriminate.
  - exists c, a. split; [exact E |].
    pose proof E as E0. vm_compute in E0. injection E0 as <- <-.
    repeat split; reflexivity.
Defined.

(** ** Checksum offload switched off *)

(** X14.  A device name that does not fit IFNAMSIZ with its terminator
    fails the assertion of [setup_tap_device].  With the option
    csum-offload set to "off", whatever tso and ufo say and whatever the
    host offers, no offload is requested from the TAP device (the word
    passed to TUNSETOFFLOAD is 0) and every packet [txq::post] sends
    carries an all-zero virtio-net header. *)
Theorem X14_csum_off_end_to_end (bits : feature_bits) (tun : tun_consts)
    (opts : gmap string variable_value) (hw0 : hw_features) (host : Z)
    (tap_device : string) :
  (forall d,
     IFNAMSIZ tun < Z.of_nat (String.length tap_device) + 1 < 2 ^ 64 ->
     setup_tap_device tun tap_device d = Abort) /\
  (string_opts opts -> opt_off opts "csum-offload" ->
   Z.of_nat (String.length tap_device) + 1 <= IFNAMSIZ tun < 2 ^ 64 ->
   exists f set d,
     setup_features bits opts hw0 host = Returns (f, set, d) /\
     setup_tap_device tun tap_device d = Ret (0, _header_len d) /\
     forall fuel vhdr_addr p r,
       fst (txq_post fuel d vhdr_addr p r) = vhdr_zero).
Proof.
  split.
  - intros d Hlen. unfold setup_tap_device.
    rewrite u64_small by lia. rewrite decide_False by lia. reflexivity.
  - intros Hs Hoff Hlen.
    destruct (setup_features_spec bits opts hw0 Hs)
      as (b1 & b2 & b3 & b4 & f4 & _ & H2 & _ & _ & _ & _ & E).
    apply H2 in Hoff. subst b2.
    eexists _, _, _. split; [apply E |]. split.
    + unfold setup_tap_device. rewrite u64_small by lia.
      rewrite decide_True by lia. reflexivity.
    + intros fuel vhdr_addr p r. reflexivity.
Qed.

(** Checksum offload off, TSO and UFO left on, on the device tap0. *)
Lemma X14_csum_off_end_to_end_witness :
  exists f set d,
    setup_features virtio_bits opts_csum_off hw_all_on (2 ^ 15) = Returns (f, set, d) /\
    tx_tso (_hw_features d) = true /\
    setup_tap_device linux_tun "tap0" d = Ret (0, 12) /\
    fst (txq_post 4 d 1024 tcp_5000 ring4) = vhdr_zero.
Proof.
  destruct (X14_csum_off_end_to_end virtio_bits linux_tun opts_csum_off hw_all_on
              (2 ^ 15) "tap0") as [_ H].
  destruct H as (f & set & d & E & Htap & Hhdr).
  - intros name n Hname.
    repeat (apply elem_of_cons in Hname as [-> | Hname]; [vm_compute; discriminate |]).
    inversion Hname.
  - vm_compute. reflexivity.
  - vm_compute. split; [discriminate | reflexivity].
  - exists f, set, d. split; [exact E |].
    pose proof E as E0. vm_compute in E0. injection E0 as _ _ <-.
    split; [reflexivity |]. split; [exact Htap | apply Hhdr].
Defined.

(** ** The promises of a batch *)

Lemma take_add_split {A : Type} (n m : nat) : forall l : list A,
  take (n + m) l = take n l ++ take m (drop n l).
Proof.
  induction n as [| n IH]; intros [| x l]; simpl; try reflexivity.
  - destruct m; reflexivity.
  - rewrite IH. reflexivity.
Qed.

Lemma posts_assigned chains : forall r free held returned,
  pool_inv r free held returned ->
  Forall (fun bc => bc <> []) chains ->
  (length (concat chains) <= length free)%nat ->
  exists r',
    for_each vring.post_chain chains r = Ret r' /\
    avail_between (vring.avail_layout._ring (vring._avail_shared r'))
      (vring.mask r) (vring._avail_head r) (map (hd 0) (assigned free chains)) /\
    Forall2
      (Forall2 (fun b i => at_index (vring._completions r') i = Ret (vring.completed b)))
      chains (assigned free chains) /\
    (forall i, i ∉ take (length (concat chains)) free ->
       at_index (vring._completions r') i = at_index (vring._completions r) i).
Proof.
  induction chains as [| bc chains IH]; intros r free held returned Hinv Hne Hn.
  - exists r. simpl. split; [reflexivity |]. split; [exact I |]. split; [constructor | auto].
  - apply Forall_cons in Hne as [Hbc Hne].
    simpl concat in Hn. rewrite length_app in Hn.
    pose proof Hinv as [Hok Hfl _ Hnd _ _].
    assert (Hnd_free : NoDup free) by (apply NoDup_app in Hnd; tauto).
    destruct (post_chain_inv bc r free held returned Hinv Hbc ltac:(lia))
      as (r1 & E1 & Hinv1 & _ & Hring1 & Hhead1 & Hv1).
    cbv zeta in *. set (n := length bc) in *. set (c := reverse (take n free)) in *.
    destruct (post_chain_promises bc r free Hok Hfl Hnd_free ltac:(lia))
      as (r1' & E1' & Hall1 & Hout1 & _).
    rewrite E1 in E1'. injection E1' as <-. fold n in Hall1, Hout1. fold c in Hall1.
    destruct (IH r1 (drop n free) (held ++ [c]) returned Hinv1 Hne)
      as (r' & E & Hab & Hall & Hout).
    { rewrite length_drop. lia. }
    destruct (posts_spec chains r1 (drop n free) (held ++ [c]) returned Hinv1 Hne)
      as (r'' & _ & E'' & _ & _ & _ & Hring & _).
    { rewrite length_drop. lia. }
    rewrite E in E''. injection E'' as <-.
    assert (Hcfg : vring._config r1 = vring._config r) by (injection Hv1; auto).
    assert (Hmask : vring.mask r1 = vring.mask r)
      by (unfold vring.mask; rewrite Hcfg; reflexivity).
    rewrite Hmask, Hhead1 in Hab, Hring.
    pose proof (ring_ok_size_pos r Hok) as Hpos.
    destruct (pool_inv_sizes _ _ _ _ Hinv) as [_ Hsum].
    assert (Hm : Z.of_nat (length chains) < vring.size (vring._config r)).
    { pose proof (length_concat_ge chains Hne).
      assert (length bc <> 0%nat) by (destruct bc; [congruence | discriminate]).
      lia. }
    assert (Hslot : 0 <= Z.land (vring._avail_head r) (vring.mask r)
                    < Z.of_nat (length (vring.avail_layout._ring (vring._avail_shared r)))).
    { rewrite land_mask by exact Hok. rewrite (ok_ring r Hok).
      apply Z.mod_pos_bound. exact Hpos. }
    assert (Hdisj : forall i, i ∈ take n free ->
                    i ∉ take (length (concat chains)) (drop n free)).
    { intros i Hi Hi'. rewrite <- (take_drop n free) in Hnd_free.
      apply NoDup_app in Hnd_free as (_ & Hd & _). apply (Hd i Hi).
      exact (subseteq_take _ _ i Hi'). }
    exists r'. split; [simpl; rewrite E1; exact E |].
    cbn [assigned map]. fold n c. split; [| split].
    + split; [| exact Hab].
      rewrite Hring by (apply avail_slot_fresh; assumption).
      rewrite Hring1. apply at_index_insert_eq. exact Hslot.
    + constructor; [| exact Hall].
      apply Forall2_same_length_lookup. split; [eapply Forall2_length; exact Hall1 |].
      intros j b i Hb Hi.
      rewrite Hout.
      * exact (Forall2_lookup_lr _ _ _ _ _ _ Hall1 Hb Hi).
      * apply Hdisj. apply list_elem_of_lookup_2 in Hi.
        unfold c in Hi. rewrite elem_of_reverse in Hi. exact Hi.
    + intros i Hi. cbn [concat] in Hi.
      rewrite length_app, take_add_split in Hi. fold n in Hi.
      apply not_elem_of_app in Hi as [Hi1 Hi2].
      rewrite (Hout i Hi2). apply Hout1. exact Hi1.
Qed.

(** ** A receive buffer, from [prepare_buffers] to its completion *)

Lemma kick_keeps_promises r :
  vring._completions (vring.kick r) = vring._completions r /\
  vring.set_values (vring.kick r) = vring.set_values r.
Proof. destruct (kick_cases r) as [-> | ->]; auto. Qed.

Lemma length_assigned chains : forall free,
  length (assigned free chains) = length chains.
Proof. induction chains as [| bc chains IH]; intros free; simpl; [| rewrite IH]; reflexivity. Qed.

Lemma assigned_singletons chains : forall free,
  Forall (fun bc => length bc = 1%nat) chains ->
  (length chains <= length free)%nat ->
  assigned free chains = map (fun i => [i]) (take (length chains) free).
Proof.
  induction chains as [| bc chains IH]; intros free Hone Hlen; [reflexivity |].
  apply Forall_cons in Hone as [Hbc Hone]. cbn [assigned length]. rewrite Hbc.
  destruct free as [| i free]; [cbn [length] in Hlen; lia |].
  cbn [length] in Hlen. cbn [take drop map].
  rewrite take_0, drop_0, (IH free Hone) by lia. reflexivity.
Qed.

Lemma singletons_heads (l : list (list Z)) :
  Forall (fun c => length c = 1%nat) l -> l = map (fun i => [i]) (map (hd 0) l).
Proof.
  induction 1 as [| c l Hc _ IH]; [reflexivity |].
  destruct c as [| i [| ? ?]]; try discriminate. simpl. rewrite <- IH. reflexivity.
Qed.

Lemma avail_between_lookup r ring hs : forall head (k : nat) h,
  ring_ok r ->
  avail_between ring (vring.mask r) head hs -> hs !! k = Some h ->
  at_index ring (Z.land (head + Z.of_nat k) (vring.mask r)) = Ret h.
Proof.
  induction hs as [| h0 hs IH]; intros head k h Hok Hab Hk; [discriminate |].
  destruct Hab as [H0 Hab]. destruct k as [| k].
  - injection Hk as <-. rewrite Z.add_0_r. exact H0.
  - simpl in Hk. rewrite <- (IH _ _ _ Hok Hab Hk). f_equal.
    pose proof (ring_ok_size_pos r Hok) as Hpos.
    rewrite !land_mask by exact Hok.
    rewrite (Z.add_mod (u16 _)), u16_mod_size, <- Z.add_mod by (exact Hok || lia).
    f_equal. lia.
Qed.

Lemma quiescent_post_heads fuel chains r held returned :
  quiescent r held returned ->
  Forall (fun bc => bc <> []) chains ->
  Z.of_nat (length (concat chains)) <= vring._available_descriptors r ->
  vring.size (vring._config r) <= Z.of_nat fuel ->
  exists free r2 r' news,
    pool_inv r free held returned /\
    for_each vring.post_chain chains
      (vring.set_available_descriptors
         (vring._available_descriptors r - Z.of_nat (length (concat chains))) r)
      = Ret r2 /\
    vring.post fuel chains
      (vring.set_available_descriptors
         (vring._available_descriptors r - Z.of_nat (length (concat chains))) r)
      = Ret r' /\
    vring.avail_layout._ring (vring._avail_shared r')
      = vring.avail_layout._ring (vring._avail_shared r2) /\
    vring._completions r' = vring._completions r2 /\
    quiescent r' (held ++ news) [] /\
    length news = length chains /\
    length (concat news) = length (concat chains) /\
    Forall (fun c => c <> []) news /\
    avail_between (vring.avail_layout._ring (vring._avail_shared r'))
      (vring.mask r) (vring._avail_head r) (map (hd 0) news) /\
    vring._available_descriptors r'
      = vring._available_descriptors r - Z.of_nat (length (concat chains))
        + Z.of_nat (length (concat returned)) /\
    vring._available_descriptors r = Z.of_nat (length free) /\
    vring._config r' = vring._config r.
Proof.
  intros Hq Hne Hn Hfuel.
  destruct (quiescent_inv r held returned Hq) as (free & Hinv & Hsem).
  assert (Hn' : (length (concat chains) <= length free)%nat) by lia.
  destruct (post_spec fuel chains r free held returned Hinv Hsem Hne Hn' Hfuel)
    as (r' & news & E & Hinv' & Hs' & Hlen' & Hab' & Hcfg).
  pose proof E as E0. unfold vring.post in E0.
  apply bind_Ret_inv in E0 as (r2 & E2 & Edc).
  destruct (do_complete_keeps _ _ _ Edc) as (_ & Hring & _).
  destruct (do_complete_values _ _ _ Edc) as (_ & _ & _ & _ & _ & Hcs).
  set (r3 := vring.set_avail_shared _ r2) in *.
  destruct (kick_views r3) as (_ & _ & Hkr).
  destruct (kick_keeps_promises r3) as (Hkc & _).
  pose proof (inv_chains _ _ _ _ Hinv') as Hall.
  rewrite app_nil_r in Hall. apply Forall_app in Hall as [_ Hall].
  exists free, r2, r', news. split; [exact Hinv |]. split; [exact E2 |].
  split; [exact E |].
  split; [rewrite Hring, Hkr; reflexivity |].
  split; [rewrite Hcs, Hkc; reflexivity |].
  split.
  { eapply q_post; try eassumption.
    unfold semaphore.try_wait, semaphore.current. rewrite decide_True by exact Hn.
    reflexivity. }
  split; [exact Hlen' |].
  destruct (pool_inv_sizes _ _ _ _ Hinv) as [_ Hsum].
  destruct (pool_inv_sizes _ _ _ _ Hinv') as [_ Hsum'].
  rewrite Hcfg, app_nil_r in Hsum'.
  rewrite !concat_app, !length_app, ?length_reverse, ?length_drop in *.
  split; [lia |]. split.
  { eapply Forall_impl; [exact Hall |]. intros c Hc. eapply chain_nonempty. exact Hc. }
  split; [exact Hab' |]. split; [rewrite Hs', Hsem; lia |].
  split; [exact Hsem | exact Hcfg].
Qed.

Lemma prepare_buffers_post fuel alloc r :
  1 <= vring._available_descriptors r < 2 ^ 32 ->
  prepare_buffers fuel alloc r =
    Resumed (vring.post fuel
               (map (fun i => make_buffer_chain (alloc i))
                    (seq 0 (Z.to_nat (vring._available_descriptors r))))
               (vring.set_available_descriptors 0 r)).
Proof.
  intros Hk. unfold prepare_buffers, semaphore.wait, semaphore.try_wait, semaphore.current.
  rewrite decide_True by lia.
  cbn [vring._available_descriptors vring.set_available_descriptors].
  rewrite decide_True by lia.
  replace (u32 (1 + (vring._available_descriptors r - 1)))
    with (vring._available_descriptors r) by (rewrite u32_small by lia; lia).
  f_equal. f_equal. unfold vring.set_available_descriptors. simpl. f_equal. lia.
Qed.

(** X15.  A receive buffer, from [prepare_buffers] to its completion.
    At a quiescent point with [m >= 1] permits, [prepare_buffers] posts
    [m] buffers; the [k]-th buffer allocated ([k < m]) has its head
    published in the [k]-th slot from the old head counter, and its
    promise, the one whose continuation owns that buffer, in the
    completion slot of that head.  When the host hands that head back
    with length [len], [do_complete] fulfils exactly that promise, with
    [len], and releases the buffer's permit. *)
Theorem X15_rx_buffer_round_trip (fuel : nat) (alloc : nat -> Z) (r : vring.t)
    (held returned : list (list Z)) (k : nat) :
  quiescent r held returned ->
  vring.size (vring._config r) <= Z.of_nat fuel ->
  (k < Z.to_nat (vring._available_descriptors r))%nat ->
  exists r1 h,
    prepare_buffers fuel alloc r = Resumed (Ret r1) /\
    at_index (vring.avail_layout._ring (vring._avail_shared r1))
             (Z.land (vring._avail_head r + Z.of_nat k) (vring.mask r)) = Ret h /\
    at_index (vring._completions r1) h = Ret (promise_rx (alloc k)) /\
    forall used' len,
      used_between used' (vring.mask r1) (vring._used_tail r1)
        (vring.used_layout._idx used') [vring.used_elem.mk h len] ->
      exists r',
        vring.do_complete fuel (vring.set_used_shared used' r1) = Ret r' /\
        vring.set_values r' = vring.set_values r1 ++ [(promise_rx (alloc k), len)] /\
        vring._available_descriptors r' = Z.of_nat (length (concat returned)) + 1.
Proof.
  intros Hq Hfuel Hk. set (m := Z.to_nat (vring._available_descriptors r)) in *.
  set (chains := map (fun i => make_buffer_chain (alloc i)) (seq 0 m)).
  assert (Hcc : length (concat chains) = m).
  { unfold chains. rewrite concat_buffer_chains, length_seq. reflexivity. }
  assert (Hlc : length chains = m).
  { unfold chains. rewrite length_map, length_seq. reflexivity. }
  assert (Hne : Forall (fun bc => bc <> []) chains).
  { unfold chains. apply Forall_forall. intros bc Hbc.
    apply list_elem_of_fmap in Hbc as (i & -> & _). discriminate. }
  assert (Hone : Forall (fun bc => length bc = 1%nat) chains).
  { unfold chains. apply Forall_forall. intros bc Hbc.
    apply list_elem_of_fmap in Hbc as (i & -> & _). reflexivity. }
  destruct (quiescent_post_heads fuel chains r held returned Hq Hne)
    as (free & r2 & r1 & news & Hinv & E2 & E & Hring & Hcs & Hq1 & Hlen & Hcl
        & Hnn & Hab & Hs1 & Hsem & Hcfg).
  { rewrite Hcc. unfold m. lia. }
  { exact Hfuel. }
  pose proof (inv_ok _ _ _ _ Hinv) as Hok.
  assert (Hmf : m = length free) by (unfold m; rewrite Hsem; lia).
  assert (H0 : vring._available_descriptors r - Z.of_nat (length (concat chains)) = 0)
    by (rewrite Hcc, Hsem; lia).
  rewrite H0 in E, E2.
  destruct (posts_assigned chains (vring.set_available_descriptors 0 r) free held returned)
    as (r2' & E2' & Hab2 & Hall2 & _).
  { eapply pool_inv_ext; [| exact Hinv]. reflexivity. }
  { exact Hne. }
  { lia. }
  rewrite E2 in E2'. injection E2' as <-.
  change (vring.mask (vring.set_available_descriptors 0 r)) with (vring.mask r) in Hab2.
  change (vring._avail_head (vring.set_available_descriptors 0 r))
    with (vring._avail_head r) in Hab2.
  assert (Has : assigned free chains = map (fun i => [i]) free).
  { assert (Hle : (length chains <= length free)%nat)
      by (rewrite Hlc, Hmf; apply Nat.le_refl).
    assert (Hge : (length free <= length chains)%nat)
      by (rewrite Hlc, Hmf; apply Nat.le_refl).
    rewrite (assigned_singletons chains free Hone Hle).
    rewrite take_ge; [reflexivity | exact Hge]. }
  rewrite <- Hring in Hab2.
  assert (Hheads : map (hd 0) news = free).
  { assert (Hl : length (map (hd 0) news) = length (map (hd 0) (assigned free chains))).
    { rewrite !length_map, length_assigned. exact Hlen. }
    rewrite (avail_between_unique _ _ _ _ _ Hl Hab Hab2), Has.
    rewrite <- list_fmap_compose. apply list_fmap_id. }
  assert (Hnews : news = map (fun i => [i]) free).
  { rewrite <- Hheads. apply singletons_heads.
    apply concat_singletons; [exact Hnn |].
    rewrite Hcl, Hlen. etransitivity; [exact Hcc | symmetry; exact Hlc]. }
  destruct (lookup_lt_is_Some_2 free k ltac:(lia)) as [h Hh].
  assert (Hp : at_index (vring._completions r1) h = Ret (promise_rx (alloc k))).
  { rewrite Hcs.
    assert (Hck : chains !! k = Some (make_buffer_chain (alloc k))).
    { unfold chains. rewrite list_lookup_fmap, lookup_seq_lt by lia. reflexivity. }
    assert (Hak : assigned free chains !! k = Some [h]).
    { rewrite Has, list_lookup_fmap, Hh. reflexivity. }
    pose proof (Forall2_lookup_lr _ _ _ _ _ _ Hall2 Hck Hak) as H2.
    inversion H2 as [| ? ? ? ? Hb _]; subst. exact Hb. }
  exists r1, h. split.
  { rewrite prepare_buffers_post; [fold m; fold chains; rewrite E; reflexivity |].
    destruct Hok as [(e & He & Hsz) _ _ _ _ _].
    destruct (pool_inv_sizes _ _ _ _ Hinv) as [_ Hsum].
    assert (2 ^ e <= 2 ^ 15) by (apply Z.pow_le_mono_r; lia).
    assert (2 ^ 15 < 2 ^ 32) by reflexivity. lia. }
  split.
  { eapply avail_between_lookup; [exact Hok | exact Hab |]. rewrite Hheads. exact Hh. }
  split; [exact Hp |].
  intros used' len Hub.
  assert (Hnk : news !! k = Some [h]).
  { rewrite Hnews, list_lookup_fmap, Hh. reflexivity. }
  pose proof (take_drop_middle news k [h] Hnk) as Hsplit.
  rewrite <- Hsplit, app_assoc in Hq1.
  pose proof (q_host r1 (held ++ take k news) [h] (drop (S k) news) [] used'
                [vring.used_elem.mk h len] Hq1 Hub eq_refl) as Hqh.
  destruct (quiescent_inv _ _ _ Hqh) as (free1 & Hinv1 & _).
  destruct (do_complete_spec fuel _ _ _ _ Hinv1) as (r' & Edc & _ & Hsem' & _).
  { change (vring._config (vring.set_used_shared used' r1)) with (vring._config r1).
    rewrite Hcfg. exact Hfuel. }
  exists r'. split; [exact Edc |].
  destruct (do_complete_values _ _ _ Edc) as (ues & ps & Hub2 & Hps & Hvals & _).
  assert (ues = [vring.used_elem.mk h len]) by (eapply used_between_unique; eassumption).
  subst ues.
  change (vring._completions (vring.set_used_shared used' r1))
    with (vring._completions r1) in Hps.
  change (vring.set_values (vring.set_used_shared used' r1))
    with (vring.set_values r1) in Hvals.
  inversion Hps as [| ue p ues' ps' Hp1 Hrest]; subst ps. inversion Hrest; subst.
  cbn [vring.used_elem._id] in Hp1. rewrite Hp in Hp1. injection Hp1 as <-.
  split; [exact Hvals |].
  rewrite Hsem'.
  change (vring._available_descriptors (vring.set_used_shared used' r1))
    with (vring._available_descriptors r1).
  rewrite Hs1, Hcc, Hsem. simpl. lia.
Qed.

(** The fresh ring of four filled by [prepare_buffers]: the second
    buffer, at 4096, goes to descriptor 2, published in slot 1; handed
    back with 1514 bytes, its promise is fulfilled with 1514. *)
Lemma X15_rx_buffer_round_trip_witness :
  exists r1 r',
    prepare_buffers 4 (fun k => 4096 * Z.of_nat k) ring4 = Resumed (Ret r1) /\
    at_index (vring.avail_layout._ring (vring._avail_shared r1)) 1 = Ret 2 /\
    at_index (vring._completions r1) 2 = Ret (promise_rx 4096) /\
    vring.do_complete 4 (vring.set_used_shared (used4_one 2 1514) r1) = Ret r' /\
    vring.set_values r' = [(promise_rx 4096, 1514)] /\
    vring._available_descriptors r' = 1.
Proof.
  destruct (X15_rx_buffer_round_trip 4 (fun k => 4096 * Z.of_nat k) ring4 [] [] 1
              ring4_quiescent) as (r1 & h & E & Hslot & Hp & Hdone).
  - simpl. lia.
  - vm_compute. lia.
  - assert (Hr1 : r1 = ring4_full).
    { pose proof E as E0. vm_compute in E0. injection E0 as <-. reflexivity. }
    subst r1.
    assert (Hh : h = 2).
    { vm_compute in Hslot. injection Hslot as <-. reflexivity. }
    subst h.
    destruct (Hdone (used4_one 2 1514) 1514) as (r' & Edc & Hsv & Hsem).
    + simpl. split; [discriminate |]. split; reflexivity.
    + exists ring4_full, r'. split; [exact E |]. split; [exact Hslot |].
      split; [exact Hp |]. split; [exact Edc |]. split; [exact Hsv | exact Hsem].
Defined.

(** ** A new ring *)

Lemma free_list_last ds l : forall f x,
  free_list ds f (l ++ [x]) ->
  exists d, at_index ds x = Ret d /\
            (vring.desc._next d = -1 \/ vring.desc._next d = 65535).
Proof.
  induction l as [| i l IH]; intros f x H.
  - destruct H as (_ & d & Hd & Hend). exists d. split; [exact Hd | exact Hend].
  - destruct H as (_ & d & _ & H). eapply IH. exact H.
Qed.

Lemma reverse_seqZ_hd n : 0 < n -> exists l', reverse (seqZ 0 n) = (n - 1) :: l'.
Proof.
  intros Hn. destruct (Z_of_nat_complete (n - 1)) as [k Hk]; [lia |].
  replace n with (Z.of_nat (S k)) by lia.
  rewrite seqZ_S, reverse_snoc. eexists. f_equal. lia.
Qed.

(** X16.  A new ring.  Whatever the storage held, on a table of [size]
    descriptors (at most 65535) the constructor returns with every
    descriptor on the free list, the highest on top and descriptor 0 last,
    its [_next] holding 65535; the semaphore counts [size] permits, the
    counters are 0 and the shared areas are left as they were.  Only a
    ring of size 0 is left with [_free_desc] at -1, the one state in
    which the assertion of [allocate_desc] fails. *)
Theorem X16_new_ring (conf : vring.config) (completions : list promise)
    (descs : list vring.desc.t) (avail : vring.avail_layout.t)
    (used : vring.used_layout.t) :
  0 <= vring.size conf <= 65535 ->
  Z.of_nat (length descs) = vring.size conf ->
  exists r,
    vring.new conf completions descs avail used = Ret r /\
    free_descs r = reverse (seqZ 0 (vring.size conf)) /\
    vring._available_descriptors r = vring.size conf /\
    unfreed_view r = (conf, 0, completions, avail, 0, 0, used, 0, []) /\
    (vring.size conf = 0 -> vring.allocate_desc r = Abort) /\
    (0 < vring.size conf ->
     vring._free_desc r = vring.size conf - 1 /\
     exists d0, at_index (vring._descs r) 0 = Ret d0 /\ vring.desc._next d0 = 65535).
Proof.
  intros Hsz Hd.
  set (r0 := vring.mk conf 0 completions descs avail 0 0 used 0 0 (-1) []).
  destruct (frees_spec (seqZ 0 (vring.size conf)) r0 [])
    as (ds' & f' & s' & E & Hs & Hl & Hfl).
  { simpl. lia. }
  { rewrite app_nil_r. apply NoDup_seqZ. }
  { intros i Hi. apply elem_of_seqZ in Hi. simpl. lia. }
  { left. reflexivity. }
  rewrite app_nil_r in Hfl.
  assert (Enew : vring.new conf completions descs avail used
                 = Ret (vring.set_available_descriptors s'
                          (vring.set_free_desc f' (vring.set_descs ds' r0)))) by exact E.
  eexists. split; [exact Enew |].
  split; [| split; [| split; [| split]]].
  - unfold free_descs. cbn [vring._descs vring._free_desc vring.set_available_descriptors
                            vring.set_free_desc vring.set_descs].
    apply free_walk_spec; [simpl in Hl; lia | exact Hfl |].
    rewrite length_reverse, length_seqZ. simpl in Hl. lia.
  - simpl. rewrite Hs. simpl. rewrite length_seqZ. lia.
  - reflexivity.
  - intros H0.
    assert (E0 : vring.new conf completions descs avail used = Ret r0).
    { unfold vring.new, vring.setup. cbn [vring._config]. rewrite H0. reflexivity. }
    rewrite E0 in Enew.
    pose proof (f_equal (fun o => match o with
                                  | Ret x => vring._free_desc x
                                  | _ => 0
                                  end) Enew) as Hf.
    simpl in Hf. unfold vring.allocate_desc.
    cbn [vring._free_desc vring.set_available_descriptors vring.set_free_desc].
    rewrite decide_True by congruence. reflexivity.
  - intros Hpos. cbn [vring._free_desc vring._descs vring.set_available_descriptors
                       vring.set_free_desc vring.set_descs].
    rewrite (seqZ_cons 0) in Hfl by exact Hpos. rewrite reverse_cons in Hfl.
    destruct (setup_links _ _ _ [] E) as (Hall & Hf & _).
    { intros j d Hj. inversion Hj. }
    split.
    + assert (Hrev : exists l', reverse (seqZ 0 (vring.size conf))
                                = (vring.size conf - 1) :: l').
      { apply reverse_seqZ_hd. exact Hpos. }
      destruct Hrev as [l' Hrev].
      rewrite <- reverse_cons, <- (seqZ_cons 0), Hrev in Hfl by exact Hpos.
      destruct Hfl as [-> _]. reflexivity.
    + destruct (free_list_last _ _ _ _ Hfl) as (d0 & Hd0 & Hend).
      exists d0. split; [exact Hd0 |].
      assert (0 <= vring.desc._next d0).
      { apply (Hall 0 d0); [| exact Hd0]. simpl. apply elem_of_seqZ. lia. }
      lia.
Qed.

(** A ring of four on storage holding zeroes: the free list is
    3, 2, 1, 0 and four permits are there. *)
Lemma X16_new_ring_witness :
  exists r,
    vring.new conf4 (replicate 4 promise_default) (replicate 4 (desc_free 0))
      avail4 used4 = Ret r /\
    free_descs r = [3; 2; 1; 0] /\
    vring._available_descriptors r = 4 /\
    vring._free_desc r = 3.
Proof.
  destruct (X16_new_ring conf4 (replicate 4 promise_default)
              (replicate 4 (desc_free 0)) avail4 used4)
    as (r & E & Hfree & Hsem & _ & _ & Hpos).
  - simpl. lia.
  - reflexivity.
  - exists r. split; [exact E |]. split; [exact Hfree |]. split; [exact Hsem |].
    destruct Hpos as [Hf _]; [simpl; lia | exact Hf].
Defined.

(** ** The descriptors [do_complete] leaves alone *)

Lemma complete_one_frame fuel r free held c returned r1 :
  pool_inv r free held (c :: returned) ->
  vring.size (vring._config r) <= Z.of_nat fuel ->
  vring.complete_one fuel r = Ret r1 ->
  same_outside c (vring._descs r) (vring._descs r1).
Proof.
  intros [Hok Hfl Hch Hnd Hall (ues & Hub & Hids)] Hfuel H.
  destruct ues as [| ue ues]; [discriminate |]. injection Hids as Hid Hids.
  destruct Hub as (Hne & Hue & Hub).
  pose proof (ring_ok_descs r Hok) as Hlen.
  assert (Hc : chain (vring._descs r) (hd 0 c) c).
  { rewrite Forall_forall in Hch. apply Hch.
    apply elem_of_app. right. apply list_elem_of_here. }
  eapply NoDup_Permutation_proper in Hnd; [| apply (perm_reclaim free c held returned)].
  rewrite <- app_assoc in Hnd.
  assert (Hndc : NoDup (c ++ free)).
  { rewrite app_assoc in Hnd. apply NoDup_app in Hnd as [Hnd _].
    eapply NoDup_Permutation_proper; [| exact Hnd].
    apply Permutation_app_tail. symmetry. apply reverse_Permutation. }
  assert (Hlc : (length c <= fuel)%nat).
  { rewrite !length_app, concat_app, concat_cons, !length_app in Hall. lia. }
  unfold vring.complete_one, vring.masked in H. rewrite Hue, bind_Ret in H.
  apply bind_Ret_inv in H as (p & _ & H). rewrite Hid in H.
  set (r2 := vring.set_set_values _ _) in H.
  destruct (free_chain_spec c fuel (hd 0 c) r2 free)
    as (ds' & f' & s' & E & _ & Hsame & _); try assumption.
  rewrite E in H. injection H as <-. exact Hsame.
Qed.

Lemma drain_frame returned : forall n fuel r free held r',
  pool_inv r free held returned ->
  vring.size (vring._config r) <= Z.of_nat fuel ->
  vring.drain n fuel (vring.used_layout._idx (vring._used_shared r)) r = Ret r' ->
  same_outside (concat returned) (vring._descs r) (vring._descs r').
Proof.
  induction returned as [| c returned IH]; intros n fuel r free held r' Hinv Hfuel H.
  - pose proof Hinv as [_ _ _ _ _ (ues & Hub & Hids)].
    destruct ues; [| discriminate]. simpl in Hub.
    destruct n; simpl in H; rewrite Hub, Z.eqb_refl in H; injection H as <-;
      apply same_outside_refl.
  - destruct (complete_one_spec fuel r free held c returned Hinv Hfuel)
      as (ds' & f' & s' & sv' & t' & E & _ & Hne & Hinv1).
    assert (Hneq : (vring.used_layout._idx (vring._used_shared r) =? vring._used_tail r)
                   = false) by (apply Z.eqb_neq; congruence).
    destruct n as [| n]; cbn [vring.drain] in H; rewrite Hneq in H; [discriminate |].
    apply bind_Ret_inv in H as (r1 & H1 & H).
    pose proof (complete_one_frame _ _ _ _ _ _ _ Hinv Hfuel H1) as Hsame1.
    rewrite E in H1. injection H1 as <-.
    cbn [concat]. eapply same_outside_trans; [exact Hsame1 |].
    eapply (IH n fuel _ _ _ r' Hinv1); [exact Hfuel | exact H].
Qed.

Lemma do_complete_frame fuel r free held returned r' :
  pool_inv r free held returned ->
  vring.size (vring._config r) <= Z.of_nat fuel ->
  vring.do_complete fuel r = Ret r' ->
  same_outside (concat returned) (vring._descs r) (vring._descs r').
Proof.
  intros Hinv Hfuel (r2 & H2 & ->)%do_complete_inv.
  assert (Hd : pool_view (vring.disable_interrupts r) = pool_view r)
    by (unfold vring.disable_interrupts; destruct (vring.event_index _); reflexivity).
  assert (Hinv0 : pool_inv (vring.disable_interrupts r) free held returned)
    by (eapply pool_inv_ext; eassumption).
  assert (Hus : vring._used_shared (vring.disable_interrupts r) = vring._used_shared r)
    by (injection Hd; auto).
  assert (Hds : vring._descs (vring.disable_interrupts r) = vring._descs r)
    by (injection Hd; auto).
  assert (Hcfg : vring._config (vring.disable_interrupts r) = vring._config r)
    by (injection Hd; auto).
  rewrite <- Hus in H2.
  pose proof (drain_frame returned fuel fuel _ free held r2 Hinv0
                ltac:(rewrite Hcfg; exact Hfuel) H2) as Hsame.
  rewrite Hds in Hsame.
  unfold vring.enable_interrupts. cbn [snd].
  destruct (vring.event_index _); exact Hsame.
Qed.

(** ** The permits of [txq::post] *)

(** C8.  [txq::post] waits on the descriptor semaphore for exactly
    nr_frags(p) + 1 permits, one per payload fragment and one for the
    prepended header, before it builds the chain and posts it.  The chain
    has one read-only buffer per fragment of the packet with its header in
    front, each with the address and length of its fragment, the first
    carrying the promise that keeps the packet alive.  With fewer permits
    available the sender is suspended and nothing is posted.  Otherwise
    that many permits are taken and the chain is posted; at a quiescent
    point of the ring the post returns, the descriptors of one new chain
    of nr_frags(p) + 1 descriptors hold those buffers in order, the head
    of that chain is in the slot of the old head counter and avail.idx is
    one further, and the permits went down by nr_frags(p) + 1 and up by
    what the call reclaimed. *)
Theorem C8_txq_post_permits (fuel : nat) (d : dev) (vhdr_addr : Z) (p : packet)
    (r : vring.t) (held returned : list (list Z)) :
  let q := packet_prepend (mk_fragment vhdr_addr (_header_len d)) p in
  let n := nr_frags p + 1 in
  nr_frags q = n /\
  map (fun b => (vring.addr b, vring.len b, vring.writeable b)) (txq_chain q)
    = (virt_to_phys vhdr_addr, u32 (_header_len d), false)
      :: map (fun f => (virt_to_phys (base f), u32 (size f), false)) (fragments p) /\
  map vring.completed (txq_chain q)
    = promise_tx q :: map (fun _ => promise_default) (fragments p) /\
  (semaphore.current r < n -> snd (txq_post fuel d vhdr_addr p r) = Suspended) /\
  (n <= semaphore.current r ->
   snd (txq_post fuel d vhdr_addr p r) =
     Resumed (vring.post fuel [txq_chain q]
                (vring.set_available_descriptors (semaphore.current r - n) r))) /\
  (quiescent r held returned ->
   vring.size (vring._config r) <= Z.of_nat fuel ->
   n <= semaphore.current r ->
   exists r' c,
     snd (txq_post fuel d vhdr_addr p r) = Resumed (Ret r') /\
     quiescent r' (held ++ [c]) [] /\
     Z.of_nat (length c) = n /\
     (forall k b i, txq_chain q !! k = Some b -> c !! k = Some i ->
        at_index (vring._descs r') i =
          Ret (vring.desc.mk (vring.addr b) (vring.len b)
                 (vring.desc.mk_flags (S k <? length c)%nat (vring.writeable b) false)
                 (default 0 (c !! S k)))) /\
     at_index (vring.avail_layout._ring (vring._avail_shared r'))
              (Z.land (vring._avail_head r) (vring.mask r)) = Ret (hd 0 c) /\
     vring.avail_layout._idx (vring._avail_shared r') = u16 (vring._avail_head r + 1) /\
     vring._available_descriptors r'
       = semaphore.current r - n + Z.of_nat (length (concat returned))).
Proof.
  intros q n.
  assert (Hn : nr_frags q = n).
  { subst q n. unfold nr_frags, packet_prepend. simpl length. lia. }
  assert (Hlen : Z.of_nat (length (txq_chain q)) = n).
  { rewrite txq_chain_length. exact Hn. }
  assert (Hwait : n <= semaphore.current r ->
                  snd (txq_post fuel d vhdr_addr p r) =
                    Resumed (vring.post fuel [txq_chain q]
                               (vring.set_available_descriptors
                                  (semaphore.current r - n) r))).
  { intros H. unfold txq_post, semaphore.wait, semaphore.try_wait. cbn [snd].
    fold q. rewrite Hn. rewrite decide_True by lia. reflexivity. }
  split; [exact Hn |].
  split; [unfold txq_chain, q, packet_prepend; cbn [fragments map];
          rewrite map_map; reflexivity |].
  split; [unfold txq_chain, q, packet_prepend; cbn [fragments map];
          rewrite map_map; reflexivity |].
  split.
  { intros H. unfold txq_post, semaphore.wait, semaphore.try_wait. cbn [snd].
    fold q. rewrite Hn. rewrite decide_False by lia. reflexivity. }
  split; [exact Hwait |].
  intros Hq Hfuel Hperm. unfold semaphore.current in *.
  set (bc := txq_chain q) in *.
  assert (Hbc : bc <> []).
  { intros H. rewrite H in Hlen. unfold n, nr_frags in Hlen. simpl in Hlen. lia. }
  destruct (quiescent_post_heads fuel [bc] r held returned Hq)
    as (free & r2 & r' & news & Hinv & E2 & E & Hring & _ & Hq1 & Hl & Hcl & _
        & Hab & Hs1 & Hsem & Hcfg).
  { repeat constructor. exact Hbc. }
  { cbn [concat]. rewrite app_nil_r, Hlen. exact Hperm. }
  { exact Hfuel. }
  destruct news as [| c' [| ? ?]]; try discriminate.
  cbn [concat] in Hcl, E, E2, Hs1. rewrite !app_nil_r in E, E2, Hs1.
  repeat rewrite app_nil_r in Hcl.
  rewrite Hlen in E, E2, Hs1.
  set (r0 := vring.set_available_descriptors _ r) in *.
  assert (Hinv0 : pool_inv r0 free held returned).
  { eapply pool_inv_ext; [| exact Hinv]. reflexivity. }
  destruct (post_chain_inv bc r0 free held returned Hinv0 Hbc)
    as (r1 & E1 & Hinv1 & Hposted & Hring1 & Hhead1 & Hv1).
  { lia. }
  cbv zeta in *. set (c := reverse (take (length bc) free)) in *.
  assert (Hc1 : vring._config r1 = vring._config r) by (injection Hv1; auto).
  cbn [for_each] in E2. rewrite E1, bind_Ret in E2. injection E2 as <-.
  pose proof E as Edc. unfold vring.post in Edc. cbn [for_each] in Edc.
  rewrite E1, !bind_Ret in Edc.
  set (r3 := vring.set_avail_shared _ r1) in Edc.
  destruct (kick_views r3) as (Hkv & _ & _).
  destruct (kick_keeps r3) as (Hka & _ & Hkd).
  assert (Hsame : same_outside (concat returned) (vring._descs r1) (vring._descs r')).
  { change (vring._descs r1) with (vring._descs r3). rewrite <- Hkd.
    eapply (do_complete_frame fuel (vring.kick r3) (drop (length bc) free) (held ++ [c]));
      [| | exact Edc].
    - eapply pool_inv_ext; [| exact Hinv1]. rewrite Hkv. reflexivity.
    - injection Hkv. intros _ _ _ _ _ _ _ ->.
      change (vring._config r3) with (vring._config r1).
      rewrite Hc1. exact Hfuel. }
  assert (Hposted' : chain_posted (vring._descs r') bc c).
  { eapply chain_posted_frame; [exact Hsame | | exact Hposted].
    intros i Hi Hret.
    pose proof (inv_nodup _ _ _ _ Hinv1) as Hnd.
    apply NoDup_app in Hnd as (_ & _ & Hnd).
    rewrite concat_app in Hnd. apply NoDup_app in Hnd as (_ & Hdisj & _).
    apply (Hdisj i); [| exact Hret].
    apply elem_of_concat. exists c. split; [exact Hi |].
    apply elem_of_app. right. apply list_elem_of_here. }
  destruct Hab as [Hslot _]. cbn [map hd] in Hslot.
  assert (Hhd : hd 0 c' = hd 0 c).
  { pose proof Hslot as Hs. rewrite Hring, Hring1 in Hs.
    change (vring.mask r0) with (vring.mask r) in Hs.
    change (vring._avail_head r0) with (vring._avail_head r) in Hs.
    pose proof (inv_ok _ _ _ _ Hinv) as Hok.
    rewrite at_index_insert_eq in Hs; [congruence |].
    rewrite land_mask by exact Hok.
    change (vring._avail_shared r0) with (vring._avail_shared r).
    rewrite (ok_ring r Hok). apply Z.mod_pos_bound. apply ring_ok_size_pos. exact Hok. }
  assert (Hcc : c' = c).
  { destruct (quiescent_inv _ _ _ Hq1) as (free' & Hinv' & _).
    pose proof (inv_chains _ _ _ _ Hinv') as Hall.
    rewrite app_nil_r in Hall. apply Forall_app in Hall as [_ Hall].
    apply Forall_inv in Hall. rewrite Hhd in Hall.
    eapply chain_unique; [exact Hall |].
    eapply chain_posted_chain; [exact Hbc | exact Hposted']. }
  subst c'.
  exists r', c. split; [rewrite Hwait by exact Hperm; rewrite E; reflexivity |].
  split; [exact Hq1 |]. split; [rewrite Hcl; exact Hlen |].
  split.
  { intros k b i Hb Hi. rewrite (chain_posted_length _ _ _ Hposted').
    eapply chain_posted_lookup; eassumption. }
  split; [exact Hslot |]. split.
  { destruct (do_complete_keeps _ _ _ Edc) as (_ & _ & Hidx & _).
    rewrite Hidx, Hka. change (vring.avail_layout._idx (vring._avail_shared r3))
      with (vring._avail_head r1). exact Hhead1. }
  exact Hs1.
Qed.

(** The two-fragment packet on rings of four.  On the ring filled with
    receive buffers no permit is left and the sender is suspended.  On
    the fresh ring three permits are taken and one is left; descriptors 1,
    2 and 3 hold the header at 1024 and the fragments at 1000 and 2000,
    linked in that order, and descriptor 1 is published in slot 0. *)
Lemma C8_txq_post_permits_witness :
  snd (txq_post 4 dev_mrg 1024 pkt64 ring4_full) = Suspended /\
  exists r',
    snd (txq_post 4 dev_mrg 1024 pkt64 ring4) = Resumed (Ret r') /\
    vring._available_descriptors r' = 1 /\
    vring.avail_layout._idx (vring._avail_shared r') = 1 /\
    at_index (vring.avail_layout._ring (vring._avail_shared r')) 0 = Ret 1 /\
    at_index (vring._descs r') 1 =
      Ret (vring.desc.mk 1024 12 (vring.desc.mk_flags true false false) 2) /\
    at_index (vring._descs r') 2 =
      Ret (vring.desc.mk 1000 12 (vring.desc.mk_flags true false false) 3) /\
    at_index (vring._descs r') 3 =
      Ret (vring.desc.mk 2000 64 (vring.desc.mk_flags false false false) 0).
Proof.
  split.
  - apply (C8_txq_post_permits 4 dev_mrg 1024 pkt64 ring4_full [] []).
    vm_compute. reflexivity.
  - destruct (C8_txq_post_permits 4 dev_mrg 1024 pkt64 ring4 [] [])
      as (_ & _ & _ & _ & _ & H).
    destruct (H ring4_quiescent) as (r' & c & E & _ & _ & _ & _ & Hidx & Hsem).
    + simpl. lia.
    + vm_compute. discriminate.
    + exists r'. split; [exact E |]. split; [exact Hsem |]. split; [exact Hidx |].
      pose proof E as E0. vm_compute in E0. injection E0 as <-.
      repeat split; reflexivity.
Defined.
